(** * simple-trello: the board ordering engine

    A shallow embedding of the server routes
    (api/projects, api/projects/[projectId]/tasks, .../board, api/tasks/[taskId]),
    of lib/invite and lib/authless, and of the pure column helpers of the
    board client (groupByStatus, normalizeOrders, flattenUpdates).

    The relational store is a record of finite maps keyed by primary key.
    A route handler is a finite tree of Prisma calls ([Prog]); every
    [await prisma....] of the source is one [Call] node, executed atomically
    by [exec].  [run] executes a handler alone; [run_schedule] interleaves
    several handlers call by call. *)

From stdpp Require Import gmap strings list sorting.
From Stdlib Require Import ZArith Lia Ascii.

Local Open Scope string_scope.
Local Open Scope Z_scope.
Local Open Scope list_scope.

(** ** Data model (prisma/migrations/0001_init) *)

Inductive TaskStatus := TODO | DOING | DONE.
Inductive ProjectRole := OWNER | MEMBER.

#[global] Instance TaskStatus_eq_dec : EqDecision TaskStatus.
Proof. solve_decision. Defined.
#[global] Instance ProjectRole_eq_dec : EqDecision ProjectRole.
Proof. solve_decision. Defined.

(** [const STATUSES: TaskStatus[] = ["TODO", "DOING", "DONE"]] *)
Definition STATUSES : list TaskStatus := [TODO; DOING; DONE].

(** A row of table "Task"; the primary key "id" is the key of the map. *)
Record TaskRow := {
  row_projectId : string;
  row_title : string;
  row_description : option string;
  row_status : TaskStatus;
  row_order : Z;
  row_dueDate : option Z;
  row_assigneeId : option string;
  row_creatorId : string;
  row_createdAt : Z;
  row_updatedAt : Z;
}.

(** The projection every task route selects (all columns but projectId);
    it is also the client's [type Task]. *)
Record Task := {
  t_id : string;
  t_title : string;
  t_description : option string;
  t_status : TaskStatus;
  t_order : Z;
  t_dueDate : option Z;
  t_assigneeId : option string;
  t_creatorId : string;
  t_updatedAt : Z;
  t_createdAt : Z;
}.

Record ProjectRow := {
  project_name : string;
  project_inviteCode : string;
  project_createdAt : Z;
  project_updatedAt : Z;
}.

Record MemberRow := {
  member_displayName : string;
  member_createdAt : Z;
  member_updatedAt : Z;
}.

Record ProjectMemberRow := {
  pm_role : ProjectRole;
  pm_joinedAt : Z;
}.

(** select: { id, name, inviteCode } *)
Record Project := {
  p_id : string;
  p_name : string;
  p_inviteCode : string;
}.

(** select: { id, name, inviteCode, updatedAt } of the board route *)
Record BoardProject := {
  bp_id : string;
  bp_name : string;
  bp_inviteCode : string;
  bp_updatedAt : Z;
}.

(** select: { id, displayName } *)
Record Member := {
  m_id : string;
  m_displayName : string;
}.

(** The four tables. ProjectMember has the composite key (projectId, memberId). *)
Record Store := {
  tasks : gmap string TaskRow;
  projectMembers : gmap (string * string) ProjectMemberRow;
  projects : gmap string ProjectRow;
  members : gmap string MemberRow;
}.

(** What the handlers draw from outside the store: the ids and timestamps
    the client fills in on a write (the columns "id" and "updatedAt" have no
    default in the migration) and crypto.randomBytes, each an arbitrary
    stream read at a cursor. *)
Record Env := {
  gen_id : nat → string;
  clock : nat → Z;
  entropy : nat → Z;
}.

Record World := {
  store : Store;
  env : Env;
  ids_drawn : nat;
  ticks : nat;
  bytes_drawn : nat;
}.

Definition select_task (id : string) (r : TaskRow) : Task :=
  {| t_id := id;
     t_title := row_title r;
     t_description := row_description r;
     t_status := row_status r;
     t_order := row_order r;
     t_dueDate := row_dueDate r;
     t_assigneeId := row_assigneeId r;
     t_creatorId := row_creatorId r;
     t_updatedAt := row_updatedAt r;
     t_createdAt := row_createdAt r |}.

(** ** Sorting

    ORDER BY and Array.prototype.sort are both modelled by the stable
    insertion sort: an element goes in front of the first element it is
    not greater than, so equal elements keep their relative order. *)

Section StableSort.
Context {A : Type} (le : A → A → bool).

Fixpoint insert_by (x : A) (l : list A) : list A :=
  match l with
  | [] => [x]
  | y :: l' => if le x y then x :: y :: l' else y :: insert_by x l'
  end.

Fixpoint stable_sort (l : list A) : list A :=
  match l with
  | [] => []
  | x :: l' => insert_by x (stable_sort l')
  end.
End StableSort.

(** [_max: { order: true }]: null on no rows. *)
Fixpoint max_of (l : list Z) : option Z :=
  match l with
  | [] => None
  | x :: l' => match max_of l' with
               | None => Some x
               | Some m => Some (Z.max x m)
               end
  end.

(** ** Operations of the store (the Prisma calls of the routes) *)

(** data of task.create *)
Record TaskCreateData := {
  c_projectId : string;
  c_title : string;
  c_description : option string;
  c_status : TaskStatus;
  c_order : Z;
  c_dueDate : option Z;
  c_assigneeId : option string;
  c_creatorId : string;
}.

(** data of task.update: a key that is absent ([None]) leaves its column. *)
Record TaskPatch := {
  patch_title : option string;
  patch_description : option (option string);
  patch_status : option TaskStatus;
  patch_order : option Z;
  patch_dueDate : option (option Z);
  patch_assigneeId : option (option string);
}.

(** One entry of the board layout: { id, status, order }. *)
Record BoardUpdate := {
  bu_id : string;
  bu_status : TaskStatus;
  bu_order : Z;
}.

Definition layout_patch (status : TaskStatus) (order : Z) : TaskPatch :=
  {| patch_title := None; patch_description := None;
     patch_status := Some status; patch_order := Some order;
     patch_dueDate := None; patch_assigneeId := None |}.

(** The column "updatedAt" has no default in the migration: the client
    fills it on every write. *)
Definition apply_patch (d : TaskPatch) (now : Z) (r : TaskRow) : TaskRow :=
  {| row_projectId := row_projectId r;
     row_title := default (row_title r) (patch_title d);
     row_description := default (row_description r) (patch_description d);
     row_status := default (row_status r) (patch_status d);
     row_order := default (row_order r) (patch_order d);
     row_dueDate := default (row_dueDate r) (patch_dueDate d);
     row_assigneeId := default (row_assigneeId r) (patch_assigneeId d);
     row_creatorId := row_creatorId r;
     row_createdAt := row_createdAt r;
     row_updatedAt := now |}.

Definition new_row (d : TaskCreateData) (now : Z) : TaskRow :=
  {| row_projectId := c_projectId d;
     row_title := c_title d;
     row_description := c_description d;
     row_status := c_status d;
     row_order := c_order d;
     row_dueDate := c_dueDate d;
     row_assigneeId := c_assigneeId d;
     row_creatorId := c_creatorId d;
     row_createdAt := now;
     row_updatedAt := now |}.

Definition set_tasks (s : Store) (ts : gmap string TaskRow) : Store :=
  {| tasks := ts; projectMembers := projectMembers s;
     projects := projects s; members := members s |}.

Definition set_store (w : World) (s : Store) : World :=
  {| store := s; env := env w; ids_drawn := ids_drawn w;
     ticks := ticks w; bytes_drawn := bytes_drawn w |}.

(** Reading the generators. *)
Definition next_id (w : World) : string := gen_id (env w) (ids_drawn w).
Definition now (w : World) : Z := clock (env w) (ticks w).

Definition draw_id (w : World) : World :=
  {| store := store w; env := env w; ids_drawn := S (ids_drawn w);
     ticks := ticks w; bytes_drawn := bytes_drawn w |}.
Definition tick (w : World) : World :=
  {| store := store w; env := env w; ids_drawn := ids_drawn w;
     ticks := S (ticks w); bytes_drawn := bytes_drawn w |}.
Definition draw_bytes (n : nat) (w : World) : World :=
  {| store := store w; env := env w; ids_drawn := ids_drawn w;
     ticks := ticks w; bytes_drawn := (bytes_drawn w + n)%nat |}.

(** The rows of one project, and of one (project, status) partition. *)
Definition in_project (projectId : string) (kr : string * TaskRow) : Prop :=
  row_projectId kr.2 = projectId.
Definition in_partition (projectId : string) (status : TaskStatus)
    (kr : string * TaskRow) : Prop :=
  row_projectId kr.2 = projectId ∧ row_status kr.2 = status.

#[global] Instance in_project_dec p kr : Decision (in_project p kr).
Proof. unfold in_project. apply _. Defined.
#[global] Instance in_partition_dec p s kr : Decision (in_partition p s kr).
Proof. unfold in_partition. apply _. Defined.

Definition partition_rows (s : Store) (projectId : string) (status : TaskStatus)
    : list (string * TaskRow) :=
  filter (in_partition projectId status) (map_to_list (tasks s)).

(** orderBy: [{ status: "asc" }, { order: "asc" }, { createdAt: "asc" }];
    the enum sorts in its declaration order. *)
Definition status_rank (s : TaskStatus) : Z :=
  match s with TODO => 0 | DOING => 1 | DONE => 2 end.

Definition board_le (a b : Task) : bool :=
  if status_rank (t_status a) <? status_rank (t_status b) then true
  else if status_rank (t_status b) <? status_rank (t_status a) then false
  else if t_order a <? t_order b then true
  else if t_order b <? t_order a then false
  else t_createdAt a <=? t_createdAt b.

Definition project_tasks (s : Store) (projectId : string) : list Task :=
  (λ kr, select_task kr.1 kr.2) <$>
    filter (in_project projectId) (map_to_list (tasks s)).

(** where: { id: { in: ids } }, select: { id, projectId } *)
Definition tasks_with_id_in (s : Store) (ids : list string)
    : list (string * string) :=
  (λ kr, (kr.1, row_projectId kr.2)) <$>
    filter (λ kr, kr.1 ∈ ids) (map_to_list (tasks s)).

(** All updates of a $transaction, in order; a missing row makes the
    update throw, which aborts the whole transaction. *)
Fixpoint update_all (updates : list BoardUpdate) (now : Z)
    (ts : gmap string TaskRow) : option (gmap string TaskRow) :=
  match updates with
  | [] => Some ts
  | u :: rest =>
      match ts !! bu_id u with
      | None => None
      | Some r =>
          update_all rest now
            (<[bu_id u := apply_patch (layout_patch (bu_status u) (bu_order u)) now r]> ts)
      end
  end.

Definition invite_codes (s : Store) : list string :=
  (λ kr, project_inviteCode kr.2) <$> map_to_list (projects s).

Definition pm_le (a b : ProjectRole * Z * Member) : bool := a.1.2 <=? b.1.2.

(** projectMember.findMany of the board route: the rows of the project
    joined with their member, by joinedAt. *)
Definition project_member_list (s : Store) (projectId : string)
    : list (ProjectRole * Member) :=
  (λ x, (x.1.1, x.2)) <$>
  stable_sort pm_le
    (omap (λ kr : (string * string) * ProjectMemberRow,
             if decide (kr.1.1 = projectId)
             then (λ m, (pm_role kr.2, pm_joinedAt kr.2,
                         {| m_id := kr.1.2; m_displayName := member_displayName m |}))
                    <$> members s !! kr.1.2
             else None)
          (map_to_list (projectMembers s))).

(** The calls. A result of type [option _] is [None] when the call throws
    (unique constraint, record not found), except for the findUnique calls,
    where it is the null result. *)
Inductive Query : Type → Type :=
| ProjectMemberFindUnique (projectId memberId : string) : Query (option ProjectMemberRow)
| ProjectMemberFindMany (projectId : string) : Query (list (ProjectRole * Member))
| ProjectFindUnique (projectId : string) : Query (option BoardProject)
| TaskAggregateMaxOrder (projectId : string) (status : TaskStatus) : Query (option Z)
| TaskCreate (data : TaskCreateData) : Query (option Task)
| TaskFindManyBoard (projectId : string) : Query (list Task)
| TaskFindManyIn (ids : list string) : Query (list (string * string))
| TaskTransaction (updates : list BoardUpdate) : Query (option unit)
| TaskFindUnique (id : string) : Query (option (string * string))
| TaskUpdate (id : string) (data : TaskPatch) : Query (option Task)
| TaskDelete (id : string) : Query (option unit)
| MemberCreate (displayName : string) : Query (option Member)
| ProjectCreate (name inviteCode ownerId : string) : Query (option Project)
| RandomBytes (n : nat) : Query (list Z).

Definition exec {X} (q : Query X) (w : World) : X * World :=
  match q in Query X return X * World with
  | ProjectMemberFindUnique projectId memberId =>
      (projectMembers (store w) !! (projectId, memberId), w)
  | ProjectMemberFindMany projectId =>
      (project_member_list (store w) projectId, w)
  | ProjectFindUnique projectId =>
      ((λ r, {| bp_id := projectId; bp_name := project_name r;
                bp_inviteCode := project_inviteCode r;
                bp_updatedAt := project_updatedAt r |})
         <$> projects (store w) !! projectId, w)
  | TaskAggregateMaxOrder projectId status =>
      (max_of ((λ kr, row_order kr.2) <$> partition_rows (store w) projectId status), w)
  | TaskCreate data =>
      let id := next_id w in
      let r := new_row data (now w) in
      let w' := tick (draw_id w) in
      match tasks (store w) !! id with
      | Some _ => (None, w')
      | None => (Some (select_task id r),
                 set_store w' (set_tasks (store w) (<[id := r]> (tasks (store w)))))
      end
  | TaskFindManyBoard projectId =>
      (stable_sort board_le (project_tasks (store w) projectId), w)
  | TaskFindManyIn ids =>
      (tasks_with_id_in (store w) ids, w)
  | TaskTransaction updates =>
      let w' := tick w in
      match update_all updates (now w) (tasks (store w)) with
      | None => (None, w')
      | Some ts => (Some (), set_store w' (set_tasks (store w) ts))
      end
  | TaskFindUnique id =>
      ((λ r, (id, row_projectId r)) <$> tasks (store w) !! id, w)
  | TaskUpdate id data =>
      let w' := tick w in
      match tasks (store w) !! id with
      | None => (None, w')
      | Some r =>
          let r' := apply_patch data (now w) r in
          (Some (select_task id r'),
           set_store w' (set_tasks (store w) (<[id := r']> (tasks (store w)))))
      end
  | TaskDelete id =>
      match tasks (store w) !! id with
      | None => (None, w)
      | Some _ => (Some (), set_store w (set_tasks (store w) (delete id (tasks (store w)))))
      end
  | MemberCreate displayName =>
      let id := next_id w in
      let w' := tick (draw_id w) in
      match members (store w) !! id with
      | Some _ => (None, w')
      | None =>
          (Some {| m_id := id; m_displayName := displayName |},
           set_store w'
             {| tasks := tasks (store w);
                projectMembers := projectMembers (store w);
                projects := projects (store w);
                members := <[id := {| member_displayName := displayName;
                                      member_createdAt := now w;
                                      member_updatedAt := now w |}]> (members (store w)) |})
      end
  | ProjectCreate name inviteCode ownerId =>
      let id := next_id w in
      let w' := tick (draw_id w) in
      if decide (is_Some (projects (store w) !! id) ∨ inviteCode ∈ invite_codes (store w))
      then (None, w')
      else
        (Some {| p_id := id; p_name := name; p_inviteCode := inviteCode |},
         set_store w'
           {| tasks := tasks (store w);
              projectMembers :=
                <[(id, ownerId) := {| pm_role := OWNER; pm_joinedAt := now w |}]>
                  (projectMembers (store w));
              projects := <[id := {| project_name := name;
                                     project_inviteCode := inviteCode;
                                     project_createdAt := now w;
                                     project_updatedAt := now w |}]> (projects (store w));
              members := members (store w) |})
  | RandomBytes n =>
      ((λ i, entropy (env w) (bytes_drawn w + i)%nat `mod` 256) <$> seq 0 n,
       draw_bytes n w)
  end.

(** ** Handlers as trees of calls *)

Inductive Prog (A : Type) : Type :=
| Ret (a : A)
| Call {X : Type} (q : Query X) (k : X → Prog A).
Arguments Ret {A} a.
Arguments Call {A X} q k.

Fixpoint bind {A B} (p : Prog A) (f : A → Prog B) : Prog B :=
  match p with
  | Ret a => f a
  | Call q k => Call q (λ x, bind (k x) f)
  end.

Notation "x ← 'await' q ; k" := (Call q (λ x, k))
  (at level 20, q at level 100, k at level 200, only parsing).
Notation "x ← 'do' p ; k" := (bind p (λ x, k))
  (at level 20, p at level 100, k at level 200, only parsing).

(** A handler that runs alone. *)
Fixpoint run {A} (p : Prog A) (w : World) : A * World :=
  match p with
  | Ret a => (a, w)
  | Call q k => let '(x, w') := exec q w in run (k x) w'
  end.

(** The calls a handler makes when it runs alone from [w]. *)
Inductive Event : Type :=
| Ev : ∀ X : Type, Query X → Event.
Arguments Ev {X} q.

Fixpoint calls {A} (p : Prog A) (w : World) : list Event :=
  match p with
  | Ret _ => []
  | Call q k => let '(x, w') := exec q w in Ev q :: calls (k x) w'
  end.

(** One call of a handler: what another request can be interleaved with. *)
Definition step {A} (p : Prog A) (w : World) : Prog A * World :=
  match p with
  | Ret a => (Ret a, w)
  | Call q k => let '(x, w') := exec q w in (k x, w')
  end.

(** Requests in flight; a schedule names, call by call, whose turn it is. *)
Fixpoint run_schedule {A} (sched : list nat) (pool : list (Prog A)) (w : World)
    : list (Prog A) * World :=
  match sched with
  | [] => (pool, w)
  | i :: sched' =>
      match pool !! i with
      | None => run_schedule sched' pool w
      | Some p =>
          let '(p', w') := step p w in
          run_schedule sched' (<[i := p']> pool) w'
      end
  end.

(** ** lib/authless and the request boundary *)

Inductive ErrorCode :=
| MISSING_MEMBER_ID | FORBIDDEN | INVALID_BODY | ASSIGNEE_NOT_IN_PROJECT
| TASKS_NOT_IN_PROJECT | TASK_NOT_FOUND | PROJECT_NOT_FOUND
| INVITE_CODE_GENERATION_FAILED.

#[global] Instance ErrorCode_eq_dec : EqDecision ErrorCode.
Proof. solve_decision. Defined.

(** The result of code that may throw [new Error(message)]. *)
Inductive Outcome (A : Type) :=
| Returned (a : A)
| Thrown (message : ErrorCode).
Arguments Returned {A} a.
Arguments Thrown {A} message.

(** What a handler answers: NextResponse.json(body), an error body with its
    status, or an exception that leaves the handler (the framework's 500). *)
Inductive Response (A : Type) :=
| Json (body : A)
| JsonError (error : ErrorCode) (status : Z)
| Uncaught.
Arguments Json {A} body.
Arguments JsonError {A} error status.
Arguments Uncaught {A}.

(** String.prototype.trim on the ASCII white space: the strings of the task
    and project routes are read as ASCII text, one byte a character. On text
    outside ASCII the built-in also removes the Unicode white space (U+00A0,
    U+3000, U+FEFF and others); the join route, whose schema upper-cases as
    well, takes the string built-ins as parameters instead ([StringOps]). *)
Definition is_space (c : ascii) : bool :=
  bool_decide (c ∈ [" "; "009"; "010"; "011"; "012"; "013"]%char).

Fixpoint trim_start (s : list ascii) : list ascii :=
  match s with
  | [] => []
  | c :: s' => if is_space c then trim_start s' else s
  end.

Definition trim (s : string) : string :=
  String.string_of_list_ascii
    (rev (trim_start (rev (trim_start (String.list_ascii_of_string s))))).

(** [header] is req.headers.get("x-member-id"). *)
Definition getMemberIdOrThrow (header : option string) : Outcome string :=
  match trim <$> header with
  | None => Thrown MISSING_MEMBER_ID
  | Some memberId =>
      if decide (memberId = "") then Thrown MISSING_MEMBER_ID else Returned memberId
  end.

Definition assertMemberInProject (projectId memberId : string) : Prog (Outcome ()) :=
  pm ← await ProjectMemberFindUnique projectId memberId;
  Ret (match pm with
       | None => Thrown FORBIDDEN
       | Some _ => Returned ()
       end).

(** code === "MISSING_MEMBER_ID" ? 401 : 403 *)
Definition auth_status (code : ErrorCode) : Z :=
  if decide (code = MISSING_MEMBER_ID) then 401 else 403.

(** ** Request bodies and their schemas

    A body is given decoded to the shape of its schema; [None] is a body
    that is not JSON or not of that shape. A key that may be undefined or
    null is an [option]; where the handler tells the two apart it is an
    [option (option _)]. A datetime string is given as its instant. *)

Record CreateTaskBody := {
  ct_title : string;
  ct_description : option string;
  ct_status : option TaskStatus;
  ct_dueDate : option Z;
  ct_assigneeId : option string;
}.

(** z.string().min(lo).max(hi), on ASCII text: zod compares the number of
    UTF-16 code units, which there is the number of bytes. *)
Definition len_between (lo hi : nat) (s : string) : bool :=
  bool_decide (lo ≤ String.length s ≤ hi)%nat.
(** z.string().min(1) *)
Definition non_empty (s : string) : bool :=
  bool_decide (1 ≤ String.length s)%nat.
(** z.number().int().min(0).max(1000000) *)
Definition order_in_range (o : Z) : bool :=
  bool_decide (0 ≤ o ≤ 1000000).

Definition CreateTaskSchema (json : option CreateTaskBody) : option CreateTaskBody :=
  match json with
  | None => None
  | Some b =>
      let title := trim (ct_title b) in
      let description := trim <$> ct_description b in
      if len_between 1 120 title
         && from_option (len_between 0 2000) true description
         && from_option non_empty true (ct_assigneeId b)
      then Some {| ct_title := title; ct_description := description;
                   ct_status := ct_status b; ct_dueDate := ct_dueDate b;
                   ct_assigneeId := ct_assigneeId b |}
      else None
  end.

Definition BoardUpdateSchema (json : option (list BoardUpdate))
    : option (list BoardUpdate) :=
  match json with
  | None => None
  | Some tasks =>
      if forallb (λ u, non_empty (bu_id u) && order_in_range (bu_order u)) tasks
         && bool_decide (length tasks ≤ 2000)%nat
      then Some tasks else None
  end.

(** Object.keys(o).length *)
Definition has_key {A} (field : option A) : nat :=
  match field with Some _ => 1%nat | None => 0%nat end.

Definition patch_keys (o : TaskPatch) : nat :=
  (has_key (patch_title o) + has_key (patch_description o)
   + has_key (patch_status o) + has_key (patch_order o)
   + has_key (patch_dueDate o) + has_key (patch_assigneeId o))%nat.

Definition PatchTaskSchema (json : option TaskPatch) : option TaskPatch :=
  match json with
  | None => None
  | Some b =>
      let title := trim <$> patch_title b in
      let description := (λ d : option string, trim <$> d) <$> patch_description b in
      if from_option (len_between 1 120) true title
         && from_option (from_option (len_between 0 2000) true) true description
         && from_option order_in_range true (patch_order b)
         && from_option (from_option non_empty true) true (patch_assigneeId b)
         && bool_decide (0 < patch_keys b)%nat
      then Some {| patch_title := title; patch_description := description;
                   patch_status := patch_status b; patch_order := patch_order b;
                   patch_dueDate := patch_dueDate b;
                   patch_assigneeId := patch_assigneeId b |}
      else None
  end.

Record CreateProjectBody := {
  cp_projectName : string;
  cp_displayName : string;
}.

Definition CreateProjectSchema (json : option CreateProjectBody)
    : option CreateProjectBody :=
  match json with
  | None => None
  | Some b =>
      let projectName := trim (cp_projectName b) in
      let displayName := trim (cp_displayName b) in
      if len_between 1 80 projectName && len_between 1 40 displayName
      then Some {| cp_projectName := projectName; cp_displayName := displayName |}
      else None
  end.

(** ** api/projects/[projectId]/tasks *)

Module TasksRoute.

(** Lines 61-92: read the maximum, then insert. *)
Definition append (projectId memberId : string) (data : CreateTaskBody)
    (status : TaskStatus) : Prog (Response Task) :=
  maxOrder ← await TaskAggregateMaxOrder projectId status;
  let order := default (-1) maxOrder + 1 in
  task ← await TaskCreate
    {| c_projectId := projectId;
       c_title := ct_title data;
       c_description := ct_description data;
       c_status := status;
       c_order := order;
       c_dueDate := ct_dueDate data;
       c_assigneeId := ct_assigneeId data;
       c_creatorId := memberId |};
  match task with
  | None => Ret Uncaught
  | Some task => Ret (Json task)
  end.

Definition POST (projectId : string) (header : option string)
    (json : option CreateTaskBody) : Prog (Response Task) :=
  match getMemberIdOrThrow header with
  | Thrown code => Ret (JsonError code (auth_status code))
  | Returned memberId =>
      a ← do assertMemberInProject projectId memberId;
      match a with
      | Thrown code => Ret (JsonError code (auth_status code))
      | Returned _ =>
          match CreateTaskSchema json with
          | None => Ret (JsonError INVALID_BODY 400)
          | Some data =>
              let status := default TODO (ct_status data) in
              match ct_assigneeId data with
              | Some assigneeId =>
                  if decide (assigneeId = "")
                  then append projectId memberId data status
                  else
                    pm ← await ProjectMemberFindUnique projectId assigneeId;
                    match pm with
                    | None => Ret (JsonError ASSIGNEE_NOT_IN_PROJECT 400)
                    | Some _ => append projectId memberId data status
                    end
              | None => append projectId memberId data status
              end
          end
      end
  end.

End TasksRoute.

(** ** api/projects/[projectId]/board *)

Record BoardResponse := {
  board_project : BoardProject;
  board_me : string;
  board_members : list (ProjectRole * Member);
  board_tasks : list Task;
}.

Module BoardRoute.

Definition GET (projectId : string) (header : option string)
    : Prog (Response BoardResponse) :=
  match getMemberIdOrThrow header with
  | Thrown code => Ret (JsonError code (auth_status code))
  | Returned memberId =>
      a ← do assertMemberInProject projectId memberId;
      match a with
      | Thrown code => Ret (JsonError code (auth_status code))
      | Returned _ =>
          project ← await ProjectFindUnique projectId;
          match project with
          | None => Ret (JsonError PROJECT_NOT_FOUND 404)
          | Some project =>
              members ← await ProjectMemberFindMany projectId;
              tasks ← await TaskFindManyBoard projectId;
              Ret (Json {| board_project := project;
                           board_me := memberId;
                           board_members := members;
                           board_tasks := tasks |})
          end
      end
  end.

Definition PUT (projectId : string) (header : option string)
    (json : option (list BoardUpdate)) : Prog (Response ()) :=
  match getMemberIdOrThrow header with
  | Thrown code => Ret (JsonError code (auth_status code))
  | Returned memberId =>
      a ← do assertMemberInProject projectId memberId;
      match a with
      | Thrown code => Ret (JsonError code (auth_status code))
      | Returned _ =>
          match BoardUpdateSchema json with
          | None => Ret (JsonError INVALID_BODY 400)
          | Some tasks =>
              let ids := bu_id <$> tasks in
              existing ← await TaskFindManyIn ids;
              if bool_decide (length existing ≠ length ids)
                 || existsb (λ t, bool_decide (t.2 ≠ projectId)) existing
              then Ret (JsonError TASKS_NOT_IN_PROJECT 400)
              else
                r ← await TaskTransaction tasks;
                match r with
                | None => Ret Uncaught
                | Some _ => Ret (Json ())
                end
          end
      end
  end.

End BoardRoute.

(** ** api/tasks/[taskId] *)

Module TaskRoute.

Definition update (taskId : string) (data : TaskPatch) : Prog (Response Task) :=
  task ← await TaskUpdate taskId data;
  match task with
  | None => Ret Uncaught
  | Some task => Ret (Json task)
  end.

Definition set_assigneeId (data : TaskPatch) (assigneeId : option string)
    : TaskPatch :=
  {| patch_title := patch_title data;
     patch_description := patch_description data;
     patch_status := patch_status data;
     patch_order := patch_order data;
     patch_dueDate := patch_dueDate data;
     patch_assigneeId := Some assigneeId |}.

Definition PATCH (taskId : string) (header : option string)
    (json : option TaskPatch) : Prog (Response Task) :=
  match getMemberIdOrThrow header with
  | Thrown code => Ret (JsonError code 401)
  | Returned memberId =>
      match PatchTaskSchema json with
      | None => Ret (JsonError INVALID_BODY 400)
      | Some parsed =>
          existing ← await TaskFindUnique taskId;
          match existing with
          | None => Ret (JsonError TASK_NOT_FOUND 404)
          | Some existing =>
              a ← do assertMemberInProject existing.2 memberId;
              match a with
              | Thrown _ => Ret (JsonError FORBIDDEN 403)
              | Returned _ =>
                  let data :=
                    {| patch_title := patch_title parsed;
                       patch_description := patch_description parsed;
                       patch_status := patch_status parsed;
                       patch_order := patch_order parsed;
                       patch_dueDate := patch_dueDate parsed;
                       patch_assigneeId := None |} in
                  match patch_assigneeId parsed with
                  | None => update taskId data
                  | Some None => update taskId (set_assigneeId data None)
                  | Some (Some assigneeId) =>
                      if decide (assigneeId = "")
                      then update taskId (set_assigneeId data (Some assigneeId))
                      else
                        pm ← await ProjectMemberFindUnique existing.2 assigneeId;
                        match pm with
                        | None => Ret (JsonError ASSIGNEE_NOT_IN_PROJECT 400)
                        | Some _ =>
                            update taskId (set_assigneeId data (Some assigneeId))
                        end
                  end
              end
          end
      end
  end.

Definition DELETE (taskId : string) (header : option string)
    : Prog (Response ()) :=
  match getMemberIdOrThrow header with
  | Thrown code => Ret (JsonError code 401)
  | Returned memberId =>
      existing ← await TaskFindUnique taskId;
      match existing with
      | None => Ret (Json ())
      | Some existing =>
          a ← do assertMemberInProject existing.2 memberId;
          match a with
          | Thrown _ => Ret (JsonError FORBIDDEN 403)
          | Returned _ =>
              r ← await TaskDelete taskId;
              match r with
              | None => Ret Uncaught
              | Some _ => Ret (Json ())
              end
          end
      end
  end.

End TaskRoute.

(** ** lib/invite *)

(** 32 chars alphabet (no I/O to reduce confusion) *)
Definition alphabet : string := "ABCDEFGHJKLMNPQRSTUVWXYZ23456789".

(** [s[i]] appended to a string: the character, or the text of undefined. *)
Definition char_at (s : string) (i : nat) : string :=
  match String.get i s with
  | Some c => String c ""
  | None => "undefined"
  end.

Definition invite_code_of (length : nat) (bytes : list Z) : string :=
  fold_left
    (λ out i,
       out +:+ match bytes !! i with
               | Some b => char_at alphabet (Z.to_nat (b `mod` Z.of_nat (String.length alphabet)))
               | None => "undefined"
               end)
    (seq 0 length) "".

(** [length] is the optional argument: generateInviteCode(length = 8). *)
Definition generateInviteCode (length : option nat) : Prog string :=
  let length := default 8%nat length in
  bytes ← await RandomBytes length;
  Ret (invite_code_of length bytes).

(** ** api/projects *)

Module ProjectsRoute.

(** for (let attempt = 0; attempt < 8; attempt++), [attempts] iterations left;
    the catch takes every failure of project.create as a collision. *)
Fixpoint create_with_retry (attempts : nat) (projectName memberId : string)
    : Prog (option Project) :=
  match attempts with
  | O => Ret None
  | S attempts' =>
      inviteCode ← do generateInviteCode None;
      project ← await ProjectCreate projectName inviteCode memberId;
      match project with
      | Some project => Ret (Some project)
      | None => create_with_retry attempts' projectName memberId
      end
  end.

Definition POST (json : option CreateProjectBody)
    : Prog (Response (Project * Member)) :=
  match CreateProjectSchema json with
  | None => Ret (JsonError INVALID_BODY 400)
  | Some parsed =>
      member ← await MemberCreate (cp_displayName parsed);
      match member with
      | None => Ret Uncaught
      | Some member =>
          project ← do create_with_retry 8 (cp_projectName parsed) (m_id member);
          match project with
          | None => Ret (JsonError INVITE_CODE_GENERATION_FAILED 500)
          | Some project => Ret (Json (project, member))
          end
      end
  end.

End ProjectsRoute.

(** ** The board client's column helpers *)

(** Record<TaskStatus, Task[]> *)
Definition Columns := TaskStatus → list Task.

Definition no_columns : Columns := λ _, [].

Definition set_column (out : Columns) (s : TaskStatus) (l : list Task) : Columns :=
  λ s', if decide (s' = s) then l else out s'.

(** (a, b) => a.order - b.order: [a] stays in front of [b] unless positive. *)
Definition by_order (a b : Task) : bool := t_order a - t_order b <=? 0.

Definition groupByStatus (tasks : list Task) : Columns :=
  let out := fold_left (λ out t, set_column out (t_status t) (out (t_status t) ++ [t])%list)
               tasks no_columns in
  fold_left (λ out s, set_column out s (stable_sort by_order (out s))) STATUSES out.

Definition with_position (status : TaskStatus) (idx : nat) (t : Task) : Task :=
  {| t_id := t_id t; t_title := t_title t; t_description := t_description t;
     t_status := status; t_order := Z.of_nat idx;
     t_dueDate := t_dueDate t; t_assigneeId := t_assigneeId t;
     t_creatorId := t_creatorId t; t_updatedAt := t_updatedAt t;
     t_createdAt := t_createdAt t |}.

Definition normalizeOrders (columns : Columns) : Columns :=
  fold_left (λ next status, set_column next status (imap (with_position status) (columns status)))
    STATUSES no_columns.

Definition flattenUpdates (columns : Columns) : list BoardUpdate :=
  fold_left
    (λ out status,
       (out ++ imap (λ i t, {| bu_id := t_id t; bu_status := status;
                               bu_order := Z.of_nat i |}) (columns status))%list)
    STATUSES [].

(** Group-and-sort: the board as the client shows it after a fetch,
    [setColumns(groupByStatus(res.tasks))]. *)
Definition group_and_sort (w : World) (projectId : string) : Columns :=
  groupByStatus (exec (TaskFindManyBoard projectId) w).1.

(** ** Vocabulary of the statements *)

(** A boolean comparison as a relation. *)
Definition le_rel {A} (le : A → A → bool) : relation A := λ a b, le a b = true.

(** Order ascending, ties by creation time ascending. *)
Definition column_le (a b : Task) : Prop :=
  t_order a < t_order b ∨ (t_order a = t_order b ∧ t_createdAt a ≤ t_createdAt b).

(** The request carries the identity [memberId], a member of the project. *)
Definition member_of (w : World) (projectId : string) (header : option string)
    (memberId : string) : Prop :=
  getMemberIdOrThrow header = Returned memberId
  ∧ is_Some (projectMembers (store w) !! (projectId, memberId)).

(** [m] is the greatest order of the (project, status) partition. *)
Definition partition_max (s : Store) (projectId : string) (status : TaskStatus)
    (m : Z) : Prop :=
  (∃ k r, tasks s !! k = Some r ∧ row_projectId r = projectId
          ∧ row_status r = status ∧ row_order r = m)
  ∧ ∀ k r, tasks s !! k = Some r → row_projectId r = projectId →
           row_status r = status → row_order r ≤ m.

(** No task of the store is in the (project, status) partition. *)
Definition partition_empty (s : Store) (projectId : string) (status : TaskStatus)
    : Prop :=
  ∀ k r, tasks s !! k = Some r → row_projectId r = projectId → row_status r ≠ status.

(** The assignee of a request, when there is one, is a member of the project. *)
Definition assignee_ok (w : World) (projectId : string) (assigneeId : option string)
    : Prop :=
  match assigneeId with
  | Some a => a ≠ "" → is_Some (projectMembers (store w) !! (projectId, a))
  | None => True
  end.

(** The batch names every task once, and every named task is a task of the
    project. *)
Definition layout_valid (s : Store) (projectId : string) (batch : list BoardUpdate)
    : Prop :=
  NoDup (bu_id <$> batch)
  ∧ ∀ u, u ∈ batch → ∃ r, tasks s !! bu_id u = Some r ∧ row_projectId r = projectId.

(** The batch lists every task of the (project, status) partition. *)
Definition covers (s : Store) (projectId : string) (status : TaskStatus)
    (batch : list BoardUpdate) : Prop :=
  ∀ k r, tasks s !! k = Some r → row_projectId r = projectId →
         row_status r = status → k ∈ bu_id <$> batch.

(** No two tasks of the (project, status) partition have the same order. *)
Definition orders_distinct (s : Store) (projectId : string) (status : TaskStatus)
    : Prop :=
  ∀ k1 r1 k2 r2,
    tasks s !! k1 = Some r1 → tasks s !! k2 = Some r2 →
    row_projectId r1 = projectId → row_projectId r2 = projectId →
    row_status r1 = status → row_status r2 = status →
    row_order r1 = row_order r2 → k1 = k2.

(** The batch gives no order twice within the column [status]. *)
Definition numbering_distinct (status : TaskStatus) (batch : list BoardUpdate)
    : Prop :=
  ∀ u v, u ∈ batch → v ∈ batch → bu_status u = status → bu_status v = status →
         bu_order u = bu_order v → bu_id u = bu_id v.

(** A character of the invite alphabet. *)
Definition in_alphabet (c : ascii) : Prop :=
  c ∈ String.list_ascii_of_string alphabet.

(** Eight characters, all of the alphabet. *)
Definition invite_code_shape (code : string) : Prop :=
  String.length code = 8%nat
  ∧ Forall in_alphabet (String.list_ascii_of_string code).

(** The code the [k]-th attempt of a project creation started in [w] draws. *)
Definition candidate_code (w : World) (k : nat) : string :=
  invite_code_of 8
    ((λ i, entropy (env w) (bytes_drawn w + 8 * k + i)%nat `mod` 256) <$> seq 0 8).

Definition is_project_create (e : Event) : bool :=
  match e with
  | Ev q => match q with
            | ProjectCreate _ _ _ => true
            | _ => false
            end
  end.

(** How many times a handler running alone from [w] calls project.create. *)
Definition create_attempts {A} (p : Prog A) (w : World) : nat :=
  length (filter (λ e, is_project_create e = true) (calls p w)).

(** Every call a handler can make, on any path, satisfies [P]. *)
Inductive every_call {A : Type} (P : Event → Prop) : Prog A → Prop :=
| every_call_Ret (a : A) : every_call P (Ret a)
| every_call_Call (X : Type) (q : Query X) (k : X → Prog A) :
    P (Ev q) → (∀ x, every_call P (k x)) → every_call P (Call q k).

(** The calls that insert into Member, Project or ProjectMember. *)
Definition writes_directory (e : Event) : Prop :=
  match e with
  | Ev q => match q with
            | MemberCreate _ => True
            | ProjectCreate _ _ _ => True
            | _ => False
            end
  end.

(** The tables other than Task. *)
Definition directory (s : Store)
    : gmap (string * string) ProjectMemberRow * gmap string ProjectRow
      * gmap string MemberRow :=
  (projectMembers s, projects s, members s).

(** No identity: the header is absent or blank. *)
Definition no_identity (header : option string) : Prop :=
  header = None ∨ ∃ h, header = Some h ∧ trim h = "".

(** A request whose answer is dropped, so that requests of different routes
    can be in flight together. *)
Definition forget {A} (p : Prog A) : Prog () := bind p (λ _, Ret ()).

(** The requests of the task routes. *)
Inductive task_request : Prog () → Prop :=
| request_POST projectId header json :
    task_request (forget (TasksRoute.POST projectId header json))
| request_GET projectId header :
    task_request (forget (BoardRoute.GET projectId header))
| request_PUT projectId header json :
    task_request (forget (BoardRoute.PUT projectId header json))
| request_PATCH taskId header json :
    task_request (forget (TaskRoute.PATCH taskId header json))
| request_DELETE taskId header :
    task_request (forget (TaskRoute.DELETE taskId header)).

(** The creator and the assignee of every task are members of its project. *)
Definition people_are_members (s : Store) : Prop :=
  ∀ k r, tasks s !! k = Some r →
    is_Some (projectMembers s !! (row_projectId r, row_creatorId r))
    ∧ ∀ a, row_assigneeId r = Some a →
           is_Some (projectMembers s !! (row_projectId r, a)).

(** ** api/projects/join

    The join route makes two store calls, written here as functions of the
    world: the lookup of a project by its invite code and the creation of a
    member together with its membership. *)

(** The string built-ins the join schema calls: String.prototype.trim,
    String.prototype.toUpperCase, and the length that zod's min and max
    compare (the number of UTF-16 code units of the string). They belong to
    the JavaScript runtime and to zod, not to the repository, and are taken
    as parameters of the route. *)
Record StringOps := {
  str_trim : string → string;
  str_toUpperCase : string → string;
  str_length : string → nat;
}.

(** The three on ASCII text, where a character is one byte. *)
Definition upper (c : ascii) : ascii :=
  let n := nat_of_ascii c in
  if (97 <=? n)%nat && (n <=? 122)%nat then ascii_of_nat (n - 32) else c.

Definition toUpperCase (s : string) : string :=
  String.string_of_list_ascii (upper <$> String.list_ascii_of_string s).

Definition ascii_strings : StringOps :=
  {| str_trim := trim; str_toUpperCase := toUpperCase; str_length := String.length |}.

Record JoinProjectBody := {
  jp_inviteCode : string;
  jp_displayName : string;
}.

(** inviteCode: z.string().trim().min(4).max(32).transform(toUpperCase),
    displayName: z.string().trim().min(1).max(40) *)
Definition JoinProjectSchema (ops : StringOps) (json : option JoinProjectBody)
    : option JoinProjectBody :=
  match json with
  | None => None
  | Some b =>
      let inviteCode := str_trim ops (jp_inviteCode b) in
      let displayName := str_trim ops (jp_displayName b) in
      if bool_decide (4 ≤ str_length ops inviteCode ≤ 32)%nat
         && bool_decide (1 ≤ str_length ops displayName ≤ 40)%nat
      then Some {| jp_inviteCode := str_toUpperCase ops inviteCode;
                   jp_displayName := displayName |}
      else None
  end.

Module JoinRoute.

(** project.findUnique({ where: { inviteCode } }) *)
Definition project_by_inviteCode (s : Store) (inviteCode : string) : option Project :=
  (λ kr : string * ProjectRow,
     {| p_id := kr.1; p_name := project_name kr.2;
        p_inviteCode := project_inviteCode kr.2 |})
    <$> head (filter (λ kr, project_inviteCode kr.2 = inviteCode)
                (map_to_list (projects s))).

(** member.create({ data: { displayName, projects: { create: { projectId,
    role: "MEMBER" } } } }); [None] when the call throws. *)
Definition member_create_joined (displayName projectId : string) (w : World)
    : option Member * World :=
  let id := next_id w in
  let w' := tick (draw_id w) in
  match members (store w) !! id with
  | Some _ => (None, w')
  | None =>
      (Some {| m_id := id; m_displayName := displayName |},
       set_store w'
         {| tasks := tasks (store w);
            projectMembers :=
              <[(projectId, id) := {| pm_role := MEMBER; pm_joinedAt := now w |}]>
                (projectMembers (store w));
            projects := projects (store w);
            members := <[id := {| member_displayName := displayName;
                                  member_createdAt := now w;
                                  member_updatedAt := now w |}]> (members (store w)) |})
  end.

Definition POST (ops : StringOps) (json : option JoinProjectBody) (w : World)
    : Response (Project * Member) * World :=
  match JoinProjectSchema ops json with
  | None => (JsonError INVALID_BODY 400, w)
  | Some parsed =>
      match project_by_inviteCode (store w) (jp_inviteCode parsed) with
      | None => (JsonError PROJECT_NOT_FOUND 404, w)
      | Some project =>
          match member_create_joined (jp_displayName parsed) (p_id project) w with
          | (None, w') => (Uncaught, w')
          | (Some member, w') => (Json (project, member), w')
          end
      end
  end.

End JoinRoute.

(** The built-ins leave an invite code as it is: it has no white space and
    no lower-case letter, and its eight characters are eight code units. *)
Definition plain_on_invite_codes (ops : StringOps) : Prop :=
  ∀ code, invite_code_shape code →
    str_trim ops code = code ∧ str_toUpperCase ops code = code
    ∧ str_length ops code = 8%nat.

(** All tasks of a board, column after column. *)
Definition all_tasks (columns : Columns) : list Task :=
  columns TODO ++ columns DOING ++ columns DONE.

(** The columns hold exactly the tasks of the project, each once: every
    task of a column is a task of the project and every task of the project
    is in some column. Status and order of the tasks in the columns are
    those of the client, not necessarily of the store. *)
Definition board_of (s : Store) (projectId : string) (columns : Columns) : Prop :=
  NoDup (t_id <$> all_tasks columns)
  ∧ (∀ t, t ∈ all_tasks columns →
          ∃ r, tasks s !! t_id t = Some r ∧ row_projectId r = projectId)
  ∧ (∀ k r, tasks s !! k = Some r → row_projectId r = projectId →
            k ∈ t_id <$> all_tasks columns).

(** ** The board page *)

Module BoardClient.

(** The id of a column's droppable is its status: [useDroppable({ id: status })]. *)
Definition status_name (s : TaskStatus) : string :=
  match s with
  | TODO => "TODO"
  | DOING => "DOING"
  | DONE => "DONE"
  end.

(** lib/api apiFetch: the header x-member-id is set when the stored member
    id is not empty. *)
Definition request_header (memberId : option string) : option string :=
  match memberId with
  | Some m => if decide (m = "") then None else Some m
  | None => None
  end.

Definition findContainer (id : string) (col : Columns) : option TaskStatus :=
  match list_find (λ s, status_name s = id) STATUSES with
  | Some (_, s) => Some s
  | None => snd <$> list_find (λ s, Exists (λ t, t_id t = id) (col s)) STATUSES
  end.

(** [{ ...moving, status: overContainer }] *)
Definition with_status (t : Task) (status : TaskStatus) : Task :=
  {| t_id := t_id t; t_title := t_title t; t_description := t_description t;
     t_status := status; t_order := t_order t;
     t_dueDate := t_dueDate t; t_assigneeId := t_assigneeId t;
     t_creatorId := t_creatorId t; t_updatedAt := t_updatedAt t;
     t_createdAt := t_createdAt t |}.

(** The state update of onDragOver; [over] is None when the pointer is over
    no droppable. [arrayMove] is the function of @dnd-kit/sortable; findIndex
    is [list_find], None for -1. *)
Definition onDragOver (arrayMove : list Task → nat → nat → list Task)
    (activeId : string) (over : option string) (prev : Columns) : Columns :=
  match over with
  | None => prev
  | Some overId =>
      match findContainer activeId prev, findContainer overId prev with
      | Some activeContainer, Some overContainer =>
          let active := list_find (λ t, t_id t = activeId) (prev activeContainer) in
          let over := list_find (λ t, t_id t = overId) (prev overContainer) in
          if decide (activeContainer = overContainer)
          then
            match active, over with
            | Some (activeIndex, _), Some (overIndex, _) =>
                if decide (activeIndex = overIndex) then prev
                else set_column prev activeContainer
                       (arrayMove (prev activeContainer) activeIndex overIndex)
            | _, _ => prev
            end
          else
            match active with
            | None => prev
            | Some (_, moving) =>
                let nextActive :=
                  filter (λ t, t_id t ≠ activeId) (prev activeContainer) in
                let insertAt :=
                  match over with
                  | Some (overIndex, _) => overIndex
                  | None => length (prev overContainer)
                  end in
                let nextOver :=
                  take insertAt (prev overContainer)
                  ++ [with_status moving overContainer]
                  ++ drop insertAt (prev overContainer) in
                set_column (set_column prev activeContainer nextActive)
                  overContainer nextOver
            end
      | _, _ => prev
      end
  end.

(** refresh: without a stored member id nothing is fetched; a failed fetch
    leaves the columns. *)
Definition refresh (projectId : string) (memberId : option string)
    (columns : Columns) (w : World) : Columns * World :=
  match request_header memberId with
  | None => (columns, w)
  | Some _ =>
      match run (BoardRoute.GET projectId (request_header memberId)) w with
      | (Json res, w2) => (groupByStatus (board_tasks res), w2)
      | (_, w2) => (columns, w2)
      end
  end.

(** persistBoardLayout: a failed save re-syncs from the server. *)
Definition persistBoardLayout (projectId : string) (memberId : option string)
    (nextColumns columns : Columns) (w : World) : Columns * World :=
  match run (BoardRoute.PUT projectId (request_header memberId)
               (Some (flattenUpdates nextColumns))) w with
  | (Json _, w2) => (columns, w2)
  | (_, w2) => refresh projectId memberId columns w2
  end.

(** onDragEnd: dropped over nothing, the columns are renumbered locally;
    dropped over a droppable, they are renumbered and saved. *)
Definition onDragEnd (projectId : string) (memberId : option string)
    (over : option string) (prev : Columns) (w : World) : Columns * World :=
  match over with
  | None => (normalizeOrders prev, w)
  | Some _ =>
      let next := normalizeOrders prev in
      persistBoardLayout projectId memberId next next w
  end.

(** addTask: the request sends title and status only. *)
Definition addTask (projectId : string) (memberId : option string)
    (title : string) (status : TaskStatus) (prev : Columns) (w : World)
    : Columns * World :=
  match run (TasksRoute.POST projectId (request_header memberId)
               (Some {| ct_title := title; ct_description := None;
                        ct_status := Some status; ct_dueDate := None;
                        ct_assigneeId := None |})) w with
  | (Json task, w2) =>
      (normalizeOrders (set_column prev status (prev status ++ [task])), w2)
  | (_, w2) => (prev, w2)
  end.

(** deleteTask, with the task being edited. *)
Definition deleteTask (memberId : option string) (editing : option Task)
    (prev : Columns) (w : World) : Columns * World :=
  match editing with
  | None => (prev, w)
  | Some editing =>
      let id := t_id editing in
      match run (TaskRoute.DELETE id (request_header memberId)) w with
      | (Json _, w2) =>
          (normalizeOrders
             (fold_left (λ next s, set_column next s (filter (λ t, t_id t ≠ id) (prev s)))
                STATUSES no_columns), w2)
      | (_, w2) => (prev, w2)
      end
  end.

(** saveTaskEdits, with the task being edited: the request sends title,
    description, assigneeId and dueDate; the answered task replaces the task
    of its id ([{ ...t, ...res.task }], the two of the same fields). *)
Definition saveTaskEdits (memberId : option string) (editing : option Task)
    (title : string) (description : option string) (assigneeId : option string)
    (dueDate : option Z) (prev : Columns) (w : World) : Columns * World :=
  match editing with
  | None => (prev, w)
  | Some editing =>
      match run (TaskRoute.PATCH (t_id editing) (request_header memberId)
                   (Some {| patch_title := Some title;
                            patch_description := Some description;
                            patch_status := None; patch_order := None;
                            patch_dueDate := Some dueDate;
                            patch_assigneeId := Some assigneeId |})) w with
      | (Json task, w2) =>
          (fold_left
             (λ next s,
                set_column next s
                  ((λ t, if decide (t_id t = t_id task) then task else t) <$> prev s))
             STATUSES no_columns, w2)
      | (_, w2) => (prev, w2)
      end
  end.

End BoardClient.

(** What the user of the board page does, one thing after the other: the
    page refreshes, a task is added, edited or deleted, a card is dragged
    over droppables and dropped over one. *)
Inductive Action :=
| Refresh
| AddTask (title : string) (status : TaskStatus)
| SaveTaskEdits (editing : option Task) (title : string)
    (description : option string) (assigneeId : option string) (dueDate : option Z)
| DeleteTask (editing : option Task)
| DragAndDrop (events : list (string * option string)) (overId : string).

(** The function passed for arrayMove rearranges its list, whatever the two
    indices within it. *)
Definition rearranges (arrayMove : list Task → nat → nat → list Task) : Prop :=
  ∀ l i j, (i < length l)%nat → (j < length l)%nat → arrayMove l i j ≡ₚ l.

(** Every task is in the column of its status. *)
Definition in_own_column (columns : Columns) : Prop :=
  ∀ s t, t ∈ columns s → t_status t = s.

(** An arrayMove: the item at [from] is taken out and put back at [to]. *)
Definition move_item (l : list Task) (from to : nat) : list Task :=
  match l !! from with
  | Some x => take to (delete from l) ++ x :: drop to (delete from l)
  | None => l
  end.

(** The drag-over events of one drag, applied in turn. *)
Definition drag (arrayMove : list Task → nat → nat → list Task)
    (events : list (string * option string)) (columns : Columns) : Columns :=
  fold_left (λ prev ev, BoardClient.onDragOver arrayMove ev.1 ev.2 prev)
    events columns.

Definition act (arrayMove : list Task → nat → nat → list Task)
    (projectId : string) (memberId : option string) (a : Action)
    (st : Columns * World) : Columns * World :=
  match a with
  | Refresh => BoardClient.refresh projectId memberId st.1 st.2
  | AddTask title status =>
      BoardClient.addTask projectId memberId title status st.1 st.2
  | SaveTaskEdits editing title description assigneeId dueDate =>
      BoardClient.saveTaskEdits memberId editing title description assigneeId
        dueDate st.1 st.2
  | DeleteTask editing => BoardClient.deleteTask memberId editing st.1 st.2
  | DragAndDrop events overId =>
      BoardClient.onDragEnd projectId memberId (Some overId)
        (drag arrayMove events st.1) st.2
  end.

(** The columns show the tasks of the project as the store has them: in
    every column the tasks a fetch would show, in the same places. *)
Definition in_sync (columns : Columns) (w : World) (projectId : string) : Prop :=
  ∀ s, t_id <$> columns s = t_id <$> group_and_sort w projectId s.

(** The board page can work on the project: the stored member id is that of
    a member, the project exists, and no two tasks of a column have the same
    order. *)
Definition board_ready (w : World) (projectId : string) (memberId : option string)
    : Prop :=
  (∃ m, member_of w projectId (BoardClient.request_header memberId) m)
  ∧ is_Some (projects (store w) !! projectId)
  ∧ ∀ s, orders_distinct (store w) projectId s.

(** ** Requests in flight together: the calls and where a request stands *)

(** The calls made under a schedule, in the order they are made, each with
    the index of the request that makes it. *)
Fixpoint schedule_calls {A} (sched : list nat) (pool : list (Prog A)) (w : World)
    : list (nat * Event) :=
  match sched with
  | [] => []
  | i :: sched' =>
      match pool !! i with
      | None => schedule_calls sched' pool w
      | Some p =>
          match p with
          | Ret _ => schedule_calls sched' pool w
          | Call q k =>
              let '(x, w') := exec q w in
              (i, Ev q) :: schedule_calls sched' (<[i := k x]> pool) w'
          end
      end
  end.

Definition is_task_create (e : Event) : bool :=
  match e with
  | Ev q => match q with
            | TaskCreate _ => true
            | _ => false
            end
  end.

Definition is_task_aggregate (e : Event) : bool :=
  match e with
  | Ev q => match q with
            | TaskAggregateMaxOrder _ _ => true
            | _ => false
            end
  end.

(** Request [i] makes its task.create before request [j] makes its
    task.aggregate. *)
Definition create_before_aggregate (i j : nat) (trace : list (nat * Event)) : Prop :=
  ∃ a b e1 e2,
    (a < b)%nat
    ∧ trace !! a = Some (i, e1) ∧ is_task_create e1 = true
    ∧ trace !! b = Some (j, e2) ∧ is_task_aggregate e2 = true.

(** The order an append into the partition would compute now. *)
Definition next_order (s : Store) (projectId : string) (status : TaskStatus) : Z :=
  default (-1) (max_of ((λ kr, row_order kr.2) <$> partition_rows s projectId status))
  + 1.

(** A request that has read the maximum and is about to insert with order [o]. *)
Definition holding (projectId : string) (status : TaskStatus) (o : Z)
    (p : Prog (Response Task)) : Prop :=
  match p with
  | Ret _ => False
  | Call q k =>
      match q in Query X return (X → Prog (Response Task)) → Prop with
      | TaskCreate data => λ k,
          c_projectId data = projectId ∧ c_status data = status ∧ c_order data = o
          ∧ ∀ x, k x = match x with
                       | None => Ret Uncaught
                       | Some task => Ret (Json task)
                       end
      | _ => λ _, False
      end k
  end.

(** A request that has not read the maximum yet: it has only looked up
    memberships so far, and answers an error or goes on to read the maximum
    of the partition and to insert with the order after it. *)
Fixpoint waiting (projectId : string) (status : TaskStatus)
    (p : Prog (Response Task)) : Prop :=
  match p with
  | Ret r => ∀ task, r ≠ Json task
  | Call q k =>
      match q in Query X return (X → Prog (Response Task)) → Prop with
      | ProjectMemberFindUnique _ _ => λ k, ∀ x, waiting projectId status (k x)
      | TaskAggregateMaxOrder projectId' status' => λ k,
          projectId' = projectId ∧ status' = status
          ∧ ∀ m, holding projectId status (default (-1) m + 1) (k m)
      | _ => λ _, False
      end k
  end.

(** The status a POST body asks for. *)
Definition requested_status (json : option CreateTaskBody) : TaskStatus :=
  match CreateTaskSchema json with
  | Some data => default TODO (ct_status data)
  | None => TODO
  end.

(** The orders [oi] and [oj] two appends of one partition get, by what the
    trace shows: the one that reads the maximum after the other's insert gets
    the order after the other's; two that both read before either insert get
    the same order. *)
Definition orders_by_overlap (i j : nat) (trace : list (nat * Event)) (oi oj : Z)
    : Prop :=
  (create_before_aggregate i j trace → oj = oi + 1)
  ∧ (create_before_aggregate j i trace → oi = oj + 1)
  ∧ (¬ create_before_aggregate i j trace → ¬ create_before_aggregate j i trace →
     oi = oj).

(** ** Sample worlds *)

Module Sample.

Definition env0 : Env :=
  {| gen_id := λ n, String (ascii_of_nat (97 + n)) "";
     clock := λ n, 1000 + Z.of_nat n;
     entropy := λ n, 37 * Z.of_nat n |}.

Definition task (projectId title : string) (status : TaskStatus) (order at_ : Z)
    : TaskRow :=
  {| row_projectId := projectId; row_title := title; row_description := None;
     row_status := status; row_order := order; row_dueDate := None;
     row_assigneeId := None; row_creatorId := "alice";
     row_createdAt := at_; row_updatedAt := at_ |}.

Definition project (name inviteCode : string) : ProjectRow :=
  {| project_name := name; project_inviteCode := inviteCode;
     project_createdAt := 0; project_updatedAt := 0 |}.

Definition person (displayName : string) : MemberRow :=
  {| member_displayName := displayName; member_createdAt := 0;
     member_updatedAt := 0 |}.

Definition world_of (s : Store) : World :=
  {| store := s; env := env0; ids_drawn := 0; ticks := 0; bytes_drawn := 0 |}.

(** Projects P (alice, bob) and Q (carol), no task yet. *)
Definition empty_board : Store :=
  {| tasks := ∅;
     projectMembers :=
       {[ ("P", "alice") := {| pm_role := OWNER; pm_joinedAt := 1 |};
          ("P", "bob") := {| pm_role := MEMBER; pm_joinedAt := 2 |};
          ("Q", "carol") := {| pm_role := OWNER; pm_joinedAt := 3 |} ]};
     projects := {[ "P" := project "Plan" "AAAAAAAA"; "Q" := project "Quest" "ABCDEFGH" ]};
     members := {[ "alice" := person "Alice"; "bob" := person "Bob";
                   "carol" := person "Carol" ]} |}.

(** P has TODO tasks A (order 0) and B (order 1); Q has task X. *)
Definition two_todo : Store :=
  set_tasks empty_board
    {[ "A" := task "P" "first" TODO 0 10; "B" := task "P" "second" TODO 1 20;
       "X" := task "Q" "other" DOING 0 30 ]}.

Definition entry (id : string) (status : TaskStatus) (order : Z) : BoardUpdate :=
  {| bu_id := id; bu_status := status; bu_order := order |}.

Definition titled (title : string) (status : option TaskStatus) : CreateTaskBody :=
  {| ct_title := title; ct_description := None; ct_status := status;
     ct_dueDate := None; ct_assigneeId := None |}.


End Sample.

(** * Properties *)

(** ** The stable sort *)

Section StableSortFacts.
Context {A : Type} (le : A → A → bool).

Lemma insert_by_Permutation x l : insert_by le x l ≡ₚ x :: l.
Proof.
  induction l as [|y l IH]; simpl; [done|].
  destruct (le x y); [done|]. rewrite IH. apply Permutation_swap.
Qed.

Lemma stable_sort_Permutation l : stable_sort le l ≡ₚ l.
Proof.
  induction l as [|x l IH]; simpl; [done|].
  rewrite insert_by_Permutation. by rewrite IH.
Qed.

Lemma elem_of_stable_sort x l : x ∈ stable_sort le l ↔ x ∈ l.
Proof. by rewrite stable_sort_Permutation. Qed.

Lemma stable_sort_NoDup l : NoDup l → NoDup (stable_sort le l).
Proof. by rewrite stable_sort_Permutation. Qed.

(** An already sorted list is left as it is. *)
Lemma insert_by_sorted x l : Sorted (le_rel le) (x :: l) → insert_by le x l = x :: l.
Proof.
  intros Hs. destruct l as [|y l]; simpl; [done|].
  apply Sorted_inv in Hs as [_ Hhd]. apply HdRel_inv in Hhd.
  unfold le_rel in Hhd. by rewrite Hhd.
Qed.

Lemma stable_sort_sorted l : Sorted (le_rel le) l → stable_sort le l = l.
Proof.
  induction l as [|x l IH]; intros Hs; simpl; [done|].
  rewrite IH by (by apply Sorted_inv in Hs as [? _]).
  by apply insert_by_sorted.
Qed.

Section Total.
Hypothesis le_total : ∀ a b, le a b = true ∨ le b a = true.
Hypothesis le_trans : ∀ a b c, le a b = true → le b c = true → le a c = true.

Lemma insert_by_StronglySorted x l :
  StronglySorted (le_rel le) l → StronglySorted (le_rel le) (insert_by le x l).
Proof.
  induction l as [|y l IH]; intros Hs; simpl.
  - repeat constructor.
  - apply StronglySorted_inv in Hs as [Hl Hy].
    destruct (le x y) eqn:Hxy.
    + constructor; [by constructor|].
      constructor; [done|].
      eapply Forall_impl; [exact Hy|]. intros z Hz. by eapply le_trans.
    + constructor; [by apply IH|].
      rewrite insert_by_Permutation. constructor; [|done].
      destruct (le_total x y) as [H|H]; [congruence|done].
Qed.

Lemma stable_sort_StronglySorted l : StronglySorted (le_rel le) (stable_sort le l).
Proof.
  induction l as [|x l IH]; simpl; [constructor|].
  by apply insert_by_StronglySorted.
Qed.
End Total.
End StableSortFacts.

Lemma StronglySorted_filter {A} (R : relation A) (P : A → Prop)
    `{∀ x, Decision (P x)} (l : list A) :
  StronglySorted R l → StronglySorted R (filter P l).
Proof.
  induction 1 as [|x l Hl IH Hx]; [constructor|].
  rewrite filter_cons. destruct (decide (P x)); [|done].
  constructor; [done|].
  rewrite Forall_forall in Hx. apply Forall_forall.
  intros y [_ Hy]%list_elem_of_filter. by apply Hx.
Qed.

Lemma StronglySorted_impl {A} (R R' : relation A) (l : list A) :
  (∀ a b, a ∈ l → b ∈ l → R a b → R' a b) →
  StronglySorted R l → StronglySorted R' l.
Proof.
  intros HR Hs. induction Hs as [|x l Hl IH Hx]; [constructor|].
  constructor.
  - apply IH. intros a b Ha Hb. apply HR; by right.
  - rewrite Forall_forall in Hx. apply Forall_forall. intros y Hy.
    apply HR; [by left|by right|by apply Hx].
Qed.

(** The last element of a sorted list without duplicates is the one
    nothing else comes after. *)
Lemma last_of_StronglySorted {A} (R : relation A) (l : list A) (t : A) :
  StronglySorted R l → NoDup l → t ∈ l →
  (∀ y, y ∈ l → y ≠ t → ¬ R t y) →
  last l = Some t.
Proof.
  intros Hs Hnd Ht Hmax.
  apply list_elem_of_split in Ht as (l1 & l2 & ->).
  destruct l2 as [|y l2].
  - apply last_snoc.
  - exfalso. apply StronglySorted_app_1_r in Hs.
    apply StronglySorted_cons in Hs as [Hall _].
    apply Forall_inv in Hall.
    apply (Hmax y); [set_solver| |done].
    intros ->. apply NoDup_app in Hnd as (_ & _ & Hnd).
    apply NoDup_cons in Hnd as [Hnd _]. set_solver.
Qed.

(** ** max_of *)

Lemma max_of_None l : max_of l = None ↔ l = [].
Proof.
  destruct l as [|x l]; simpl; [done|].
  destruct (max_of l); split; congruence.
Qed.

Lemma max_of_Some l m :
  max_of l = Some m → m ∈ l ∧ ∀ x, x ∈ l → x ≤ m.
Proof.
  revert m. induction l as [|x l IH]; intros m; simpl; [done|].
  destruct (max_of l) as [m'|] eqn:Hm.
  - intros [= <-]. destruct (IH m' eq_refl) as [Hin Hle]. split.
    + destruct (Z.max_spec x m') as [[_ ->]|[_ ->]]; [by right|by left].
    + intros y [->|Hy]%elem_of_cons; [lia|]. specialize (Hle y Hy). lia.
  - intros [= <-]. apply max_of_None in Hm as ->. split; [by left|].
    intros y [->|Hy]%elem_of_cons; [lia|]. by apply elem_of_nil in Hy.
Qed.

(** ** Reading the task table *)

Lemma elem_of_partition_rows s p st k r :
  (k, r) ∈ partition_rows s p st ↔
  tasks s !! k = Some r ∧ row_projectId r = p ∧ row_status r = st.
Proof.
  unfold partition_rows, in_partition.
  rewrite list_elem_of_filter, elem_of_map_to_list. simpl. tauto.
Qed.

Lemma elem_of_project_tasks s p t :
  t ∈ project_tasks s p ↔
  ∃ k r, tasks s !! k = Some r ∧ row_projectId r = p ∧ t = select_task k r.
Proof.
  unfold project_tasks, in_project. rewrite list_elem_of_fmap. split.
  - intros ([k r] & -> & [Hp Hin%elem_of_map_to_list]%list_elem_of_filter).
    by exists k, r.
  - intros (k & r & Hkr & Hp & ->). exists (k, r). split; [done|].
    apply list_elem_of_filter. split; [done|]. by apply elem_of_map_to_list.
Qed.

Lemma NoDup_project_tasks s p : NoDup (project_tasks s p).
Proof.
  unfold project_tasks. apply NoDup_fmap_2_strong.
  - intros [k1 r1] [k2 r2] [_ H1%elem_of_map_to_list]%list_elem_of_filter
      [_ H2%elem_of_map_to_list]%list_elem_of_filter Heq.
    assert (k1 = k2) as <- by (by injection Heq). simpl in *. congruence.
  - apply NoDup_filter, NoDup_map_to_list.
Qed.

(** ** The board order *)

Ltac z_cases :=
  repeat match goal with
    | |- context [?a <? ?b] => destruct (Z.ltb_spec a b)
    | H : context [?a <? ?b] |- _ => destruct (Z.ltb_spec a b)
    | |- context [?a <=? ?b] => destruct (Z.leb_spec a b)
    | H : context [?a <=? ?b] |- _ => destruct (Z.leb_spec a b)
    end.

Lemma board_le_total a b : board_le a b = true ∨ board_le b a = true.
Proof. unfold board_le. z_cases; auto; lia. Qed.

Lemma board_le_trans a b c :
  board_le a b = true → board_le b c = true → board_le a c = true.
Proof. unfold board_le. z_cases; auto; try discriminate; lia. Qed.

Lemma board_le_column a b :
  t_status a = t_status b → board_le a b = true → column_le a b.
Proof.
  unfold board_le, column_le. intros ->. z_cases; try discriminate; lia.
Qed.

Lemma column_le_by_order a b : column_le a b → by_order a b = true.
Proof. unfold column_le, by_order. intros H. z_cases; [done|lia]. Qed.

(** ** groupByStatus *)

Lemma push_all_spec (l : list Task) (out : Columns) (s : TaskStatus) :
  fold_left (λ out t, set_column out (t_status t) (out (t_status t) ++ [t])) l out s
  = out s ++ filter (λ t, t_status t = s) l.
Proof.
  revert out. induction l as [|t l IH]; intros out; simpl.
  - by rewrite app_nil_r.
  - rewrite IH, filter_cons. unfold set_column.
    destruct (decide (s = t_status t)) as [->|Hne].
    + rewrite decide_True by done. by rewrite <- app_assoc.
    + by rewrite decide_False by done.
Qed.

Lemma groupByStatus_spec (l : list Task) (s : TaskStatus) :
  groupByStatus l s = stable_sort by_order (filter (λ t, t_status t = s) l).
Proof.
  unfold groupByStatus, STATUSES. simpl. unfold set_column.
  rewrite !push_all_spec. simpl.
  destruct s; repeat case_decide; try done.
Qed.

Lemma group_and_sort_spec w p s :
  group_and_sort w p s
  = filter (λ t, t_status t = s) (stable_sort board_le (project_tasks (store w) p)).
Proof.
  unfold group_and_sort. simpl. rewrite groupByStatus_spec.
  apply stable_sort_sorted, StronglySorted_Sorted.
  eapply StronglySorted_impl;
    [|apply StronglySorted_filter, stable_sort_StronglySorted;
      [apply board_le_total|apply board_le_trans]].
  intros a b [Ha _]%list_elem_of_filter [Hb _]%list_elem_of_filter Hab.
  apply column_le_by_order, board_le_column; congruence.
Qed.

Lemma elem_of_group_and_sort w p s t :
  t ∈ group_and_sort w p s ↔
  ∃ k r, tasks (store w) !! k = Some r ∧ row_projectId r = p
         ∧ row_status r = s ∧ t = select_task k r.
Proof.
  rewrite group_and_sort_spec, list_elem_of_filter, elem_of_stable_sort,
    elem_of_project_tasks.
  split.
  - intros (Hs & k & r & Hkr & Hp & ->). by exists k, r.
  - intros (k & r & Hkr & Hp & Hs & ->). split; [done|]. by exists k, r.
Qed.

Lemma NoDup_group_and_sort w p s : NoDup (group_and_sort w p s).
Proof.
  rewrite group_and_sort_spec.
  apply NoDup_filter, stable_sort_NoDup, NoDup_project_tasks.
Qed.

Lemma group_and_sort_sorted w p s :
  StronglySorted column_le (group_and_sort w p s).
Proof.
  rewrite group_and_sort_spec.
  eapply StronglySorted_impl;
    [|apply StronglySorted_filter, stable_sort_StronglySorted;
      [apply board_le_total|apply board_le_trans]].
  intros a b [Ha _]%list_elem_of_filter [Hb _]%list_elem_of_filter Hab.
  apply board_le_column; congruence.
Qed.

(** ** Running a handler *)

Lemma run_assertMemberInProject {A} w p m (k : Outcome () → Prog A) :
  run (bind (assertMemberInProject p m) k) w
  = run (k (match projectMembers (store w) !! (p, m) with
            | None => Thrown FORBIDDEN
            | Some _ => Returned ()
            end)) w.
Proof. reflexivity. Qed.

(** ** Group-and-sort *)

(** C4: the board fetch of a member answers without changing the world, and
    grouping its tasks gives, for every status, exactly the tasks of the
    project with that status, each once, sorted by order ascending with ties
    by creation time ascending. *)
Theorem group_and_sort_partitions_sorted w projectId header memberId :
  member_of w projectId header memberId →
  is_Some (projects (store w) !! projectId) →
  ∃ board,
    run (BoardRoute.GET projectId header) w = (Json board, w)
    ∧ ∀ s,
        (∀ t, t ∈ groupByStatus (board_tasks board) s ↔
              ∃ id r, tasks (store w) !! id = Some r ∧ row_projectId r = projectId
                      ∧ row_status r = s ∧ t = select_task id r)
        ∧ NoDup (groupByStatus (board_tasks board) s)
        ∧ StronglySorted column_le (groupByStatus (board_tasks board) s).
Proof.
  intros [Hid [pm Hpm]] [pr Hpr].
  unfold BoardRoute.GET. rewrite Hid, run_assertMemberInProject, Hpm.
  simpl. rewrite Hpr. simpl.
  eexists. split; [reflexivity|]. intros s. simpl.
  change (groupByStatus (stable_sort board_le (project_tasks (store w) projectId)) s)
    with (group_and_sort w projectId s).
  split; [|split].
  - intros t. apply elem_of_group_and_sort.
  - apply NoDup_group_and_sort.
  - apply group_and_sort_sorted.
Qed.

Lemma group_and_sort_partitions_sorted_witness :
  ∃ board,
    run (BoardRoute.GET "P" (Some "alice")) (Sample.world_of Sample.two_todo)
    = (Json board, Sample.world_of Sample.two_todo)
    ∧ t_id <$> groupByStatus (board_tasks board) TODO = ["A"; "B"]
    ∧ StronglySorted column_le (groupByStatus (board_tasks board) TODO).
Proof.
  destruct (group_and_sort_partitions_sorted (Sample.world_of Sample.two_todo)
              "P" (Some "alice") "alice") as (board & Hrun & Hcols).
  - split; [reflexivity|]. vm_compute. eauto.
  - vm_compute. eauto.
  - exists board. split; [exact Hrun|].
    split; [|apply (Hcols TODO)].
    vm_compute in Hrun. injection Hrun as <-. reflexivity.
Defined.

(** ** Append *)

Lemma aggregate_max_spec s p st :
  match max_of ((λ kr, row_order kr.2) <$> partition_rows s p st) with
  | None => partition_empty s p st
  | Some m => partition_max s p st m
  end.
Proof.
  destruct (max_of _) as [m|] eqn:Hm.
  - apply max_of_Some in Hm as [Hin Hle]. split.
    + apply list_elem_of_fmap in Hin as ([k r] & -> & Hkr).
      apply elem_of_partition_rows in Hkr as (? & ? & ?). by exists k, r.
    + intros k r Hkr Hp Hs. apply Hle, list_elem_of_fmap. exists (k, r).
      split; [done|]. by apply elem_of_partition_rows.
  - apply max_of_None, fmap_nil_inv in Hm. intros k r Hkr Hp Hs.
    assert ((k, r) ∈ partition_rows s p st) as Hin
      by (by apply elem_of_partition_rows).
    rewrite Hm in Hin. by apply elem_of_nil in Hin.
Qed.

(** What a successful append did. *)
Lemma run_append_inv w p m data st resp w' :
  run (TasksRoute.append p m data st) w = (resp, w') →
  match resp with
  | Json task =>
      ∃ r, task = select_task (next_id w) r
           ∧ tasks (store w) !! next_id w = None
           ∧ tasks (store w') = <[next_id w := r]> (tasks (store w))
           ∧ row_projectId r = p ∧ row_status r = st
           ∧ row_order r
             = default (-1) (max_of ((λ kr, row_order kr.2)
                                       <$> partition_rows (store w) p st)) + 1
  | _ => store w' = store w
  end.
Proof.
  unfold TasksRoute.append. simpl.
  destruct (tasks (store w) !! next_id w) eqn:Hfresh; simpl.
  - by intros [= <- <-].
  - intros [= <- <-]. eexists. repeat split; done.
Qed.

Lemma run_POST_inv w p header json resp w' :
  run (TasksRoute.POST p header json) w = (resp, w') →
  match resp with
  | Json task =>
      ∃ memberId data,
        member_of w p header memberId
        ∧ CreateTaskSchema json = Some data
        ∧ assignee_ok w p (ct_assigneeId data)
        ∧ run (TasksRoute.append p memberId data (default TODO (ct_status data))) w
          = (Json task, w')
  | _ => store w' = store w
  end.
Proof.
  unfold TasksRoute.POST.
  destruct (getMemberIdOrThrow header) as [memberId|code] eqn:Hid;
    [|by intros [= <- <-]].
  rewrite run_assertMemberInProject.
  destruct (projectMembers (store w) !! (p, memberId)) as [pm|] eqn:Hpm;
    [|by intros [= <- <-]].
  destruct (CreateTaskSchema json) as [data|] eqn:Hdata; [|by intros [= <- <-]].
  assert (∀ (Hok : assignee_ok w p (ct_assigneeId data)),
    run (TasksRoute.append p memberId data (default TODO (ct_status data))) w
      = (resp, w') →
    match resp with
    | Json task =>
        ∃ memberId0 data0,
          member_of w p header memberId0
          ∧ Some data = Some data0
          ∧ assignee_ok w p (ct_assigneeId data0)
          ∧ run (TasksRoute.append p memberId0 data0
                   (default TODO (ct_status data0))) w = (Json task, w')
    | _ => store w' = store w
    end) as Happend.
  { intros Hok Hrun. pose proof (run_append_inv _ _ _ _ _ _ _ Hrun) as Hinv.
    destruct resp as [task| |]; [|done..].
    exists memberId, data. unfold member_of. eauto 10. }
  destruct (ct_assigneeId data) as [a|] eqn:Ha; [|by apply Happend].
  destruct (decide (a = "")) as [->|Hne].
  { apply Happend. by intros []. }
  simpl.
  destruct (projectMembers (store w) !! (p, a)) as [pma|] eqn:Hpma.
  - apply Happend. simpl. eauto.
  - by intros [= <- <-].
Qed.

Lemma run_POST_append w p header json memberId data :
  member_of w p header memberId →
  CreateTaskSchema json = Some data →
  assignee_ok w p (ct_assigneeId data) →
  run (TasksRoute.POST p header json) w
  = run (TasksRoute.append p memberId data (default TODO (ct_status data))) w.
Proof.
  intros [Hid [pm Hpm]] Hdata Hok. unfold TasksRoute.POST.
  rewrite Hid, run_assertMemberInProject, Hpm, Hdata.
  destruct (ct_assigneeId data) as [a|]; [|done].
  destruct (decide (a = "")) as [->|Hne]; [done|].
  simpl. destruct (Hok Hne) as [pma ->]. done.
Qed.

(** C2: an append of a member, with a valid body and a fresh id, creates the
    task; its order is 0 when its (project, status) partition is empty and
    1 + the greatest order of the partition otherwise. *)
Theorem append_order_is_max_plus_one w projectId header json memberId data :
  member_of w projectId header memberId →
  CreateTaskSchema json = Some data →
  assignee_ok w projectId (ct_assigneeId data) →
  tasks (store w) !! next_id w = None →
  ∃ task w',
    run (TasksRoute.POST projectId header json) w = (Json task, w')
    ∧ t_status task = default TODO (ct_status data)
    ∧ (∃ r, tasks (store w') = <[t_id task := r]> (tasks (store w))
            ∧ row_projectId r = projectId ∧ task = select_task (t_id task) r)
    ∧ ((partition_empty (store w) projectId (t_status task) ∧ t_order task = 0)
       ∨ (∃ m, partition_max (store w) projectId (t_status task) m
               ∧ t_order task = 1 + m)).
Proof.
  intros Hmem Hdata Hok Hfresh.
  rewrite (run_POST_append _ _ _ _ _ _ Hmem Hdata Hok).
  unfold TasksRoute.append. simpl. rewrite Hfresh. simpl.
  eexists _, _. split; [reflexivity|]. simpl. split; [done|]. split.
  - eexists. repeat split; reflexivity.
  - pose proof (aggregate_max_spec (store w) projectId
                  (default TODO (ct_status data))) as Hmax.
    destruct (max_of _) as [m|]; simpl.
    + right. exists m. split; [done|lia].
    + left. by split.
Qed.

Lemma append_order_is_max_plus_one_witness :
  ∃ task w',
    run (TasksRoute.POST "P" (Some "alice") (Some (Sample.titled "third" None)))
      (Sample.world_of Sample.two_todo) = (Json task, w')
    ∧ t_order task = 2.
Proof.
  destruct (append_order_is_max_plus_one (Sample.world_of Sample.two_todo)
              "P" (Some "alice") (Some (Sample.titled "third" None)) "alice"
              (Sample.titled "third" None))
    as (task & w' & Hrun & _ & _ & _).
  - split; [reflexivity|]. vm_compute. eauto.
  - reflexivity.
  - exact I.
  - reflexivity.
  - exists task, w'. split; [exact Hrun|].
    vm_compute in Hrun. injection Hrun as <- _. reflexivity.
Defined.

(** The order given by an append is above every order of its partition. *)
Lemma append_order_above s p st k r :
  tasks s !! k = Some r → row_projectId r = p → row_status r = st →
  row_order r
  < default (-1) (max_of ((λ kr, row_order kr.2) <$> partition_rows s p st)) + 1.
Proof.
  intros Hkr Hp Hs. pose proof (aggregate_max_spec s p st) as Hmax.
  destruct (max_of _) as [m|]; simpl.
  - destruct Hmax as [_ Hle]. specialize (Hle k r Hkr Hp Hs). lia.
  - by destruct (Hmax k r Hkr Hp).
Qed.

(** C8: when an append has created a task and nothing else has written since,
    Group-and-sort shows the new task last in the column of its status. *)
Theorem append_then_group_and_sort_last w projectId header json task w' :
  run (TasksRoute.POST projectId header json) w = (Json task, w') →
  last (group_and_sort w' projectId (t_status task)) = Some task.
Proof.
  intros Hrun. apply run_POST_inv in Hrun as (memberId & data & _ & _ & _ & Hrun).
  apply run_append_inv in Hrun as (r & -> & Hfresh & Htasks & Hp & Hs & Hord).
  simpl. rewrite Hs.
  apply (last_of_StronglySorted column_le).
  - apply group_and_sort_sorted.
  - apply NoDup_group_and_sort.
  - apply elem_of_group_and_sort. exists (next_id w), r.
    rewrite Htasks, lookup_insert_eq. done.
  - intros y (k & r' & Hkr' & Hp' & Hs' & ->)%elem_of_group_and_sort Hne.
    rewrite Htasks in Hkr'.
    destruct (decide (next_id w = k)) as [<-|Hk].
    { rewrite lookup_insert_eq in Hkr'. congruence. }
    rewrite lookup_insert_ne in Hkr' by done.
    pose proof (append_order_above _ _ _ _ _ Hkr' Hp' Hs') as Hlt.
    unfold column_le. simpl. lia.
Qed.

Lemma append_then_group_and_sort_last_witness :
  ∃ task w',
    run (TasksRoute.POST "P" (Some "alice") (Some (Sample.titled "third" None)))
      (Sample.world_of Sample.two_todo) = (Json task, w')
    ∧ last (group_and_sort w' "P" (t_status task)) = Some task.
Proof.
  eexists _, _. split; [vm_compute; reflexivity|].
  apply (append_then_group_and_sort_last (Sample.world_of Sample.two_todo)
           "P" (Some "alice") (Some (Sample.titled "third" None))).
  vm_compute. reflexivity.
Defined.

(** ** Apply-layout *)

Lemma elem_of_tasks_with_id_in s ids k pid :
  (k, pid) ∈ tasks_with_id_in s ids ↔
  k ∈ ids ∧ ∃ r, tasks s !! k = Some r ∧ row_projectId r = pid.
Proof.
  unfold tasks_with_id_in. rewrite list_elem_of_fmap. split.
  - intros ([k' r] & [= -> ->] & [Hin Hkr%elem_of_map_to_list]%list_elem_of_filter).
    simpl in *. eauto.
  - intros (Hin & r & Hkr & <-). exists (k, r). split; [done|].
    apply list_elem_of_filter. split; [done|]. by apply elem_of_map_to_list.
Qed.

Lemma tasks_with_id_in_keys s ids :
  (tasks_with_id_in s ids).*1 = (filter (λ kr, kr.1 ∈ ids) (map_to_list (tasks s))).*1.
Proof.
  unfold tasks_with_id_in. rewrite <- list_fmap_compose. done.
Qed.

Lemma NoDup_tasks_with_id_in_keys s ids : NoDup (tasks_with_id_in s ids).*1.
Proof.
  rewrite tasks_with_id_in_keys.
  pose proof (NoDup_fst_map_to_list (tasks s)) as Hnd.
  induction (map_to_list (tasks s)) as [|kr l IH]; [constructor|].
  rewrite fmap_cons in Hnd. apply NoDup_cons in Hnd as [Hnotin Hnd].
  rewrite filter_cons. destruct (decide (kr.1 ∈ ids)); [|by apply IH].
  rewrite fmap_cons. apply NoDup_cons. split; [|by apply IH].
  intros (kr' & Heq & [_ Hin]%list_elem_of_filter)%list_elem_of_fmap.
  apply Hnotin, list_elem_of_fmap. by exists kr'.
Qed.

Lemma elem_of_tasks_with_id_in_keys s ids k :
  k ∈ (tasks_with_id_in s ids).*1 ↔ k ∈ ids ∧ is_Some (tasks s !! k).
Proof.
  rewrite list_elem_of_fmap. split.
  - intros ([k' pid] & -> & (Hin & r & Hkr & _)%elem_of_tasks_with_id_in). eauto.
  - intros (Hin & r & Hkr). exists (k, row_projectId r). split; [done|].
    apply elem_of_tasks_with_id_in. eauto.
Qed.

(** findMany returns as many rows as ids were asked for exactly when the
    ids are pairwise distinct and all exist. *)
Lemma tasks_with_id_in_length s ids :
  length (tasks_with_id_in s ids) = length ids ↔
  NoDup ids ∧ ∀ k, k ∈ ids → is_Some (tasks s !! k).
Proof.
  rewrite <- (length_fmap fst (tasks_with_id_in s ids)).
  assert ((tasks_with_id_in s ids).*1 ⊆+ ids) as Hsub.
  { apply NoDup_submseteq; [apply NoDup_tasks_with_id_in_keys|].
    by intros k [? _]%elem_of_tasks_with_id_in_keys. }
  split.
  - intros Hlen.
    assert ((tasks_with_id_in s ids).*1 ≡ₚ ids) as Hperm
      by (apply submseteq_length_Permutation; [done|lia]).
    split.
    + rewrite <- Hperm. apply NoDup_tasks_with_id_in_keys.
    + intros k Hk. rewrite <- Hperm in Hk.
      by apply elem_of_tasks_with_id_in_keys in Hk as [_ ?].
  - intros [Hnd Hall].
    assert (ids ⊆+ (tasks_with_id_in s ids).*1) as Hsup.
    { apply NoDup_submseteq; [done|]. intros k Hk.
      apply elem_of_tasks_with_id_in_keys. auto. }
    apply submseteq_length in Hsub, Hsup. lia.
Qed.

(** The guard of the board update is passed exactly by the valid batches. *)
Lemma layout_guard s p batch :
  bool_decide (length (tasks_with_id_in s (bu_id <$> batch)) ≠ length (bu_id <$> batch))
  || existsb (λ t, bool_decide (t.2 ≠ p)) (tasks_with_id_in s (bu_id <$> batch))
  = false
  ↔ layout_valid s p batch.
Proof.
  rewrite orb_false_iff, bool_decide_eq_false. unfold layout_valid. split.
  - intros [Hlen Hsome].
    assert (length (tasks_with_id_in s (bu_id <$> batch)) = length (bu_id <$> batch))
      as Hlen2 by (destruct (decide (length (tasks_with_id_in s (bu_id <$> batch))
                                     = length (bu_id <$> batch))); tauto).
    apply tasks_with_id_in_length in Hlen2 as [Hnd Hall]. split; [done|].
    intros u Hu.
    destruct (Hall (bu_id u)) as [r Hr]; [by apply list_elem_of_fmap_2|].
    exists r. split; [done|].
    destruct (decide (row_projectId r = p)) as [|Hne]; [done|]. exfalso.
    apply not_true_iff_false in Hsome. apply Hsome, existsb_exists.
    exists (bu_id u, row_projectId r). split.
    + apply list_elem_of_In, elem_of_tasks_with_id_in.
      split; [by apply list_elem_of_fmap_2|eauto].
    + by apply bool_decide_eq_true.
  - intros [Hnd Hall]. split.
    + intros Hne. apply Hne, tasks_with_id_in_length. split; [done|].
      intros k (u & -> & Hu)%list_elem_of_fmap.
      destruct (Hall u Hu) as (r & Hr & _). eauto.
    + apply not_true_iff_false. intros ([k pid] & Hin & Hne)%existsb_exists.
      apply bool_decide_eq_true in Hne. simpl in Hne.
      apply list_elem_of_In, elem_of_tasks_with_id_in in Hin
        as ((u & -> & Hu)%list_elem_of_fmap & r & Hr & <-).
      destruct (Hall u Hu) as (r2 & Hr2 & Hp). congruence.
Qed.

(** The transaction over rows that all exist: every listed row takes its
    status and order, every other row is left alone. *)
Lemma update_all_spec updates t ts :
  (∀ u, u ∈ updates → is_Some (ts !! bu_id u)) →
  ∃ ts2,
    update_all updates t ts = Some ts2
    ∧ (∀ k, k ∉ bu_id <$> updates → ts2 !! k = ts !! k)
    ∧ (NoDup (bu_id <$> updates) →
       ∀ u, u ∈ updates →
         ∃ r, ts !! bu_id u = Some r
              ∧ ts2 !! bu_id u
                = Some (apply_patch (layout_patch (bu_status u) (bu_order u)) t r)).
Proof.
  revert ts. induction updates as [|u rest IH]; intros ts Hall; simpl.
  - exists ts. split; [done|]. split; [done|]. intros _ v Hv. by apply elem_of_nil in Hv.
  - destruct (Hall u) as [r Hr]; [by left|]. rewrite Hr.
    destruct (IH (<[bu_id u := apply_patch (layout_patch (bu_status u) (bu_order u)) t r]> ts))
      as (ts2 & Hrun & Hother & Hlisted).
    { intros v Hv. destruct (decide (bu_id u = bu_id v)) as [<-|Hne].
      - rewrite lookup_insert_eq. eauto.
      - rewrite lookup_insert_ne by done. apply Hall. by right. }
    exists ts2. split; [done|]. split.
    + intros k Hk. apply not_elem_of_cons in Hk as [Hku Hk].
      rewrite Hother by done. by rewrite lookup_insert_ne.
    + intros [Hu Hnd]%NoDup_cons v [->|Hv]%elem_of_cons.
      * exists r. split; [done|]. rewrite Hother by done. apply lookup_insert_eq.
      * destruct (Hlisted Hnd v Hv) as (r2 & Hr2 & Hv2).
        assert (bu_id u ≠ bu_id v) as Hne
          by (intros Heq; apply Hu; rewrite Heq; by apply list_elem_of_fmap_2).
        rewrite lookup_insert_ne in Hr2 by done. eauto.
Qed.

Lemma run_PUT w p header memberId json batch :
  member_of w p header memberId →
  BoardUpdateSchema json = Some batch →
  run (BoardRoute.PUT p header json) w
  = if bool_decide (length (tasks_with_id_in (store w) (bu_id <$> batch))
                    ≠ length (bu_id <$> batch))
       || existsb (λ t, bool_decide (t.2 ≠ p))
            (tasks_with_id_in (store w) (bu_id <$> batch))
    then (JsonError TASKS_NOT_IN_PROJECT 400, w)
    else match update_all batch (now w) (tasks (store w)) with
         | None => (Uncaught, tick w)
         | Some ts => (Json (), set_store (tick w) (set_tasks (store w) ts))
         end.
Proof.
  intros [Hid [pm Hpm]] Hbody. unfold BoardRoute.PUT.
  rewrite Hid, run_assertMemberInProject, Hpm, Hbody. simpl.
  destruct (_ || _); [done|]. simpl.
  by destruct (update_all batch (now w) (tasks (store w))).
Qed.

(** C1, as amended: for a member's well-formed batch, a batch that is not
    valid (an id missing, of another project, or listed twice) is answered
    TASKS_NOT_IN_PROJECT and nothing changes; a valid batch is committed
    whole: every listed task takes its status and order (and the write
    time), every other task keeps its row. *)
Theorem apply_layout_all_or_nothing w projectId header memberId json batch :
  member_of w projectId header memberId →
  BoardUpdateSchema json = Some batch →
  (¬ layout_valid (store w) projectId batch →
   run (BoardRoute.PUT projectId header json) w
   = (JsonError TASKS_NOT_IN_PROJECT 400, w))
  ∧ (layout_valid (store w) projectId batch →
     ∃ w2,
       run (BoardRoute.PUT projectId header json) w = (Json (), w2)
       ∧ (∀ u, u ∈ batch →
            ∃ r, tasks (store w) !! bu_id u = Some r
                 ∧ tasks (store w2) !! bu_id u
                   = Some (apply_patch (layout_patch (bu_status u) (bu_order u))
                             (now w) r))
       ∧ (∀ k, k ∉ bu_id <$> batch →
            tasks (store w2) !! k = tasks (store w) !! k)).
Proof.
  intros Hmem Hbody. rewrite (run_PUT _ _ _ _ _ _ Hmem Hbody).
  pose proof (layout_guard (store w) projectId batch) as Hguard.
  destruct (_ || _).
  - split; [done|]. intros Hvalid. apply Hguard in Hvalid. done.
  - split; [intros Hnot; destruct Hnot; by apply Hguard|].
    intros [Hnd Hall].
    destruct (update_all_spec batch (now w) (tasks (store w)))
      as (ts & -> & Hother & Hlisted).
    { intros u Hu. destruct (Hall u Hu) as (r & Hr & _). eauto. }
    eexists. split; [reflexivity|]. simpl. split; [|done].
    by apply Hlisted.
Qed.

Lemma apply_layout_all_or_nothing_witness :
  ∃ w2,
    run (BoardRoute.PUT "P" (Some "alice")
           (Some [Sample.entry "B" TODO 0; Sample.entry "A" TODO 1]))
      (Sample.world_of Sample.two_todo) = (Json (), w2)
    ∧ t_id <$> group_and_sort w2 "P" TODO = ["B"; "A"].
Proof.
  destruct (apply_layout_all_or_nothing (Sample.world_of Sample.two_todo)
              "P" (Some "alice") "alice"
              (Some [Sample.entry "B" TODO 0; Sample.entry "A" TODO 1])
              [Sample.entry "B" TODO 0; Sample.entry "A" TODO 1])
    as [_ Hvalid].
  - split; [reflexivity|]. vm_compute. eauto.
  - reflexivity.
  - destruct Hvalid as (w2 & Hrun & _).
    + split.
      * apply (bool_decide_unpack _). vm_compute. exact I.
      * intros u Hu. apply elem_of_cons in Hu as [->|Hu];
          [|apply list_elem_of_singleton in Hu as ->];
          eexists; split; vm_compute; reflexivity.
    + exists w2. split; [exact Hrun|].
      vm_compute in Hrun. injection Hrun as <-. reflexivity.
Defined.

(** C1, as stated, fails on a batch that lists an existing task of the
    project twice: it is rejected, and the listed pair is not persisted. *)
Lemma apply_layout_duplicate_id_rejected :
  let w := Sample.world_of Sample.two_todo in
  let batch := [Sample.entry "A" DOING 5; Sample.entry "A" DOING 5] in
  member_of w "P" (Some "alice") "alice"
  ∧ BoardUpdateSchema (Some batch) = Some batch
  ∧ (∀ u, u ∈ batch →
       ∃ r, tasks (store w) !! bu_id u = Some r ∧ row_projectId r = "P")
  ∧ run (BoardRoute.PUT "P" (Some "alice") (Some batch)) w
    = (JsonError TASKS_NOT_IN_PROJECT 400, w)
  ∧ row_status <$> tasks (store w) !! "A" = Some TODO.
Proof.
  simpl. split; [split; [reflexivity|vm_compute; eauto]|].
  split; [reflexivity|]. split.
  - intros u Hu. apply elem_of_cons in Hu as [->|Hu];
      [|apply list_elem_of_singleton in Hu as ->];
      eexists; split; vm_compute; reflexivity.
  - split; vm_compute; reflexivity.
Qed.

(** C1, as stated, fails: a batch whose ids all exist in the project is
    still rejected when it lists one of them twice. *)
Lemma apply_layout_claim_fails_on_duplicates :
  ¬ (∀ w projectId header memberId json batch,
       member_of w projectId header memberId →
       BoardUpdateSchema json = Some batch →
       (∀ u, u ∈ batch →
          ∃ r, tasks (store w) !! bu_id u = Some r ∧ row_projectId r = projectId) →
       ∃ w2,
         run (BoardRoute.PUT projectId header json) w = (Json (), w2)
         ∧ ∀ u, u ∈ batch →
             ∃ r, tasks (store w2) !! bu_id u = Some r
                  ∧ row_status r = bu_status u ∧ row_order r = bu_order u).
Proof.
  intros Hclaim.
  destruct apply_layout_duplicate_id_rejected as (Hmem & Hbody & Hall & Hrun & _).
  destruct (Hclaim _ _ _ _ _ _ Hmem Hbody Hall) as (w2 & Hrun2 & _).
  rewrite Hrun in Hrun2. discriminate.
Qed.

(** What a committed board update did. *)
Lemma run_PUT_inv w p header json resp w2 :
  run (BoardRoute.PUT p header json) w = (resp, w2) →
  match resp with
  | Json _ =>
      ∃ batch, json = Some batch
        ∧ layout_valid (store w) p batch
        ∧ (∀ u, u ∈ batch →
             ∃ r, tasks (store w) !! bu_id u = Some r
                  ∧ tasks (store w2) !! bu_id u
                    = Some (apply_patch (layout_patch (bu_status u) (bu_order u))
                              (now w) r))
        ∧ (∀ k, k ∉ bu_id <$> batch →
             tasks (store w2) !! k = tasks (store w) !! k)
  | _ => store w2 = store w
  end.
Proof.
  unfold BoardRoute.PUT.
  destruct (getMemberIdOrThrow header) as [memberId|code] eqn:Hid;
    [|by intros [= <- <-]].
  rewrite run_assertMemberInProject.
  destruct (projectMembers (store w) !! (p, memberId)) as [pm|] eqn:Hpm;
    [|by intros [= <- <-]].
  destruct (BoardUpdateSchema json) as [batch|] eqn:Hbody; [|by intros [= <- <-]].
  assert (json = Some batch) as ->.
  { unfold BoardUpdateSchema in Hbody. destruct json as [tasks|]; [|done].
    destruct (_ && _); congruence. }
  simpl. pose proof (layout_guard (store w) p batch) as Hguard.
  destruct (_ || _); [by intros [= <- <-]|]. simpl.
  destruct (update_all batch (now w) (tasks (store w))) as [ts|] eqn:Hts;
    [|by intros [= <- <-]].
  intros [= <- <-]. exists batch. split; [done|].
  assert (layout_valid (store w) p batch) as Hvalid by (by apply Hguard).
  split; [done|]. destruct Hvalid as [Hnd Hall].
  destruct (update_all_spec batch (now w) (tasks (store w)))
    as (ts2 & Hts2 & Hother & Hlisted).
  { intros u Hu. destruct (Hall u Hu) as (r & Hr & _). eauto. }
  rewrite Hts in Hts2. injection Hts2 as <-. simpl. split; [|done].
  by apply Hlisted.
Qed.

(** The server accepts a numbering that repeats an order. *)
Lemma apply_layout_accepts_equal_orders :
  ∃ w2 rA rB,
    run (BoardRoute.PUT "P" (Some "alice")
           (Some [Sample.entry "A" TODO 0; Sample.entry "B" TODO 0]))
      (Sample.world_of Sample.two_todo) = (Json (), w2)
    ∧ covers Sample.two_todo "P" TODO
        [Sample.entry "A" TODO 0; Sample.entry "B" TODO 0]
    ∧ covers (store w2) "P" TODO [Sample.entry "A" TODO 0; Sample.entry "B" TODO 0]
    ∧ tasks (store w2) !! "A" = Some rA ∧ tasks (store w2) !! "B" = Some rB
    ∧ row_projectId rA = "P" ∧ row_projectId rB = "P"
    ∧ row_status rA = TODO ∧ row_status rB = TODO
    ∧ row_order rA = 0 ∧ row_order rB = 0.
Proof.
  eexists _, _, _. split; [vm_compute; reflexivity|].
  split; [|split; [|repeat split; vm_compute; reflexivity]].
  - refine (bool_decide_unpack
              (map_Forall (λ k r, row_projectId r = "P" → row_status r = TODO →
                                  k ∈ ["A"; "B"]) _) _).
    vm_compute. exact I.
  - refine (bool_decide_unpack
              (map_Forall (λ k r, row_projectId r = "P" → row_status r = TODO →
                                  k ∈ ["A"; "B"]) _) _).
    vm_compute. exact I.
Qed.

(** C5, as stated, fails: a committed batch that covers the partition may
    leave two of its tasks with the same order. *)
Lemma apply_layout_claim_fails_on_equal_orders :
  ¬ (∀ w projectId header batch w2 status,
       run (BoardRoute.PUT projectId header (Some batch)) w = (Json (), w2) →
       covers (store w) projectId status batch →
       covers (store w2) projectId status batch →
       orders_distinct (store w2) projectId status).
Proof.
  intros Hclaim.
  destruct apply_layout_accepts_equal_orders
    as (w2 & rA & rB & Hrun & Hpre & Hpost & HA & HB & HpA & HpB & HsA & HsB & HoA & HoB).
  specialize (Hclaim _ _ _ _ _ _ Hrun Hpre Hpost "A" rA "B" rB HA HB HpA HpB HsA HsB).
  rewrite HoA, HoB in Hclaim. specialize (Hclaim eq_refl). discriminate.
Qed.

(** C5, as amended: after a committed board update whose batch lists every
    task of the partition and gives no order twice within that column, the
    orders of the partition's tasks are pairwise distinct. *)
Theorem apply_layout_orders_distinct w projectId header batch w2 status :
  run (BoardRoute.PUT projectId header (Some batch)) w = (Json (), w2) →
  covers (store w) projectId status batch →
  numbering_distinct status batch →
  orders_distinct (store w2) projectId status.
Proof.
  intros Hrun Hcov Hnum.
  apply run_PUT_inv in Hrun as (batch2 & [= <-] & [Hnd Hall] & Hlisted & Hother).
  assert (∀ k r, tasks (store w2) !! k = Some r → row_projectId r = projectId →
                 row_status r = status →
                 ∃ u, u ∈ batch ∧ bu_id u = k ∧ bu_status u = status
                      ∧ bu_order u = row_order r) as Hfrom.
  { intros k r Hkr Hp Hs.
    destruct (decide (k ∈ bu_id <$> batch)) as [Hin|Hnotin].
    - apply list_elem_of_fmap in Hin as (u & -> & Hu).
      destruct (Hlisted u Hu) as (r0 & _ & Hr). rewrite Hkr in Hr.
      injection Hr as ->. exists u. simpl in *. auto.
    - rewrite Hother in Hkr by done. destruct Hnotin. by eapply Hcov. }
  intros k1 r1 k2 r2 H1 H2 Hp1 Hp2 Hs1 Hs2 Hord.
  destruct (Hfrom k1 r1 H1 Hp1 Hs1) as (u & Hu & <- & Hsu & Hou).
  destruct (Hfrom k2 r2 H2 Hp2 Hs2) as (v & Hv & <- & Hsv & Hov).
  apply (Hnum u v); [done..|]. congruence.
Qed.

Lemma apply_layout_orders_distinct_witness :
  ∃ w2,
    run (BoardRoute.PUT "P" (Some "alice")
           (Some [Sample.entry "B" TODO 0; Sample.entry "A" TODO 1]))
      (Sample.world_of Sample.two_todo) = (Json (), w2)
    ∧ orders_distinct (store w2) "P" TODO.
Proof.
  eexists. split; [vm_compute; reflexivity|].
  apply (apply_layout_orders_distinct (Sample.world_of Sample.two_todo)
           "P" (Some "alice") [Sample.entry "B" TODO 0; Sample.entry "A" TODO 1]).
  - vm_compute. reflexivity.
  - refine (bool_decide_unpack
              (map_Forall (λ k r, row_projectId r = "P" → row_status r = TODO →
                                  k ∈ ["B"; "A"]) _) _).
    vm_compute. exact I.
  - intros u v Hu Hv _ _.
    apply elem_of_cons in Hu as [->|Hu];
      [|apply list_elem_of_singleton in Hu as ->];
      (apply elem_of_cons in Hv as [->|Hv];
        [|apply list_elem_of_singleton in Hv as ->]);
      simpl; intros; (done || lia).
Defined.

(** The batches the board client builds number every column 0, 1, 2, ...:
    they give no order twice within a column. *)
Lemma elem_of_flattenUpdates columns u :
  u ∈ flattenUpdates columns →
  ∃ i t, columns (bu_status u) !! i = Some t
         ∧ bu_id u = t_id t ∧ bu_order u = Z.of_nat i.
Proof.
  unfold flattenUpdates, STATUSES. simpl.
  rewrite !elem_of_app.
  intros [[Hu|Hu]|Hu]; apply elem_of_lookup_imap_1 in Hu as (i & t & -> & Ht);
    by exists i, t.
Qed.

Lemma flattenUpdates_numbering_distinct columns status :
  numbering_distinct status (flattenUpdates columns).
Proof.
  intros u v (i & t & Hi & Hidu & Hou)%elem_of_flattenUpdates
    (j & t2 & Hj & Hidv & Hov)%elem_of_flattenUpdates Hsu Hsv Hord.
  assert (i = j) as <- by lia. rewrite Hsu in Hi. rewrite Hsv in Hj. congruence.
Qed.

(** ** Patch-task *)

Lemma PatchTaskSchema_assigneeId b parsed a :
  PatchTaskSchema (Some b) = Some parsed →
  patch_assigneeId b = Some (Some a) →
  patch_assigneeId parsed = Some (Some a) ∧ a ≠ "".
Proof.
  unfold PatchTaskSchema. intros Hparse Ha.
  destruct (_ && _) eqn:Hchecks; [|done]. injection Hparse as <-. simpl.
  split; [done|]. intros ->. rewrite Ha in Hchecks. simpl in Hchecks.
  rewrite !andb_true_iff in Hchecks. destruct Hchecks as [[_ Hne] _].
  done.
Qed.

(** C6: a PATCH whose body sets an assignee that is not a member of the
    task's project is rejected and leaves the world as it was; when the
    request passes the boundary (identity of a member of the project, body
    accepted by the schema) the rejection is ASSIGNEE_NOT_IN_PROJECT. *)
Theorem patch_assignee_not_in_project w taskId header b assigneeId row :
  patch_assigneeId b = Some (Some assigneeId) →
  tasks (store w) !! taskId = Some row →
  projectMembers (store w) !! (row_projectId row, assigneeId) = None →
  (∃ error status,
     run (TaskRoute.PATCH taskId header (Some b)) w = (JsonError error status, w))
  ∧ (∀ memberId,
       member_of w (row_projectId row) header memberId →
       is_Some (PatchTaskSchema (Some b)) →
       run (TaskRoute.PATCH taskId header (Some b)) w
       = (JsonError ASSIGNEE_NOT_IN_PROJECT 400, w)).
Proof.
  intros Ha Hrow Hnot.
  assert (∀ memberId parsed,
            getMemberIdOrThrow header = Returned memberId →
            PatchTaskSchema (Some b) = Some parsed →
            is_Some (projectMembers (store w) !! (row_projectId row, memberId)) →
            run (TaskRoute.PATCH taskId header (Some b)) w
            = (JsonError ASSIGNEE_NOT_IN_PROJECT 400, w)) as Hmember.
  { intros memberId parsed Hid Hparse [pm Hpm].
    destruct (PatchTaskSchema_assigneeId _ _ _ Hparse Ha) as [Hpa Hne].
    unfold TaskRoute.PATCH. rewrite Hid, Hparse. simpl. rewrite Hrow. simpl.
    rewrite Hpm, Hpa.
    destruct (decide (assigneeId = "")); [done|]. simpl. by rewrite Hnot. }
  split.
  - destruct (getMemberIdOrThrow header) as [memberId|code] eqn:Hid.
    + destruct (PatchTaskSchema (Some b)) as [parsed|] eqn:Hparse.
      * destruct (projectMembers (store w) !! (row_projectId row, memberId))
          as [pm|] eqn:Hpm.
        -- eexists _, _. eapply Hmember; eauto.
        -- exists FORBIDDEN, 403. unfold TaskRoute.PATCH.
           rewrite Hid, Hparse. simpl. rewrite Hrow. simpl.
           by rewrite Hpm.
      * exists INVALID_BODY, 400. unfold TaskRoute.PATCH. by rewrite Hid, Hparse.
    + exists code, 401. unfold TaskRoute.PATCH. by rewrite Hid.
  - intros memberId [Hid Hpm] [parsed Hparse]. by eapply Hmember.
Qed.

Lemma patch_assignee_not_in_project_witness :
  run (TaskRoute.PATCH "A" (Some "alice")
         (Some (TaskRoute.set_assigneeId
                  (layout_patch DONE 7) (Some "carol"))))
    (Sample.world_of Sample.two_todo)
  = (JsonError ASSIGNEE_NOT_IN_PROJECT 400, Sample.world_of Sample.two_todo).
Proof.
  destruct (patch_assignee_not_in_project (Sample.world_of Sample.two_todo)
              "A" (Some "alice")
              (TaskRoute.set_assigneeId (layout_patch DONE 7) (Some "carol"))
              "carol" (Sample.task "P" "first" TODO 0 10))
    as [_ Hrun].
  - reflexivity.
  - reflexivity.
  - reflexivity.
  - apply (Hrun "alice").
    + split; [reflexivity|]. vm_compute. eauto.
    + vm_compute. eauto.
Defined.

(** ** Delete-task *)

Lemma run_DELETE w taskId header memberId row :
  tasks (store w) !! taskId = Some row →
  member_of w (row_projectId row) header memberId →
  run (TaskRoute.DELETE taskId header) w
  = (Json (), set_store w (set_tasks (store w) (delete taskId (tasks (store w))))).
Proof.
  intros Hrow [Hid [pm Hpm]]. unfold TaskRoute.DELETE.
  rewrite Hid. simpl. rewrite Hrow. simpl.
  rewrite Hpm. simpl. by rewrite Hrow.
Qed.

(** C7: a member's DELETE of an existing task removes its row and leaves
    every other row as it was; the next Group-and-sort shows, in every
    column, the same tasks as before except the deleted one, still sorted. *)
Theorem delete_task_leaves_siblings w taskId header memberId row :
  tasks (store w) !! taskId = Some row →
  member_of w (row_projectId row) header memberId →
  ∃ w2,
    run (TaskRoute.DELETE taskId header) w = (Json (), w2)
    ∧ tasks (store w2) !! taskId = None
    ∧ (∀ k, k ≠ taskId → tasks (store w2) !! k = tasks (store w) !! k)
    ∧ ∀ projectId s,
        StronglySorted column_le (group_and_sort w2 projectId s)
        ∧ ∀ t, t ∈ group_and_sort w2 projectId s ↔
               t ∈ group_and_sort w projectId s ∧ t_id t ≠ taskId.
Proof.
  intros Hrow Hmem. rewrite (run_DELETE _ _ _ _ _ Hrow Hmem).
  eexists. split; [reflexivity|]. simpl.
  split; [apply lookup_delete_eq|].
  split; [intros k Hk; by apply lookup_delete_ne|].
  intros projectId s. split; [apply group_and_sort_sorted|].
  intros t. rewrite !elem_of_group_and_sort. simpl. split.
  - intros (k & r & Hkr & Hp & Hs & ->).
    apply lookup_delete_Some in Hkr as [Hne Hkr]. split; [by exists k, r|].
    simpl. congruence.
  - intros [(k & r & Hkr & Hp & Hs & ->) Hne]. exists k, r.
    split; [|done]. apply lookup_delete_Some. split; [|done].
    simpl in Hne. congruence.
Qed.

Lemma delete_task_leaves_siblings_witness :
  ∃ w2,
    run (TaskRoute.DELETE "A" (Some "bob")) (Sample.world_of Sample.two_todo)
    = (Json (), w2)
    ∧ (λ t, (t_id t, t_order t)) <$> group_and_sort w2 "P" TODO = [("B", 1)].
Proof.
  destruct (delete_task_leaves_siblings (Sample.world_of Sample.two_todo)
              "A" (Some "bob") "bob" (Sample.task "P" "first" TODO 0 10))
    as (w2 & Hrun & _).
  - reflexivity.
  - split; [reflexivity|]. vm_compute. eauto.
  - exists w2. split; [exact Hrun|].
    vm_compute in Hrun. injection Hrun as <-. reflexivity.
Defined.

(** C10: a DELETE that carries an identity and names no existing task
    answers { ok: true }, leaves the world as it was, and calls the store
    only to look the task up: project membership is never read. *)
Theorem delete_missing_task_is_ok w taskId header memberId :
  getMemberIdOrThrow header = Returned memberId →
  tasks (store w) !! taskId = None →
  run (TaskRoute.DELETE taskId header) w = (Json (), w)
  ∧ calls (TaskRoute.DELETE taskId header) w = [Ev (TaskFindUnique taskId)].
Proof.
  intros Hid Hnone. unfold TaskRoute.DELETE. rewrite Hid. simpl.
  by rewrite Hnone.
Qed.

Lemma delete_missing_task_is_ok_witness :
  run (TaskRoute.DELETE "nope" (Some "mallory")) (Sample.world_of Sample.two_todo)
  = (Json (), Sample.world_of Sample.two_todo)
  ∧ calls (TaskRoute.DELETE "nope" (Some "mallory")) (Sample.world_of Sample.two_todo)
    = [Ev (TaskFindUnique "nope")].
Proof.
  apply (delete_missing_task_is_ok (Sample.world_of Sample.two_todo)
           "nope" (Some "mallory") "mallory"); reflexivity.
Defined.

(** ** Appends in turn and appends that overlap *)

Lemma run_schedule_finished {A} (n i : nat) (pool : list (Prog A)) (a : A) w :
  pool !! i = Some (Ret a) →
  run_schedule (replicate n i) pool w = (pool, w).
Proof.
  intros Hi. induction n as [|n IH]; simpl; [done|].
  rewrite Hi. simpl. by rewrite list_insert_id.
Qed.

(** Giving a request every turn until it has made all its calls is running
    it alone. *)
Lemma run_schedule_alone {A} (p : Prog A) (i : nat) (pool : list (Prog A)) w :
  pool !! i = Some p →
  run_schedule (replicate (length (calls p w)) i) pool w
  = (<[i := Ret (run p w).1]> pool, (run p w).2).
Proof.
  revert pool w. induction p as [a|X q k IH]; intros pool w Hi; simpl.
  - by rewrite list_insert_id.
  - destruct (exec q w) as [x w1] eqn:Hexec. simpl. rewrite Hi. simpl.
    rewrite Hexec. rewrite IH.
    + by rewrite list_insert_insert_eq.
    + apply list_lookup_insert_eq. by eapply lookup_lt_Some.
Qed.

Lemma run_schedule_app {A} (s1 s2 : list nat) (pool : list (Prog A)) w :
  run_schedule (s1 ++ s2) pool w
  = run_schedule s2 (run_schedule s1 pool w).1 (run_schedule s1 pool w).2.
Proof.
  revert pool w. induction s1 as [|i s1 IH]; intros pool w; simpl; [done|].
  destruct (pool !! i) as [p|]; [|apply IH].
  destruct (step p w) as [p1 w1]. apply IH.
Qed.

(** ** Two appends in flight *)

(** One turn of a schedule, by what the request whose turn it is does. *)
Lemma schedule_skip {A} i sched (pool : list (Prog A)) w :
  pool !! i = None ∨ (∃ a, pool !! i = Some (Ret a)) →
  run_schedule (i :: sched) pool w = run_schedule sched pool w
  ∧ schedule_calls (i :: sched) pool w = schedule_calls sched pool w.
Proof.
  intros [Hi|[a Hi]]; simpl; rewrite Hi; [done|].
  simpl. by rewrite list_insert_id.
Qed.

Lemma schedule_call {A X} i sched (pool : list (Prog A)) w (q : Query X) k :
  pool !! i = Some (Call q k) →
  run_schedule (i :: sched) pool w
  = run_schedule sched (<[i := k (exec q w).1]> pool) (exec q w).2
  ∧ schedule_calls (i :: sched) pool w
    = (i, Ev q) :: schedule_calls sched (<[i := k (exec q w).1]> pool) (exec q w).2.
Proof. intros Hi. simpl. rewrite Hi. simpl. by destruct (exec q w). Qed.

(** A request that has answered stays as it is and makes no call. *)
Lemma schedule_done {A} sched (pool : list (Prog A)) w i a :
  pool !! i = Some (Ret a) →
  (run_schedule sched pool w).1 !! i = Some (Ret a)
  ∧ ∀ e, (i, e) ∉ schedule_calls sched pool w.
Proof.
  revert pool w. induction sched as [|k sched IH]; intros pool w Hi.
  { split; [done|]. intros e. apply not_elem_of_nil. }
  destruct (pool !! k) as [[b|X q kk]|] eqn:Hk.
  - destruct (schedule_skip k sched pool w) as [-> ->]; eauto.
  - destruct (schedule_call k sched pool w q kk Hk) as [-> ->].
    assert (k ≠ i) as Hki by (intros ->; congruence).
    destruct (IH (<[k := kk (exec q w).1]> pool) (exec q w).2) as [Hfin Hcalls].
    { by rewrite list_lookup_insert_ne. }
    split; [done|]. intros e [[= ? ?]|He]%elem_of_cons; [done|].
    by apply (Hcalls e).
  - destruct (schedule_skip k sched pool w) as [-> ->]; eauto.
Qed.

(** A request that holds an order inserts with that order, whatever the
    others do in between, and reads no maximum again. *)
Lemma schedule_holding sched (pool : list (Prog (Response Task))) w i q p st o task :
  pool !! i = Some q → holding p st o q →
  (run_schedule sched pool w).1 !! i = Some (Ret (Json task)) →
  t_order task = o ∧ t_status task = st
  ∧ ∀ e, (i, e) ∈ schedule_calls sched pool w → is_task_aggregate e = false.
Proof.
  revert pool w q. induction sched as [|k sched IH]; intros pool w q Hi Hq Hfin.
  { simpl in Hfin. rewrite Hi in Hfin. injection Hfin as ->. done. }
  destruct (decide (k = i)) as [->|Hki].
  - destruct q as [r|X qu kk]; [done|]. destruct qu; try done.
    destruct Hq as (Hp & Hst & Ho & Hkk).
    destruct (schedule_call i sched pool w _ kk Hi) as [Hrun Hcalls].
    rewrite Hrun in Hfin. rewrite Hcalls. clear Hrun Hcalls.
    assert (<[i := kk (exec (TaskCreate data) w).1]> pool !! i
            = Some (kk (exec (TaskCreate data) w).1)) as Hi2.
    { apply list_lookup_insert_eq. by eapply lookup_lt_Some. }
    rewrite Hkk in Hi2, Hfin |- *.
    simpl in Hi2, Hfin |- *.
    destruct (tasks (store w) !! next_id w); simpl in Hi2, Hfin |- *.
    + destruct (schedule_done sched _ (tick (draw_id w)) i _ Hi2) as [Hfin2 _].
      congruence.
    + destruct (schedule_done sched _
                  (set_store (tick (draw_id w))
                     (set_tasks (store w)
                        (<[next_id w := new_row data (now w)]> (tasks (store w)))))
                  i _ Hi2) as [Hfin2 Hnone].
      rewrite Hfin2 in Hfin. injection Hfin as <-. simpl. split_and!; [done..|].
      intros e [[= ->]|He]%elem_of_cons; [done|]. by destruct (Hnone e).
  - destruct (pool !! k) as [[b|X qu kk]|] eqn:Hk.
    + destruct (schedule_skip k sched pool w) as [Hrun ->]; [eauto|].
      rewrite Hrun in Hfin. by eapply IH.
    + destruct (schedule_call k sched pool w qu kk Hk) as [Hrun ->].
      rewrite Hrun in Hfin.
      destruct (IH (<[k := kk (exec qu w).1]> pool) (exec qu w).2 q)
        as (? & ? & Hcalls); [by rewrite list_lookup_insert_ne|done..|].
      split_and!; [done..|].
      intros e [[= ? ?]|He]%elem_of_cons; [done|]. by apply Hcalls.
    + destruct (schedule_skip k sched pool w) as [Hrun ->]; [eauto|].
      rewrite Hrun in Hfin. by eapply IH.
Qed.

(** A request that has not read the maximum yet and ends with a task has
    read it in between, and the task has the status it asked for. *)
Lemma schedule_waiting sched (pool : list (Prog (Response Task))) w i q p st task :
  pool !! i = Some q → waiting p st q →
  (run_schedule sched pool w).1 !! i = Some (Ret (Json task)) →
  t_status task = st
  ∧ ∃ b e, schedule_calls sched pool w !! b = Some (i, e) ∧ is_task_aggregate e = true.
Proof.
  revert pool w q. induction sched as [|k sched IH]; intros pool w q Hi Hq Hfin.
  { simpl in Hfin. rewrite Hi in Hfin. injection Hfin as ->. by destruct (Hq task). }
  destruct (decide (k = i)) as [->|Hki].
  - destruct q as [r|X qu kk].
    { destruct (schedule_done (i :: sched) pool w i r Hi) as [Hfin2 _].
      rewrite Hfin2 in Hfin. injection Hfin as ->. by destruct (Hq task). }
    destruct (schedule_call i sched pool w qu kk Hi) as [Hrun Hcalls].
    rewrite Hrun in Hfin. rewrite Hcalls. clear Hrun Hcalls.
    assert (<[i := kk (exec qu w).1]> pool !! i = Some (kk (exec qu w).1)) as Hi2.
    { apply list_lookup_insert_eq. by eapply lookup_lt_Some. }
    destruct qu; try done.
    + destruct (IH _ _ _ Hi2 (Hq _) Hfin) as (Hst & b & e & Hb & He).
      split; [done|]. by exists (S b), e.
    + destruct Hq as (-> & -> & Hkk).
      destruct (schedule_holding sched _ _ i _ p st _ task Hi2 (Hkk _) Hfin)
        as (_ & Hst & _).
      split; [done|]. by exists 0%nat, (Ev (TaskAggregateMaxOrder p st)).
  - destruct (pool !! k) as [[b|X qu kk]|] eqn:Hk.
    + destruct (schedule_skip k sched pool w) as [Hrun ->]; [eauto|].
      rewrite Hrun in Hfin. by eapply IH.
    + destruct (schedule_call k sched pool w qu kk Hk) as [Hrun ->].
      rewrite Hrun in Hfin.
      destruct (IH (<[k := kk (exec qu w).1]> pool) (exec qu w).2 q)
        as (? & b & e & Hb & He); [by rewrite list_lookup_insert_ne|done..|].
      split; [done|]. by exists (S b), e.
    + destruct (schedule_skip k sched pool w) as [Hrun ->]; [eauto|].
      rewrite Hrun in Hfin. by eapply IH.
Qed.

(** After an insert with the order an append computes, an append computes
    the order after it. *)
Lemma next_order_after_insert s s2 p st id r :
  tasks s2 = <[id := r]> (tasks s) →
  row_projectId r = p → row_status r = st →
  row_order r = next_order s p st →
  next_order s2 p st = row_order r + 1.
Proof.
  intros Htasks Hp Hst Ho. unfold next_order in *.
  assert (tasks s2 !! id = Some r) as Hin by (rewrite Htasks; apply lookup_insert_eq).
  pose proof (aggregate_max_spec s2 p st) as Hmax. revert Hmax.
  generalize (max_of ((λ kr : string * TaskRow, row_order kr.2)
                        <$> partition_rows s2 p st)).
  intros [m|] Hmax; simpl.
  - destruct Hmax as [(k & r0 & Hkr & Hp0 & Hs0 & Hm) Hle].
    specialize (Hle _ _ Hin Hp Hst).
    enough (m ≤ row_order r) by lia. subst m.
    rewrite Htasks in Hkr.
    destruct (decide (id = k)) as [<-|Hk].
    + rewrite lookup_insert_eq in Hkr. injection Hkr as <-. lia.
    + rewrite lookup_insert_ne in Hkr by done.
      pose proof (append_order_above _ _ _ _ _ Hkr Hp0 Hs0) as Hlt. lia.
  - by destruct (Hmax _ _ Hin Hp).
Qed.

(** The other request of a pool of two makes no call: there is none. *)
Lemma pool_of_two {A} (pool : list (Prog A)) i j k qi qj :
  length pool = 2%nat → i ≠ j → pool !! i = Some qi → pool !! j = Some qj →
  k ≠ i → k ≠ j → pool !! k = None.
Proof.
  intros Hlen Hij Hi%lookup_lt_Some Hj%lookup_lt_Some Hki Hkj.
  apply lookup_ge_None_2. lia.
Qed.

(** One request has inserted, the other has not read the maximum yet: the
    other gets the order after the maximum it will find. *)
Lemma schedule_after_create sched (pool : list (Prog (Response Task))) w i j
    ri qj p st o task :
  length pool = 2%nat → i ≠ j →
  pool !! i = Some (Ret ri) → pool !! j = Some qj → waiting p st qj →
  next_order (store w) p st = o →
  (run_schedule sched pool w).1 !! j = Some (Ret (Json task)) →
  t_order task = o.
Proof.
  revert pool w qj. induction sched as [|k sched IH];
    intros pool w qj Hlen Hij Hi Hj Hqj Hnext Hfin.
  { simpl in Hfin. rewrite Hj in Hfin. injection Hfin as ->. by destruct (Hqj task). }
  destruct (decide (k = j)) as [->|Hkj].
  - destruct qj as [r|X qu kk].
    { destruct (schedule_done (j :: sched) pool w j r Hj) as [Hfin2 _].
      rewrite Hfin2 in Hfin. injection Hfin as ->. by destruct (Hqj task). }
    destruct (schedule_call j sched pool w qu kk Hj) as [Hrun _].
    rewrite Hrun in Hfin. clear Hrun.
    assert (<[j := kk (exec qu w).1]> pool !! j = Some (kk (exec qu w).1)) as Hj2.
    { apply list_lookup_insert_eq. by eapply lookup_lt_Some. }
    destruct qu; try done.
    + simpl in Hfin, Hj2.
      eapply IH; [|done| |exact Hj2|apply Hqj|done..].
      * by rewrite length_insert.
      * by rewrite list_lookup_insert_ne.
    + destruct Hqj as (-> & -> & Hkk).
      destruct (schedule_holding sched _ _ j _ p st _ task Hj2 (Hkk _) Hfin)
        as (Ho & _). by rewrite Ho, <- Hnext.
  - destruct (decide (k = i)) as [->|Hki].
    + destruct (schedule_skip i sched pool w) as [Hrun _]; [eauto|].
      rewrite Hrun in Hfin. by eapply IH.
    + destruct (schedule_skip k sched pool w) as [Hrun _].
      { left. by apply (pool_of_two pool i j k (Ret ri) qj). }
      rewrite Hrun in Hfin. by eapply IH.
Qed.

Lemma create_before_aggregate_cons i j k e trace :
  create_before_aggregate i j ((k, e) :: trace) ↔
  (k = i ∧ is_task_create e = true
   ∧ ∃ b e2, trace !! b = Some (j, e2) ∧ is_task_aggregate e2 = true)
  ∨ create_before_aggregate i j trace.
Proof.
  split.
  - intros (a & b & e1 & e2 & Hab & Ha & He1 & Hb & He2).
    destruct b as [|b]; [lia|]. destruct a as [|a].
    + injection Ha as -> ->. left. split_and!; [done..|]. by exists b, e2.
    + right. exists a, b, e1, e2. split_and!; [lia|done..].
  - intros [(-> & He & b & e2 & Hb & He2)|(a & b & e1 & e2 & Hab & Ha & He1 & Hb & He2)].
    + exists 0%nat, (S b), e, e2. split_and!; [lia|done..].
    + exists (S a), (S b), e1, e2. split_and!; [lia|done..].
Qed.

Lemma create_before_aggregate_inv i j trace :
  create_before_aggregate i j trace →
  ∃ e, (j, e) ∈ trace ∧ is_task_aggregate e = true.
Proof.
  intros (a & b & e1 & e2 & _ & _ & _ & Hb & He2). exists e2.
  split; [by eapply list_elem_of_lookup_2|done].
Qed.

Lemma orders_by_overlap_cons i j k e trace oi oj :
  is_task_create e = false →
  orders_by_overlap i j trace oi oj →
  orders_by_overlap i j ((k, e) :: trace) oi oj.
Proof.
  intros He (H1 & H2 & H3). unfold orders_by_overlap.
  rewrite !create_before_aggregate_cons.
  split_and!; [intros [(_ & ? & _)|?]; [congruence|auto]..|].
  intros Hn1 Hn2. apply H3; tauto.
Qed.

Lemma orders_by_overlap_sym i j trace oi oj :
  orders_by_overlap i j trace oi oj → orders_by_overlap j i trace oj oi.
Proof.
  intros (H1 & H2 & H3). split_and!; [done..|].
  intros Hn1 Hn2. symmetry. by apply H3.
Qed.

(** One request holds the order of the present maximum, the other has not
    read the maximum yet. *)
Lemma schedule_one_holding sched (pool : list (Prog (Response Task))) w i j
    qi qj p st ti tj :
  length pool = 2%nat → i ≠ j →
  pool !! i = Some qi → holding p st (next_order (store w) p st) qi →
  pool !! j = Some qj → waiting p st qj →
  (run_schedule sched pool w).1 !! i = Some (Ret (Json ti)) →
  (run_schedule sched pool w).1 !! j = Some (Ret (Json tj)) →
  orders_by_overlap i j (schedule_calls sched pool w) (t_order ti) (t_order tj).
Proof.
  revert pool w qi qj. induction sched as [|k sched IH];
    intros pool w qi qj Hlen Hij Hi Hqi Hj Hqj Hfi Hfj.
  { simpl in Hfi. rewrite Hi in Hfi. injection Hfi as ->. done. }
  destruct (decide (k = i)) as [->|Hki]; [|destruct (decide (k = j)) as [->|Hkj]].
  - (* the holder inserts *)
    destruct qi as [r|X qu kk]; [done|]. destruct qu; try done.
    destruct Hqi as (Hp & Hst & Ho & Hkk).
    destruct (schedule_call i sched pool w _ kk Hi) as [Hrun Hcalls].
    rewrite Hrun in Hfi, Hfj. rewrite Hcalls. clear Hrun Hcalls.
    assert (<[i := kk (exec (TaskCreate data) w).1]> pool !! i
            = Some (kk (exec (TaskCreate data) w).1)) as Hi2.
    { apply list_lookup_insert_eq. by eapply lookup_lt_Some. }
    assert (<[i := kk (exec (TaskCreate data) w).1]> pool !! j = Some qj) as Hj2
      by (by rewrite list_lookup_insert_ne).
    assert (length (<[i := kk (exec (TaskCreate data) w).1]> pool) = 2%nat) as Hlen2
      by (by rewrite length_insert).
    rewrite Hkk in Hi2, Hj2, Hlen2, Hfi, Hfj |- *.
    simpl in Hi2, Hj2, Hlen2, Hfi, Hfj |- *.
    destruct (tasks (store w) !! next_id w) eqn:Hfresh;
      simpl in Hi2, Hj2, Hlen2, Hfi, Hfj |- *.
    { destruct (schedule_done sched _ (tick (draw_id w)) i _ Hi2) as [Hfin2 _].
      congruence. }
    set (w1 := set_store _ _) in *.
    destruct (schedule_done sched _ w1 i _ Hi2) as [Hfin2 Hnone].
    rewrite Hfin2 in Hfi. injection Hfi as <-. simpl.
    assert (next_order (store w1) p st = c_order data + 1) as Hnext.
    { apply (next_order_after_insert (store w) (store w1) p st (next_id w)
               (new_row data (now w))); done. }
    pose proof (schedule_after_create sched _ w1 i j _ qj p st _ tj
                  Hlen2 Hij Hi2 Hj2 Hqj Hnext Hfj) as Hoj.
    destruct (schedule_waiting sched _ w1 j qj p st tj Hj2 Hqj Hfj)
      as (_ & b & e & Hb & He).
    unfold orders_by_overlap. rewrite !create_before_aggregate_cons.
    split_and!; [done| |].
    + intros [(? & _)|(e2 & Hin & _)%create_before_aggregate_inv]; [done|].
      by destruct (Hnone e2).
    + intros Hn _. destruct Hn. left. split_and!; [done..|]. by exists b, e.
  - (* the other request moves *)
    destruct qj as [r|X qu kk].
    { destruct (schedule_done (j :: sched) pool w j r Hj) as [Hfin2 _].
      rewrite Hfin2 in Hfj. injection Hfj as ->. by destruct (Hqj tj). }
    destruct (schedule_call j sched pool w qu kk Hj) as [Hrun Hcalls].
    rewrite Hrun in Hfi, Hfj. rewrite Hcalls. clear Hrun Hcalls.
    assert (<[j := kk (exec qu w).1]> pool !! j = Some (kk (exec qu w).1)) as Hj2.
    { apply list_lookup_insert_eq. by eapply lookup_lt_Some. }
    assert (<[j := kk (exec qu w).1]> pool !! i = Some qi) as Hi2
      by (by rewrite list_lookup_insert_ne).
    destruct qu; try done.
    + apply orders_by_overlap_cons; [done|]. simpl in *.
      eapply IH; [|done|exact Hi2|done|exact Hj2|apply Hqj|done..].
      by rewrite length_insert.
    + destruct Hqj as (-> & -> & Hkk). simpl in *.
      destruct (schedule_holding sched _ _ i _ p st _ ti Hi2 Hqi Hfi)
        as (Hoi & _ & Hnoi).
      destruct (schedule_holding sched _ _ j _ p st _ tj Hj2 (Hkk _) Hfj)
        as (Hoj & _ & Hnoj).
      apply orders_by_overlap_cons; [done|]. split_and!.
      * intros (e2 & Hin & He2)%create_before_aggregate_inv.
        rewrite (Hnoj e2 Hin) in He2. done.
      * intros (e2 & Hin & He2)%create_before_aggregate_inv.
        rewrite (Hnoi e2 Hin) in He2. done.
      * intros _ _. by rewrite Hoi, Hoj.
  - destruct (schedule_skip k sched pool w) as [Hrun ->].
    { left. by apply (pool_of_two pool i j k qi qj). }
    rewrite Hrun in Hfi, Hfj. by eapply IH.
Qed.

(** Neither request has read the maximum yet. *)
Lemma schedule_both_waiting sched (pool : list (Prog (Response Task))) w i j
    qi qj p st ti tj :
  length pool = 2%nat → i ≠ j →
  pool !! i = Some qi → waiting p st qi →
  pool !! j = Some qj → waiting p st qj →
  (run_schedule sched pool w).1 !! i = Some (Ret (Json ti)) →
  (run_schedule sched pool w).1 !! j = Some (Ret (Json tj)) →
  orders_by_overlap i j (schedule_calls sched pool w) (t_order ti) (t_order tj).
Proof.
  assert (∀ i j sched
            (IH : ∀ (pool : list (Prog (Response Task))) w i j qi qj ti tj,
                length pool = 2%nat → i ≠ j →
                pool !! i = Some qi → waiting p st qi →
                pool !! j = Some qj → waiting p st qj →
                (run_schedule sched pool w).1 !! i = Some (Ret (Json ti)) →
                (run_schedule sched pool w).1 !! j = Some (Ret (Json tj)) →
                orders_by_overlap i j (schedule_calls sched pool w)
                  (t_order ti) (t_order tj))
            (pool : list (Prog (Response Task))) w qi qj ti tj,
            length pool = 2%nat → i ≠ j →
            pool !! i = Some qi → waiting p st qi →
            pool !! j = Some qj → waiting p st qj →
            (run_schedule (i :: sched) pool w).1 !! i = Some (Ret (Json ti)) →
            (run_schedule (i :: sched) pool w).1 !! j = Some (Ret (Json tj)) →
            orders_by_overlap i j (schedule_calls (i :: sched) pool w)
              (t_order ti) (t_order tj)) as Hturn.
  { clear. intros i j sched IH pool w qi qj ti tj Hlen Hij Hi Hqi Hj Hqj Hfi Hfj.
    destruct qi as [r|X qu kk].
    { destruct (schedule_done (i :: sched) pool w i r Hi) as [Hfin2 _].
      rewrite Hfin2 in Hfi. injection Hfi as ->. by destruct (Hqi ti). }
    destruct (schedule_call i sched pool w qu kk Hi) as [Hrun Hcalls].
    rewrite Hrun in Hfi, Hfj. rewrite Hcalls. clear Hrun Hcalls.
    assert (<[i := kk (exec qu w).1]> pool !! i = Some (kk (exec qu w).1)) as Hi2.
    { apply list_lookup_insert_eq. by eapply lookup_lt_Some. }
    assert (<[i := kk (exec qu w).1]> pool !! j = Some qj) as Hj2
      by (by rewrite list_lookup_insert_ne).
    assert (length (<[i := kk (exec qu w).1]> pool) = 2%nat) as Hlen2
      by (by rewrite length_insert).
    destruct qu; try done.
    - apply orders_by_overlap_cons; [done|]. simpl in *.
      eapply IH; [exact Hlen2|done|exact Hi2|apply Hqi|exact Hj2|done..].
    - destruct Hqi as (-> & -> & Hkk). simpl in *.
      apply orders_by_overlap_cons; [done|].
      eapply schedule_one_holding;
        [exact Hlen2|done|exact Hi2|apply Hkk|exact Hj2|done..]. }
  revert pool w i j qi qj ti tj. induction sched as [|k sched IH];
    intros pool w i j qi qj ti tj Hlen Hij Hi Hqi Hj Hqj Hfi Hfj.
  { simpl in Hfi. rewrite Hi in Hfi. injection Hfi as ->. by destruct (Hqi ti). }
  destruct (decide (k = i)) as [->|Hki]; [|destruct (decide (k = j)) as [->|Hkj]].
  - by apply (Hturn i j sched IH pool w qi qj).
  - apply orders_by_overlap_sym. by apply (Hturn j i sched IH pool w qj qi).
  - destruct (schedule_skip k sched pool w) as [Hrun ->].
    { left. by apply (pool_of_two pool i j k qi qj). }
    rewrite Hrun in Hfi, Hfj. by eapply IH.
Qed.

(** A POST that has made no call yet has not read the maximum. *)
Lemma POST_waiting projectId header json :
  waiting projectId (requested_status json) (TasksRoute.POST projectId header json).
Proof.
  unfold TasksRoute.POST, requested_status.
  destruct (getMemberIdOrThrow header) as [memberId|code]; [|done].
  simpl. intros [pm|]; [|done]. simpl.
  destruct (CreateTaskSchema json) as [data|]; [|done].
  assert (waiting projectId (default TODO (ct_status data))
            (TasksRoute.append projectId memberId data (default TODO (ct_status data))))
    as Happend.
  { unfold TasksRoute.append. simpl. split_and!; [done..|]. intros m.
    split_and!; [done..|]. by intros [t|]. }
  destruct (ct_assigneeId data) as [a|]; [|done].
  destruct (decide (a = "")); [done|].
  simpl. by intros [pma|].
Qed.

(** A request that ends with a task has made its task.create. *)
Lemma schedule_holding_creates sched (pool : list (Prog (Response Task))) w i q
    p st o task :
  pool !! i = Some q → holding p st o q →
  (run_schedule sched pool w).1 !! i = Some (Ret (Json task)) →
  ∃ e, (i, e) ∈ schedule_calls sched pool w ∧ is_task_create e = true.
Proof.
  revert pool w q. induction sched as [|k sched IH]; intros pool w q Hi Hq Hfin.
  { simpl in Hfin. rewrite Hi in Hfin. injection Hfin as ->. done. }
  destruct (decide (k = i)) as [->|Hki].
  - destruct q as [r|X qu kk]; [done|]. destruct qu; try done.
    destruct (schedule_call i sched pool w _ kk Hi) as [_ ->].
    exists (Ev (TaskCreate data)). split; [left|done].
  - destruct (pool !! k) as [[b|X qu kk]|] eqn:Hk.
    + destruct (schedule_skip k sched pool w) as [Hrun ->]; [eauto|].
      rewrite Hrun in Hfin. by eapply IH.
    + destruct (schedule_call k sched pool w qu kk Hk) as [Hrun ->].
      rewrite Hrun in Hfin.
      destruct (IH (<[k := kk (exec qu w).1]> pool) (exec qu w).2 q)
        as (e & He & Hc); [by rewrite list_lookup_insert_ne|done..|].
      exists e. split; [by right|done].
    + destruct (schedule_skip k sched pool w) as [Hrun ->]; [eauto|].
      rewrite Hrun in Hfin. by eapply IH.
Qed.

Lemma schedule_waiting_creates sched (pool : list (Prog (Response Task))) w i q
    p st task :
  pool !! i = Some q → waiting p st q →
  (run_schedule sched pool w).1 !! i = Some (Ret (Json task)) →
  ∃ e, (i, e) ∈ schedule_calls sched pool w ∧ is_task_create e = true.
Proof.
  revert pool w q. induction sched as [|k sched IH]; intros pool w q Hi Hq Hfin.
  { simpl in Hfin. rewrite Hi in Hfin. injection Hfin as ->. by destruct (Hq task). }
  destruct (decide (k = i)) as [->|Hki].
  - destruct q as [r|X qu kk].
    { destruct (schedule_done (i :: sched) pool w i r Hi) as [Hfin2 _].
      rewrite Hfin2 in Hfin. injection Hfin as ->. by destruct (Hq task). }
    destruct (schedule_call i sched pool w qu kk Hi) as [Hrun Hcalls].
    rewrite Hrun in Hfin. rewrite Hcalls. clear Hrun Hcalls.
    assert (<[i := kk (exec qu w).1]> pool !! i = Some (kk (exec qu w).1)) as Hi2.
    { apply list_lookup_insert_eq. by eapply lookup_lt_Some. }
    destruct qu; try done.
    + destruct (IH _ _ _ Hi2 (Hq _) Hfin) as (e & He & Hc).
      exists e. split; [by right|done].
    + destruct Hq as (-> & -> & Hkk).
      destruct (schedule_holding_creates sched _ _ i _ p st _ task Hi2 (Hkk _) Hfin)
        as (e & He & Hc).
      exists e. split; [by right|done].
  - destruct (pool !! k) as [[b|X qu kk]|] eqn:Hk.
    + destruct (schedule_skip k sched pool w) as [Hrun ->]; [eauto|].
      rewrite Hrun in Hfin. by eapply IH.
    + destruct (schedule_call k sched pool w qu kk Hk) as [Hrun ->].
      rewrite Hrun in Hfin.
      destruct (IH (<[k := kk (exec qu w).1]> pool) (exec qu w).2 q)
        as (e & He & Hc); [by rewrite list_lookup_insert_ne|done..|].
      exists e. split; [by right|done].
    + destruct (schedule_skip k sched pool w) as [Hrun ->]; [eauto|].
      rewrite Hrun in Hfin. by eapply IH.
Qed.

(** A request that gets no turn stays as it is. *)
Lemma schedule_untouched {A} sched (pool : list (Prog A)) w j :
  Forall (λ k, k ≠ j) sched →
  (run_schedule sched pool w).1 !! j = pool !! j.
Proof.
  revert pool w. induction sched as [|k sched IH]; intros pool w Hall; [done|].
  apply Forall_cons in Hall as [Hkj Hall]. simpl.
  destruct (pool !! k) as [p|]; [|by apply IH].
  destruct (step p w) as [p1 w1]. rewrite IH by done.
  by apply list_lookup_insert_ne.
Qed.

Lemma schedule_calls_app {A} (s1 s2 : list nat) (pool : list (Prog A)) w :
  schedule_calls (s1 ++ s2) pool w
  = schedule_calls s1 pool w
    ++ schedule_calls s2 (run_schedule s1 pool w).1 (run_schedule s1 pool w).2.
Proof.
  revert pool w. induction s1 as [|i s1 IH]; intros pool w; simpl; [done|].
  destruct (pool !! i) as [[a|X q k]|] eqn:Hi; simpl.
  - rewrite list_insert_id by done. apply IH.
  - destruct (exec q w) as [x w1]. simpl. by rewrite IH.
  - apply IH.
Qed.

Lemma create_before_aggregate_app i j (tr1 tr2 : list (nat * Event)) e1 e2 :
  (i, e1) ∈ tr1 → is_task_create e1 = true →
  (j, e2) ∈ tr2 → is_task_aggregate e2 = true →
  create_before_aggregate i j (tr1 ++ tr2).
Proof.
  intros [a Ha]%list_elem_of_lookup He1 [b Hb]%list_elem_of_lookup He2.
  exists a, (length tr1 + b)%nat, e1, e2.
  pose proof (lookup_lt_Some _ _ _ Ha).
  split_and!; [lia| |done| |done].
  - by apply lookup_app_l_Some.
  - by rewrite lookup_app_r, Nat.add_comm, Nat.add_sub by lia.
Qed.

(** Two appends in turn: the first makes its task.create before the second
    makes its task.aggregate. *)
Lemma appends_in_turn (n1 n2 : nat) (pool : list (Prog (Response Task))) w
    q1 q2 p st task1 task2 :
  pool = [q1; q2] → waiting p st q1 → waiting p st q2 →
  (run_schedule (replicate n1 0%nat ++ replicate n2 1%nat) pool w).1
  = [Ret (Json task1); Ret (Json task2)] →
  create_before_aggregate 0 1
    (schedule_calls (replicate n1 0%nat ++ replicate n2 1%nat) pool w).
Proof.
  intros -> Hq1 Hq2 Hfin. rewrite run_schedule_app in Hfin.
  rewrite schedule_calls_app.
  set (pool1 := (run_schedule (replicate n1 0%nat) [q1; q2] w).1) in *.
  set (w1 := (run_schedule (replicate n1 0%nat) [q1; q2] w).2) in *.
  assert (pool1 !! 1%nat = Some q2) as H1.
  { unfold pool1. rewrite schedule_untouched; [done|].
    apply Forall_replicate. lia. }
  assert (pool1 !! 0%nat = Some (Ret (Json task1))) as H0.
  { rewrite <- (schedule_untouched (replicate n2 1%nat) pool1 w1 0), Hfin; [done|].
    apply Forall_replicate. lia. }
  destruct (schedule_waiting_creates (replicate n1 0%nat) [q1; q2] w 0 q1 p st task1)
    as (e1 & Hin1 & He1); [done..|].
  destruct (schedule_waiting (replicate n2 1%nat) pool1 w1 1 q2 p st task2)
    as (_ & b & e2 & Hb & He2); [done..|by rewrite Hfin|].
  eapply create_before_aggregate_app; [done..| |done].
  by eapply list_elem_of_lookup_2.
Qed.

(** C3, as amended: two requests to append into the same (project, status)
    partition, in flight together with no other request, under any schedule
    of their calls after which both have created a task. If one of them
    makes its task.create before the other makes its task.aggregate, the
    other's task gets the order after the first one's, so the two orders
    differ. If neither does, that is, if both read the maximum before either
    inserts, the two tasks get the same order; the orders are equal in
    exactly that case. In particular two appends that run in turn, every
    call of the first before every call of the second, get consecutive
    orders. *)
Theorem concurrent_appends_orders
    (sched : list nat) w projectId header1 json1 header2 json2 task1 task2 w2 :
  run_schedule sched
    [TasksRoute.POST projectId header1 json1;
     TasksRoute.POST projectId header2 json2] w
  = ([Ret (Json task1); Ret (Json task2)], w2) →
  t_status task1 = t_status task2 →
  let trace :=
    schedule_calls sched
      [TasksRoute.POST projectId header1 json1;
       TasksRoute.POST projectId header2 json2] w in
  (create_before_aggregate 0 1 trace → t_order task2 = t_order task1 + 1)
  ∧ (create_before_aggregate 1 0 trace → t_order task1 = t_order task2 + 1)
  ∧ (¬ create_before_aggregate 0 1 trace → ¬ create_before_aggregate 1 0 trace →
     t_order task1 = t_order task2)
  ∧ (t_order task1 = t_order task2 ↔
     ¬ create_before_aggregate 0 1 trace ∧ ¬ create_before_aggregate 1 0 trace)
  ∧ (∀ n1 n2, sched = replicate n1 0%nat ++ replicate n2 1%nat →
              t_order task2 = t_order task1 + 1).
Proof.
  intros Hrun Hstatus trace.
  set (pool := [TasksRoute.POST projectId header1 json1;
                TasksRoute.POST projectId header2 json2]) in *.
  assert ((run_schedule sched pool w).1 !! 0%nat = Some (Ret (Json task1))) as Hf1
    by (by rewrite Hrun).
  assert ((run_schedule sched pool w).1 !! 1%nat = Some (Ret (Json task2))) as Hf2
    by (by rewrite Hrun).
  pose proof (POST_waiting projectId header1 json1) as Hq1.
  pose proof (POST_waiting projectId header2 json2) as Hq2.
  destruct (schedule_waiting sched pool w 0 _ _ _ task1 eq_refl Hq1 Hf1) as [Hs1 _].
  destruct (schedule_waiting sched pool w 1 _ _ _ task2 eq_refl Hq2 Hf2) as [Hs2 _].
  rewrite <- Hs2, <- Hstatus, Hs1 in Hq2.
  destruct (schedule_both_waiting sched pool w 0 1
              (TasksRoute.POST projectId header1 json1)
              (TasksRoute.POST projectId header2 json2) projectId
              (requested_status json1) task1 task2) as (H01 & H10 & Hsame);
    [done..|].
  split_and!; [done..| |].
  - split.
    + intros Heq. split; intros Hcba; [apply H01 in Hcba|apply H10 in Hcba]; lia.
    + intros [Hn01 Hn10]. by apply Hsame.
  - intros n1 n2 Hsched. apply H01. unfold trace. subst sched.
    apply (appends_in_turn n1 n2 pool w
             (TasksRoute.POST projectId header1 json1)
             (TasksRoute.POST projectId header2 json2)
             projectId (requested_status json1) task1 task2);
      [done..|by rewrite Hrun].
Qed.

Lemma concurrent_appends_orders_witness :
  ∃ task1 task2 w2,
    run_schedule [0; 0; 0; 1; 1; 1]%nat
      [TasksRoute.POST "P" (Some "alice") (Some (Sample.titled "one" (Some DOING)));
       TasksRoute.POST "P" (Some "bob") (Some (Sample.titled "two" (Some DOING)))]
      (Sample.world_of Sample.empty_board)
    = ([Ret (Json task1); Ret (Json task2)], w2)
    ∧ t_order task1 = 0
    ∧ t_order task2 = t_order task1 + 1.
Proof.
  eexists _, _, _.
  split; [vm_compute; reflexivity|]. split; [reflexivity|].
  refine (proj1 (concurrent_appends_orders [0; 0; 0; 1; 1; 1]%nat
                   (Sample.world_of Sample.empty_board) "P"
                   (Some "alice") (Some (Sample.titled "one" (Some DOING)))
                   (Some "bob") (Some (Sample.titled "two" (Some DOING)))
                   _ _ _ _ _) _).
  - vm_compute. reflexivity.
  - reflexivity.
  - exists 2%nat, 4%nat. eexists _, _.
    split_and!; [lia|vm_compute; reflexivity|reflexivity
                 |vm_compute; reflexivity|reflexivity].
Defined.

(** Two appends into the empty partition (P, DOING) whose reads both come
    before either insert: both tasks are created with order 0. *)
Lemma overlapping_appends_same_order :
  ∃ task1 task2 w2,
    run_schedule [0; 0; 1; 1; 0; 1]%nat
      [TasksRoute.POST "P" (Some "alice") (Some (Sample.titled "one" (Some DOING)));
       TasksRoute.POST "P" (Some "bob") (Some (Sample.titled "two" (Some DOING)))]
      (Sample.world_of Sample.empty_board)
    = ([Ret (Json task1); Ret (Json task2)], w2)
    ∧ t_id task1 ≠ t_id task2
    ∧ t_status task1 = DOING ∧ t_status task2 = DOING
    ∧ t_order task1 = 0 ∧ t_order task2 = 0
    ∧ (λ t, (t_id t, t_order t)) <$> group_and_sort w2 "P" DOING = [("a", 0); ("b", 0)].
Proof.
  eexists _, _, _. split; [vm_compute; reflexivity|].
  repeat split; try reflexivity. discriminate.
Qed.

(** C3, as stated, fails: there is an interleaving of two appends into one
    partition after which both created tasks have the same order. *)
Lemma concurrent_appends_claim_fails :
  ¬ (∀ (sched : list nat) w projectId header1 json1 header2 json2 task1 task2 w2,
       run_schedule sched
         [TasksRoute.POST projectId header1 json1;
          TasksRoute.POST projectId header2 json2] w
       = ([Ret (Json task1); Ret (Json task2)], w2) →
       t_status task1 = t_status task2 →
       t_order task1 ≠ t_order task2).
Proof.
  intros Hclaim.
  destruct overlapping_appends_same_order
    as (task1 & task2 & w2 & Hrun & _ & Hs1 & Hs2 & Ho1 & Ho2 & _).
  apply (Hclaim _ _ _ _ _ _ _ _ _ _ Hrun); congruence.
Qed.

(** ** Invite codes *)


Lemma char_at_alphabet i :
  (i < 32)%nat → ∃ c, char_at alphabet i = String c "" ∧ in_alphabet c.
Proof.
  intros Hi.
  do 32 (destruct i as [|i];
         [eexists; split; [reflexivity|];
          apply (bool_decide_unpack _); vm_compute; exact I|]).
  lia.
Qed.

Lemma list_ascii_of_string_app s1 s2 :
  String.list_ascii_of_string (s1 +:+ s2)
  = String.list_ascii_of_string s1 ++ String.list_ascii_of_string s2.
Proof. induction s1 as [|c s1 IH]; simpl; [done|]. by rewrite IH. Qed.

Lemma string_length_app s1 s2 :
  String.length (s1 +:+ s2) = (String.length s1 + String.length s2)%nat.
Proof. induction s1 as [|c s1 IH]; simpl; [done|]. by rewrite IH. Qed.

Lemma invite_loop_shape (bytes : list Z) (n a : nat) (out : string) :
  (a + n ≤ length bytes)%nat →
  Forall in_alphabet (String.list_ascii_of_string out) →
  let code :=
    fold_left
      (λ out i,
         out +:+ match bytes !! i with
                 | Some b => char_at alphabet
                               (Z.to_nat (b `mod` Z.of_nat (String.length alphabet)))
                 | None => "undefined"
                 end)
      (seq a n) out in
  String.length code = (String.length out + n)%nat
  ∧ Forall in_alphabet (String.list_ascii_of_string code).
Proof.
  revert a out. induction n as [|n IH]; intros a out Hlen Hout;
    cbn [seq fold_left].
  - split; [lia|done].
  - destruct (lookup_lt_is_Some_2 bytes a) as [b Hb]; [lia|]. rewrite Hb.
    destruct (char_at_alphabet (Z.to_nat (b `mod` Z.of_nat (String.length alphabet))))
      as (c & Hc & Hin).
    { change (Z.of_nat (String.length alphabet)) with 32.
      pose proof (Z.mod_pos_bound b 32). lia. }
    rewrite Hc.
    destruct (IH (S a) (out +:+ String c "")) as [Hl Hf]; [lia| |].
    + rewrite list_ascii_of_string_app. apply Forall_app. split; [done|].
      simpl. by constructor.
    + split; [|done]. rewrite Hl, string_length_app. simpl. lia.
Qed.

Lemma invite_code_of_shape (bytes : list Z) :
  (8 ≤ length bytes)%nat → invite_code_shape (invite_code_of 8 bytes).
Proof.
  intros Hlen. apply (invite_loop_shape bytes 8 0 ""); [done|]. constructor.
Qed.

Lemma run_generateInviteCode w :
  run (generateInviteCode None) w = (candidate_code w 0, draw_bytes 8 w).
Proof.
  unfold generateInviteCode, candidate_code. cbn [run exec]. do 2 f_equal.
  apply list_fmap_ext. intros _ i _. do 2 f_equal. lia.
Qed.

Lemma candidate_code_shape w k : invite_code_shape (candidate_code w k).
Proof. apply invite_code_of_shape. by rewrite length_fmap, length_seq. Qed.

(** ** Project creation *)

Lemma run_bind {A B} (p : Prog A) (f : A → Prog B) w :
  run (bind p f) w = run (f (run p w).1) (run p w).2.
Proof.
  revert w. induction p as [a|X q k IH]; intros w; simpl; [done|].
  destruct (exec q w) as [x w1]. apply IH.
Qed.

Lemma calls_bind {A B} (p : Prog A) (f : A → Prog B) w :
  calls (bind p f) w = calls p w ++ calls (f (run p w).1) (run p w).2.
Proof.
  revert w. induction p as [a|X q k IH]; intros w; simpl; [done|].
  destruct (exec q w) as [x w1]. simpl. by rewrite IH.
Qed.

Lemma create_with_retry_S n name m :
  ProjectsRoute.create_with_retry (S n) name m
  = bind (generateInviteCode None)
      (λ inviteCode,
         Call (ProjectCreate name inviteCode m)
           (λ project,
              match project with
              | Some project => Ret (Some project)
              | None => ProjectsRoute.create_with_retry n name m
              end)).
Proof. reflexivity. Qed.

Lemma candidate_code_next w k :
  candidate_code (tick (draw_id (draw_bytes 8 w))) k = candidate_code w (S k).
Proof.
  unfold candidate_code, tick, draw_id, draw_bytes. cbn [env bytes_drawn].
  f_equal. apply list_fmap_ext. intros _ i _. do 2 f_equal. lia.
Qed.

(** The retry loop: at most [n] attempts; it ends with a project whose code
    was free, or with nothing after [n] failed attempts and no change. *)
Lemma create_with_retry_spec n name m w r w2 :
  run (ProjectsRoute.create_with_retry n name m) w = (r, w2) →
  (create_attempts (ProjectsRoute.create_with_retry n name m) w ≤ n)%nat
  ∧ match r with
    | Some project =>
        (∃ k, (k < n)%nat ∧ p_inviteCode project = candidate_code w k)
        ∧ (p_inviteCode project ∉ invite_codes (store w))
        ∧ projects (store w) !! p_id project = None
        ∧ ∃ row, projects (store w2) = <[p_id project := row]> (projects (store w))
                 ∧ project_inviteCode row = p_inviteCode project
    | None =>
        store w2 = store w
        ∧ create_attempts (ProjectsRoute.create_with_retry n name m) w = n
        ∧ ∀ k, (k < n)%nat →
               candidate_code w k ∈ invite_codes (store w)
               ∨ is_Some (projects (store w)
                            !! gen_id (env w) (ids_drawn w + k)%nat)
    end.
Proof.
  revert w. induction n as [|n IH]; intros w.
  - simpl. intros [= <- <-]. split; [done|]. split; [done|]. split; [done|]. lia.
  - unfold create_attempts. rewrite create_with_retry_S, run_bind, calls_bind.
    rewrite run_generateInviteCode. simpl.
    destruct (decide _) as [Htaken|Hfree]; simpl.
    + intros Hrun. destruct (IH _ Hrun) as [Hle Hres].
      unfold create_attempts in Hle. split; [lia|].
      destruct r as [project|].
      * destruct Hres as ((k & Hk & Hcode) & Hnotin & Hid & Hrow).
        split; [|done]. exists (S k). split; [lia|].
        by rewrite <- candidate_code_next.
      * destruct Hres as (Hstore & Hcount & Hall). split; [done|].
        unfold create_attempts in Hcount. split; [lia|].
        intros [|k] Hk.
        -- rewrite Nat.add_0_r. unfold next_id in Htaken. simpl in Htaken. tauto.
        -- destruct (Hall k) as [Hc|Hi]; [lia| |].
           ++ left. by rewrite <- candidate_code_next.
           ++ right. simpl in Hi. by replace (ids_drawn w + S k)%nat
                                       with (S (ids_drawn w) + k)%nat by lia.
    + intros [= <- <-]. simpl. split; [lia|].
      split; [exists 0%nat; split; [lia|done]|].
      split; [tauto|]. split.
      * destruct (projects (store w) !! next_id (draw_bytes 8 w)) eqn:Hid; [|done].
        destruct Hfree. left. eauto.
      * eexists. split; reflexivity.
Qed.

Lemma run_projects_POST w json parsed :
  CreateProjectSchema json = Some parsed →
  members (store w) !! next_id w = None →
  ∃ wm,
    store wm
    = {| tasks := tasks (store w); projectMembers := projectMembers (store w);
         projects := projects (store w);
         members := <[next_id w := {| member_displayName := cp_displayName parsed;
                                      member_createdAt := now w;
                                      member_updatedAt := now w |}]>
                      (members (store w)) |}
    ∧ (∀ k, candidate_code wm k = candidate_code w k)
    ∧ run (ProjectsRoute.POST json) w
      = (match (run (ProjectsRoute.create_with_retry 8 (cp_projectName parsed)
                       (next_id w)) wm).1 with
         | None => JsonError INVITE_CODE_GENERATION_FAILED 500
         | Some project =>
             Json (project, {| m_id := next_id w;
                               m_displayName := cp_displayName parsed |})
         end,
         (run (ProjectsRoute.create_with_retry 8 (cp_projectName parsed)
                 (next_id w)) wm).2)
    ∧ create_attempts (ProjectsRoute.POST json) w
      = create_attempts (ProjectsRoute.create_with_retry 8 (cp_projectName parsed)
                           (next_id w)) wm.
Proof.
  intros Hparse Hfresh.
  exists (set_store (tick (draw_id w))
            {| tasks := tasks (store w); projectMembers := projectMembers (store w);
               projects := projects (store w);
               members := <[next_id w := {| member_displayName := cp_displayName parsed;
                                            member_createdAt := now w;
                                            member_updatedAt := now w |}]>
                            (members (store w)) |}).
  split; [reflexivity|]. split; [reflexivity|].
  unfold ProjectsRoute.POST, create_attempts. rewrite Hparse.
  cbn [run calls exec]. rewrite Hfresh. cbn [m_id].
  rewrite run_bind, calls_bind.
  destruct (run (ProjectsRoute.create_with_retry _ _ _) _) as [[project|] w2];
    cbn [fst snd run calls]; rewrite app_nil_r;
    (split; [reflexivity|]); rewrite filter_cons;
    rewrite decide_False by done; reflexivity.
Qed.



(** * Further properties of the routes *)

(** ** Identity and membership *)

Lemma getMemberIdOrThrow_Thrown header code :
  getMemberIdOrThrow header = Thrown code ↔ code = MISSING_MEMBER_ID ∧ no_identity header.
Proof.
  unfold getMemberIdOrThrow, no_identity. destruct header as [h|]; simpl.
  - destruct (decide (trim h = "")) as [Hh|Hh]; split.
    + intros [= <-]. eauto.
    + by intros [-> _].
    + done.
    + intros [_ [Hn|(h2 & [= <-] & He)]]; done.
  - split; [intros [= <-]; auto|by intros [-> _]].
Qed.

Lemma getMemberIdOrThrow_Returned header memberId :
  getMemberIdOrThrow header = Returned memberId ↔
  ∃ h, header = Some h ∧ memberId = trim h ∧ memberId ≠ "".
Proof.
  unfold getMemberIdOrThrow. destruct header as [h|]; simpl.
  - destruct (decide (trim h = "")) as [Hh|Hh]; split.
    + done.
    + intros (h2 & [= <-] & -> & Hne). done.
    + intros [= <-]. eauto.
    + intros (h2 & [= <-] & -> & Hne). done.
  - split; [done|]. by intros (h & ? & _).
Qed.

(** X1: a request without identity is answered MISSING_MEMBER_ID (401) by
    every task route before any store call; the world is left as it was. *)
Theorem no_identity_no_store_call header w projectId taskId
    (create : option CreateTaskBody) (layout : option (list BoardUpdate))
    (patch : option TaskPatch) :
  no_identity header →
  run (TasksRoute.POST projectId header create) w
    = (JsonError MISSING_MEMBER_ID 401, w)
  ∧ calls (TasksRoute.POST projectId header create) w = []
  ∧ run (BoardRoute.GET projectId header) w = (JsonError MISSING_MEMBER_ID 401, w)
  ∧ calls (BoardRoute.GET projectId header) w = []
  ∧ run (BoardRoute.PUT projectId header layout) w
    = (JsonError MISSING_MEMBER_ID 401, w)
  ∧ calls (BoardRoute.PUT projectId header layout) w = []
  ∧ run (TaskRoute.PATCH taskId header patch) w
    = (JsonError MISSING_MEMBER_ID 401, w)
  ∧ calls (TaskRoute.PATCH taskId header patch) w = []
  ∧ run (TaskRoute.DELETE taskId header) w = (JsonError MISSING_MEMBER_ID 401, w)
  ∧ calls (TaskRoute.DELETE taskId header) w = [].
Proof.
  intros Hno.
  assert (getMemberIdOrThrow header = Thrown MISSING_MEMBER_ID) as Hid
    by (by apply getMemberIdOrThrow_Thrown).
  unfold TasksRoute.POST, BoardRoute.GET, BoardRoute.PUT, TaskRoute.PATCH,
    TaskRoute.DELETE. rewrite Hid. repeat split; reflexivity.
Qed.

Lemma no_identity_no_store_call_witness :
  run (BoardRoute.PUT "P" (Some "   ") (Some [Sample.entry "A" DONE 3]))
    (Sample.world_of Sample.two_todo)
  = (JsonError MISSING_MEMBER_ID 401, Sample.world_of Sample.two_todo).
Proof.
  refine (proj1 (proj2 (proj2 (proj2 (proj2
            (no_identity_no_store_call (Some "   ") (Sample.world_of Sample.two_todo)
               "P" "A" None (Some [Sample.entry "A" DONE 3]) None _)))))).
  right. exists "   ". split; reflexivity.
Defined.

(** X2: a caller with an identity that is not a member of the project is
    answered FORBIDDEN (403) by the project's routes, whatever the body; the
    only store call is the membership lookup and the world is unchanged. *)
Theorem non_member_is_forbidden header memberId w projectId
    (create : option CreateTaskBody) (layout : option (list BoardUpdate)) :
  getMemberIdOrThrow header = Returned memberId →
  projectMembers (store w) !! (projectId, memberId) = None →
  run (TasksRoute.POST projectId header create) w = (JsonError FORBIDDEN 403, w)
  ∧ calls (TasksRoute.POST projectId header create) w
    = [Ev (ProjectMemberFindUnique projectId memberId)]
  ∧ run (BoardRoute.GET projectId header) w = (JsonError FORBIDDEN 403, w)
  ∧ calls (BoardRoute.GET projectId header) w
    = [Ev (ProjectMemberFindUnique projectId memberId)]
  ∧ run (BoardRoute.PUT projectId header layout) w = (JsonError FORBIDDEN 403, w)
  ∧ calls (BoardRoute.PUT projectId header layout) w
    = [Ev (ProjectMemberFindUnique projectId memberId)].
Proof.
  intros Hid Hpm.
  unfold TasksRoute.POST, BoardRoute.GET, BoardRoute.PUT. rewrite Hid.
  cbn [bind assertMemberInProject run calls exec]. rewrite Hpm.
  repeat split; reflexivity.
Qed.

Lemma non_member_is_forbidden_witness :
  run (BoardRoute.GET "P" (Some "carol")) (Sample.world_of Sample.two_todo)
  = (JsonError FORBIDDEN 403, Sample.world_of Sample.two_todo).
Proof.
  refine (proj1 (proj2 (proj2
            (non_member_is_forbidden (Some "carol") "carol"
               (Sample.world_of Sample.two_todo) "P" None None _ _)))).
  - reflexivity.
  - reflexivity.
Defined.

(** X3: a caller who is not a member of a task's project can neither change
    nor delete the task: PATCH and DELETE answer an error and leave the
    world as it was. *)
Theorem non_member_cannot_touch_task header w taskId row (patch : option TaskPatch) :
  tasks (store w) !! taskId = Some row →
  (∀ memberId, ¬ member_of w (row_projectId row) header memberId) →
  (run (TaskRoute.DELETE taskId header) w = (JsonError MISSING_MEMBER_ID 401, w)
   ∨ run (TaskRoute.DELETE taskId header) w = (JsonError FORBIDDEN 403, w))
  ∧ (run (TaskRoute.PATCH taskId header patch) w = (JsonError MISSING_MEMBER_ID 401, w)
     ∨ run (TaskRoute.PATCH taskId header patch) w = (JsonError INVALID_BODY 400, w)
     ∨ run (TaskRoute.PATCH taskId header patch) w = (JsonError FORBIDDEN 403, w)).
Proof.
  intros Hrow Hnot. unfold TaskRoute.DELETE, TaskRoute.PATCH.
  destruct (getMemberIdOrThrow header) as [memberId|code] eqn:Hid.
  - assert (projectMembers (store w) !! (row_projectId row, memberId) = None) as Hpm.
    { destruct (projectMembers (store w) !! (row_projectId row, memberId)) eqn:Hpm;
        [|done].
      destruct (Hnot memberId). split; [done|eauto]. }
    split.
    + right. simpl. rewrite Hrow. simpl. by rewrite Hpm.
    + destruct (PatchTaskSchema patch); [|auto].
      right. right. simpl. rewrite Hrow. simpl. by rewrite Hpm.
  - apply getMemberIdOrThrow_Thrown in Hid as [-> _]. auto.
Qed.

Lemma non_member_cannot_touch_task_witness :
  run (TaskRoute.DELETE "A" (Some "carol")) (Sample.world_of Sample.two_todo)
  = (JsonError FORBIDDEN 403, Sample.world_of Sample.two_todo).
Proof.
  destruct (non_member_cannot_touch_task (Some "carol")
              (Sample.world_of Sample.two_todo) "A"
              (Sample.task "P" "first" TODO 0 10) None) as [[H|H] _].
  - reflexivity.
  - intros memberId [Hid [pm Hpm]]. injection Hid as <-. discriminate.
  - discriminate.
  - exact H.
Defined.

(** ** What the task routes never write *)

Lemma exec_directory {X} (q : Query X) w :
  ¬ writes_directory (Ev q) → directory (store (exec q w).2) = directory (store w).
Proof.
  destruct q; simpl; intros Hq; try done.
  - by destruct (tasks (store w) !! next_id w).
  - by destruct (update_all updates (now w) (tasks (store w))).
  - by destruct (tasks (store w) !! id).
  - by destruct (tasks (store w) !! id).
Qed.

Lemma every_call_bind {A B} (P : Event → Prop) (p : Prog A) (f : A → Prog B) :
  every_call P p → (∀ a, every_call P (f a)) → every_call P (bind p f).
Proof.
  intros Hp Hf. induction Hp as [a|X q k Hq Hk IH]; simpl; [done|].
  constructor; [done|]. intros x. apply IH.
Qed.

Lemma run_directory {A} (p : Prog A) w :
  every_call (λ e, ¬ writes_directory e) p →
  directory (store (run p w).2) = directory (store w).
Proof.
  intros Hp. revert w. induction Hp as [a|X q k Hq Hk IH]; intros w; simpl; [done|].
  pose proof (exec_directory q w Hq) as Hexec.
  destruct (exec q w) as [x w1]. rewrite IH. exact Hexec.
Qed.

Lemma run_schedule_directory {A} (sched : list nat) (pool : list (Prog A)) w :
  Forall (every_call (λ e, ¬ writes_directory e)) pool →
  directory (store (run_schedule sched pool w).2) = directory (store w)
  ∧ Forall (every_call (λ e, ¬ writes_directory e)) (run_schedule sched pool w).1.
Proof.
  revert pool w. induction sched as [|i sched IH]; intros pool w Hpool; simpl; [done|].
  destruct (pool !! i) as [p|] eqn:Hi; [|by apply IH].
  assert (every_call (λ e, ¬ writes_directory e) p) as Hp
    by (by eapply Forall_lookup_1).
  destruct Hp as [a|X q k Hq Hk]; simpl.
  - apply IH. by rewrite list_insert_id.
  - pose proof (exec_directory q w Hq) as Hexec.
    destruct (exec q w) as [x w1].
    destruct (IH (<[i := k x]> pool) w1) as [Hdir Hall].
    + apply Forall_insert; [done|apply Hk].
    + split; [|done]. rewrite Hdir. exact Hexec.
Qed.

Ltac every_call_auto :=
  repeat first
    [ apply every_call_Ret
    | apply every_call_Call; [by intros []| intros ? ]
    | match goal with
      | |- every_call _ (match ?x with _ => _ end) => destruct x
      | |- every_call _ (if ?x then _ else _) => destruct x
      end ].

Lemma task_routes_call_tasks_only projectId taskId header
    (create : option CreateTaskBody) (layout : option (list BoardUpdate))
    (patch : option TaskPatch) :
  every_call (λ e, ¬ writes_directory e) (TasksRoute.POST projectId header create)
  ∧ every_call (λ e, ¬ writes_directory e) (BoardRoute.GET projectId header)
  ∧ every_call (λ e, ¬ writes_directory e) (BoardRoute.PUT projectId header layout)
  ∧ every_call (λ e, ¬ writes_directory e) (TaskRoute.PATCH taskId header patch)
  ∧ every_call (λ e, ¬ writes_directory e) (TaskRoute.DELETE taskId header).
Proof.
  unfold TasksRoute.POST, BoardRoute.GET, BoardRoute.PUT, TaskRoute.PATCH,
    TaskRoute.DELETE, TasksRoute.append, TaskRoute.update.
  cbn [bind assertMemberInProject].
  repeat split; every_call_auto.
Qed.

(** X4: no task route ever writes to Member, Project or ProjectMember: run
    alone, each of the five handlers leaves these tables as they were, and
    so does every interleaving of any number of such requests. *)
Theorem task_routes_keep_directory projectId taskId header
    (create : option CreateTaskBody) (layout : option (list BoardUpdate))
    (patch : option TaskPatch) w :
  directory (store (run (TasksRoute.POST projectId header create) w).2)
    = directory (store w)
  ∧ directory (store (run (BoardRoute.GET projectId header) w).2) = directory (store w)
  ∧ directory (store (run (BoardRoute.PUT projectId header layout) w).2)
    = directory (store w)
  ∧ directory (store (run (TaskRoute.PATCH taskId header patch) w).2)
    = directory (store w)
  ∧ directory (store (run (TaskRoute.DELETE taskId header) w).2) = directory (store w)
  ∧ ∀ (sched : list nat) (pool : list (Prog ())),
      Forall task_request pool →
      directory (store (run_schedule sched pool w).2) = directory (store w).
Proof.
  destruct (task_routes_call_tasks_only projectId taskId header create layout patch)
    as (H1 & H2 & H3 & H4 & H5).
  repeat (split; [by apply run_directory|]).
  intros sched pool Hpool. apply run_schedule_directory.
  eapply Forall_impl; [exact Hpool|]. simpl.
  intros p [p0 h0 c0|p0 h0|p0 h0 c0|t0 h0 c0|t0 h0];
    (apply every_call_bind; [|intros; constructor]).
  - apply (task_routes_call_tasks_only p0 "" h0 c0 None None).
  - apply (task_routes_call_tasks_only p0 "" h0 None None None).
  - apply (task_routes_call_tasks_only p0 "" h0 None c0 None).
  - apply (task_routes_call_tasks_only "" t0 h0 None None c0).
  - apply (task_routes_call_tasks_only "" t0 h0 None None None).
Qed.

(** ** Patch-task, in full *)

Lemma PatchTaskSchema_Some json parsed :
  PatchTaskSchema json = Some parsed →
  ∃ b, json = Some b
       ∧ patch_title parsed = trim <$> patch_title b
       ∧ patch_status parsed = patch_status b
       ∧ patch_order parsed = patch_order b
       ∧ patch_dueDate parsed = patch_dueDate b
       ∧ patch_assigneeId parsed = patch_assigneeId b
       ∧ (∀ a, patch_assigneeId parsed = Some (Some a) → a ≠ "")
       ∧ (∀ o, patch_order parsed = Some o → 0 ≤ o ≤ 1000000)
       ∧ (∀ t, patch_title parsed = Some t → (1 ≤ String.length t ≤ 120)%nat).
Proof.
  unfold PatchTaskSchema. destruct json as [b|]; [|done].
  destruct (_ && _) eqn:Hchecks; [|done]. intros [= <-]. exists b. simpl.
  rewrite !andb_true_iff in Hchecks.
  destruct Hchecks as [[[[Ht _] Ho] Ha] _].
  split_and!; try done.
  - intros a Heq ->. by rewrite Heq in Ha.
  - intros o Heq. rewrite Heq in Ho. simpl in Ho.
    by apply bool_decide_eq_true in Ho.
  - intros t Heq. destruct (patch_title b) as [t0|]; [|done]. simpl in *.
    injection Heq as <-. by apply bool_decide_eq_true in Ht.
Qed.

(** The data PATCH hands to task.update is the parsed body. *)
Lemma run_PATCH_member w taskId header memberId json parsed row :
  tasks (store w) !! taskId = Some row →
  member_of w (row_projectId row) header memberId →
  PatchTaskSchema json = Some parsed →
  run (TaskRoute.PATCH taskId header json) w
  = match patch_assigneeId parsed with
    | Some (Some a) =>
        if decide (a = "") then
          (Json (select_task taskId (apply_patch parsed (now w) row)),
           set_store (tick w)
             (set_tasks (store w)
                (<[taskId := apply_patch parsed (now w) row]> (tasks (store w)))))
        else match projectMembers (store w) !! (row_projectId row, a) with
             | None => (JsonError ASSIGNEE_NOT_IN_PROJECT 400, w)
             | Some _ =>
                 (Json (select_task taskId (apply_patch parsed (now w) row)),
                  set_store (tick w)
                    (set_tasks (store w)
                       (<[taskId := apply_patch parsed (now w) row]>
                          (tasks (store w)))))
             end
    | _ =>
        (Json (select_task taskId (apply_patch parsed (now w) row)),
         set_store (tick w)
           (set_tasks (store w)
              (<[taskId := apply_patch parsed (now w) row]> (tasks (store w)))))
    end.
Proof.
  intros Hrow [Hid [pm Hpm]] Hparse. unfold TaskRoute.PATCH, TaskRoute.update.
  rewrite Hid, Hparse. simpl. rewrite Hrow. simpl. rewrite Hpm.
  destruct parsed as [ti de st or du [[a|]|]]; simpl.
  - destruct (decide (a = "")); simpl.
    + by rewrite Hrow.
    + destruct (projectMembers (store w) !! (row_projectId row, a)); simpl; [|done].
      by rewrite Hrow.
  - by rewrite Hrow.
  - by rewrite Hrow.
Qed.

(** X5: a member's PATCH with an accepted body (and an assignee, if one is
    set, who is a member of the project) writes exactly the keys of the body:
    a key that is absent leaves its column, the project, creator and creation
    time of the task are kept, updatedAt is set, the answer is the stored
    row, and no other task changes. *)
Theorem patch_writes_given_keys w taskId header memberId json parsed row :
  tasks (store w) !! taskId = Some row →
  member_of w (row_projectId row) header memberId →
  PatchTaskSchema json = Some parsed →
  (∀ a, patch_assigneeId parsed = Some (Some a) →
        is_Some (projectMembers (store w) !! (row_projectId row, a))) →
  ∃ w2 row2,
    run (TaskRoute.PATCH taskId header json) w = (Json (select_task taskId row2), w2)
    ∧ tasks (store w2) = <[taskId := row2]> (tasks (store w))
    ∧ row_title row2 = default (row_title row) (patch_title parsed)
    ∧ row_description row2 = default (row_description row) (patch_description parsed)
    ∧ row_status row2 = default (row_status row) (patch_status parsed)
    ∧ row_order row2 = default (row_order row) (patch_order parsed)
    ∧ row_dueDate row2 = default (row_dueDate row) (patch_dueDate parsed)
    ∧ row_assigneeId row2 = default (row_assigneeId row) (patch_assigneeId parsed)
    ∧ row_projectId row2 = row_projectId row
    ∧ row_creatorId row2 = row_creatorId row
    ∧ row_createdAt row2 = row_createdAt row
    ∧ row_updatedAt row2 = now w.
Proof.
  intros Hrow Hmem Hparse Hassignee.
  rewrite (run_PATCH_member _ _ _ _ _ _ _ Hrow Hmem Hparse).
  exists (set_store (tick w)
            (set_tasks (store w)
               (<[taskId := apply_patch parsed (now w) row]> (tasks (store w))))),
    (apply_patch parsed (now w) row).
  split; [|repeat split].
  destruct (patch_assigneeId parsed) as [[a|]|] eqn:Ha; [|done..].
  destruct (decide (a = "")); [done|].
  by destruct (Hassignee a eq_refl) as [pm ->].
Qed.

Lemma patch_writes_given_keys_witness :
  ∃ w2 row2,
    run (TaskRoute.PATCH "A" (Some "bob")
           (Some (TaskRoute.set_assigneeId (layout_patch DONE 7) (Some "bob"))))
      (Sample.world_of Sample.two_todo) = (Json (select_task "A" row2), w2)
    ∧ row_title row2 = "first" ∧ row_status row2 = DONE ∧ row_order row2 = 7
    ∧ row_assigneeId row2 = Some "bob".
Proof.
  destruct (patch_writes_given_keys (Sample.world_of Sample.two_todo) "A"
              (Some "bob") "bob"
              (Some (TaskRoute.set_assigneeId (layout_patch DONE 7) (Some "bob")))
              (TaskRoute.set_assigneeId (layout_patch DONE 7) (Some "bob"))
              (Sample.task "P" "first" TODO 0 10))
    as (w2 & row2 & Hrun & _ & Ht & _ & Hs & Ho & _ & Ha & _).
  - reflexivity.
  - split; [reflexivity|]. vm_compute. eauto.
  - reflexivity.
  - intros a [= <-]. vm_compute. eauto.
  - exists w2, row2. split; [exact Hrun|]. rewrite Ht, Hs, Ho, Ha. done.
Defined.

(** X6: PATCH on a task id that does not exist is answered TASK_NOT_FOUND
    (404) once the identity and the body are accepted, and changes nothing;
    membership is not looked up. *)
Theorem patch_missing_task_is_404 w taskId header memberId json :
  getMemberIdOrThrow header = Returned memberId →
  is_Some (PatchTaskSchema json) →
  tasks (store w) !! taskId = None →
  run (TaskRoute.PATCH taskId header json) w = (JsonError TASK_NOT_FOUND 404, w)
  ∧ calls (TaskRoute.PATCH taskId header json) w = [Ev (TaskFindUnique taskId)].
Proof.
  intros Hid [parsed Hparse] Hnone. unfold TaskRoute.PATCH.
  rewrite Hid, Hparse. simpl. by rewrite Hnone.
Qed.

Lemma patch_missing_task_is_404_witness :
  run (TaskRoute.PATCH "nope" (Some "alice") (Some (layout_patch DONE 7)))
    (Sample.world_of Sample.two_todo)
  = (JsonError TASK_NOT_FOUND 404, Sample.world_of Sample.two_todo).
Proof.
  apply (patch_missing_task_is_404 (Sample.world_of Sample.two_todo) "nope"
           (Some "alice") "alice" (Some (layout_patch DONE 7))).
  - reflexivity.
  - vm_compute. eauto.
  - reflexivity.
Defined.

(** ** What an answer tells about the store *)

Lemma run_PATCH_inv w taskId header json resp w2 :
  run (TaskRoute.PATCH taskId header json) w = (resp, w2) →
  match resp with
  | Json task =>
      ∃ row parsed memberId,
        tasks (store w) !! taskId = Some row
        ∧ member_of w (row_projectId row) header memberId
        ∧ PatchTaskSchema json = Some parsed
        ∧ (∀ a, patch_assigneeId parsed = Some (Some a) →
                is_Some (projectMembers (store w) !! (row_projectId row, a)))
        ∧ task = select_task taskId (apply_patch parsed (now w) row)
        ∧ w2 = set_store (tick w)
                 (set_tasks (store w)
                    (<[taskId := apply_patch parsed (now w) row]> (tasks (store w))))
  | _ => store w2 = store w
  end.
Proof.
  destruct (getMemberIdOrThrow header) as [memberId|code] eqn:Hid.
  2: { unfold TaskRoute.PATCH. rewrite Hid. by intros [= <- <-]. }
  destruct (PatchTaskSchema json) as [parsed|] eqn:Hparse.
  2: { unfold TaskRoute.PATCH. rewrite Hid, Hparse. by intros [= <- <-]. }
  destruct (tasks (store w) !! taskId) as [row|] eqn:Hrow.
  2: { unfold TaskRoute.PATCH. rewrite Hid, Hparse. simpl. rewrite Hrow.
       by intros [= <- <-]. }
  destruct (projectMembers (store w) !! (row_projectId row, memberId)) as [pm|] eqn:Hpm.
  2: { unfold TaskRoute.PATCH. rewrite Hid, Hparse. simpl. rewrite Hrow. simpl.
       rewrite Hpm. by intros [= <- <-]. }
  assert (member_of w (row_projectId row) header memberId) as Hmem
    by (split; [done|eauto]).
  rewrite (run_PATCH_member _ _ _ _ _ _ _ Hrow Hmem Hparse).
  destruct (PatchTaskSchema_Some _ _ Hparse) as (b & _ & _ & _ & _ & _ & _ & Hne & _).
  destruct (patch_assigneeId parsed) as [[a|]|] eqn:Ha.
  - destruct (decide (a = "")) as [->|Hna]; [by destruct (Hne "")|].
    destruct (projectMembers (store w) !! (row_projectId row, a)) as [pma|] eqn:Hpma.
    + intros [= <- <-]. exists row, parsed, memberId. split_and!; try done.
      intros a2 Ha2. rewrite Ha in Ha2. injection Ha2 as <-. rewrite Hpma. eauto.
    + by intros [= <- <-].
  - intros [= <- <-]. exists row, parsed, memberId. split_and!; try done.
    intros a2 Ha2. congruence.
  - intros [= <- <-]. exists row, parsed, memberId. split_and!; try done.
    intros a2 Ha2. congruence.
Qed.

Lemma run_DELETE_inv w taskId header resp w2 :
  run (TaskRoute.DELETE taskId header) w = (resp, w2) →
  store w2 = store w
  ∨ (resp = Json ()
     ∧ ∃ row memberId,
         tasks (store w) !! taskId = Some row
         ∧ member_of w (row_projectId row) header memberId
         ∧ w2 = set_store w (set_tasks (store w) (delete taskId (tasks (store w))))).
Proof.
  unfold TaskRoute.DELETE.
  destruct (getMemberIdOrThrow header) as [memberId|code] eqn:Hid;
    [|intros [= <- <-]; by left].
  simpl. destruct (tasks (store w) !! taskId) as [row|] eqn:Hrow; simpl;
    [|intros [= <- <-]; by left].
  destruct (projectMembers (store w) !! (row_projectId row, memberId)) as [pm|] eqn:Hpm;
    simpl; [|intros [= <- <-]; by left].
  rewrite Hrow. intros [= <- <-]. right. split; [done|].
  exists row, memberId. by split_and!.
Qed.

Lemma run_GET_world w projectId header :
  (run (BoardRoute.GET projectId header) w).2 = w.
Proof.
  unfold BoardRoute.GET. destruct (getMemberIdOrThrow header); [|done].
  simpl. destruct (projectMembers (store w) !! (projectId, a)); [|done].
  simpl. by destruct (projects (store w) !! projectId).
Qed.

(** X7: a task route that does not answer with its success body has written
    nothing to the store, and the board fetch leaves the whole world as it
    was whatever it answers. *)
Theorem error_answers_write_nothing w projectId taskId header
    (create : option CreateTaskBody) (layout : option (list BoardUpdate))
    (patch : option TaskPatch) :
  match (run (TasksRoute.POST projectId header create) w).1 with
  | Json _ => True
  | _ => store (run (TasksRoute.POST projectId header create) w).2 = store w
  end
  ∧ match (run (BoardRoute.PUT projectId header layout) w).1 with
    | Json _ => True
    | _ => store (run (BoardRoute.PUT projectId header layout) w).2 = store w
    end
  ∧ match (run (TaskRoute.PATCH taskId header patch) w).1 with
    | Json _ => True
    | _ => store (run (TaskRoute.PATCH taskId header patch) w).2 = store w
    end
  ∧ match (run (TaskRoute.DELETE taskId header) w).1 with
    | Json _ => True
    | _ => store (run (TaskRoute.DELETE taskId header) w).2 = store w
    end
  ∧ (run (BoardRoute.GET projectId header) w).2 = w.
Proof.
  split_and!.
  - pose proof (run_POST_inv w projectId header create) as H.
    destruct (run _ w) as [resp w2]. specialize (H _ _ eq_refl).
    by destruct resp.
  - pose proof (run_PUT_inv w projectId header layout) as H.
    destruct (run _ w) as [resp w2]. specialize (H _ _ eq_refl).
    by destruct resp.
  - pose proof (run_PATCH_inv w taskId header patch) as H.
    destruct (run _ w) as [resp w2]. specialize (H _ _ eq_refl).
    by destruct resp.
  - pose proof (run_DELETE_inv w taskId header) as H.
    destruct (run _ w) as [resp w2]. specialize (H _ _ eq_refl).
    destruct H as [H|[-> _]]; [|done]. by destruct resp.
  - apply run_GET_world.
Qed.

(** ** Append, in full *)

Lemma CreateTaskSchema_Some json data :
  CreateTaskSchema json = Some data →
  ∃ b, json = Some b
       ∧ ct_title data = trim (ct_title b)
       ∧ ct_description data = trim <$> ct_description b
       ∧ ct_status data = ct_status b
       ∧ ct_dueDate data = ct_dueDate b
       ∧ ct_assigneeId data = ct_assigneeId b
       ∧ (1 ≤ String.length (ct_title data) ≤ 120)%nat
       ∧ (∀ d, ct_description data = Some d → (String.length d ≤ 2000)%nat)
       ∧ (∀ a, ct_assigneeId data = Some a → a ≠ "").
Proof.
  unfold CreateTaskSchema. destruct json as [b|]; [|done].
  destruct (_ && _) eqn:Hchecks; [|done]. intros [= <-]. exists b. simpl.
  rewrite !andb_true_iff in Hchecks. destruct Hchecks as [[Ht Hd] Ha].
  split_and!; try done.
  - apply bool_decide_eq_true in Ht. lia.
  - apply bool_decide_eq_true in Ht. lia.
  - intros d Heq. rewrite Heq in Hd. simpl in Hd.
    apply bool_decide_eq_true in Hd. lia.
  - intros a Heq ->. by rewrite Heq in Ha.
Qed.

(** What a created task tells about the store. *)
Lemma run_POST_row w projectId header json task w2 :
  run (TasksRoute.POST projectId header json) w = (Json task, w2) →
  ∃ b memberId r,
    json = Some b
    ∧ member_of w projectId header memberId
    ∧ tasks (store w) !! t_id task = None
    ∧ tasks (store w2) = <[t_id task := r]> (tasks (store w))
    ∧ task = select_task (t_id task) r
    ∧ row_projectId r = projectId
    ∧ row_creatorId r = memberId
    ∧ row_status r = default TODO (ct_status b)
    ∧ row_dueDate r = ct_dueDate b
    ∧ row_assigneeId r = ct_assigneeId b
    ∧ (∀ a, row_assigneeId r = Some a →
            is_Some (projectMembers (store w) !! (projectId, a)))
    ∧ row_createdAt r = now w ∧ row_updatedAt r = now w
    ∧ ∀ k r0, tasks (store w) !! k = Some r0 → tasks (store w2) !! k = Some r0.
Proof.
  intros Hrun.
  apply run_POST_inv in Hrun as (memberId & data & Hmem & Hdata & Hok & Hrun).
  destruct (CreateTaskSchema_Some _ _ Hdata)
    as (b & -> & _ & _ & Hs & Hdue & Ha & _ & _ & Hne).
  unfold TasksRoute.append in Hrun. simpl in Hrun.
  destruct (tasks (store w) !! next_id w) eqn:Hfresh; [done|].
  injection Hrun as <- <-. simpl.
  match goal with |- context [<[_ := ?r0]> _] => exists b, memberId, r0 end.
  simpl. rewrite <- Hs, <- Hdue, <- Ha.
  split_and!; try done.
  - intros a Heq. rewrite Heq in Hok. simpl in Hok. by apply Hok, (Hne a).
  - intros k r0 Hk. rewrite lookup_insert_ne; [done|]. intros <-. congruence.
Qed.

(** X8: whenever POST answers with a task, exactly one row was added, under
    an id that was free, and the answer is that row; the row belongs to the
    project of the route, its creator is the caller, a member of the project;
    its status is that of the body, TODO when the body names none; its due
    date and assignee are those of the body, and the assignee, if any, is a
    member of the project; both timestamps are the write time; every earlier
    row is untouched. *)
Theorem append_creates_one_row w projectId header json task w2 :
  run (TasksRoute.POST projectId header json) w = (Json task, w2) →
  ∃ b memberId r,
    json = Some b
    ∧ member_of w projectId header memberId
    ∧ tasks (store w) !! t_id task = None
    ∧ tasks (store w2) = <[t_id task := r]> (tasks (store w))
    ∧ task = select_task (t_id task) r
    ∧ row_projectId r = projectId
    ∧ row_creatorId r = memberId
    ∧ row_status r = default TODO (ct_status b)
    ∧ row_dueDate r = ct_dueDate b
    ∧ row_assigneeId r = ct_assigneeId b
    ∧ (∀ a, row_assigneeId r = Some a →
            is_Some (projectMembers (store w) !! (projectId, a)))
    ∧ row_createdAt r = now w ∧ row_updatedAt r = now w
    ∧ ∀ k r0, tasks (store w) !! k = Some r0 → tasks (store w2) !! k = Some r0.
Proof. apply run_POST_row. Qed.

Lemma append_creates_one_row_witness :
  ∃ task w2,
    run (TasksRoute.POST "P" (Some "alice") (Some (Sample.titled "third" None)))
      (Sample.world_of Sample.two_todo) = (Json task, w2)
    ∧ t_creatorId task = "alice" ∧ t_status task = TODO.
Proof.
  eexists _, _. split; [vm_compute; reflexivity|].
  destruct (append_creates_one_row (Sample.world_of Sample.two_todo) "P"
              (Some "alice") (Some (Sample.titled "third" None)) _ _ eq_refl)
    as (b & memberId & r & _).
  repeat split.
Defined.

(** ** An invariant of the task table *)

Lemma people_are_members_step s s2 :
  people_are_members s →
  projectMembers s2 = projectMembers s →
  (∀ k r2, tasks s2 !! k = Some r2 →
     (∃ r, tasks s !! k = Some r
           ∧ row_projectId r2 = row_projectId r
           ∧ row_creatorId r2 = row_creatorId r
           ∧ (row_assigneeId r2 = row_assigneeId r
              ∨ ∀ a, row_assigneeId r2 = Some a →
                     is_Some (projectMembers s !! (row_projectId r, a))))
     ∨ (is_Some (projectMembers s !! (row_projectId r2, row_creatorId r2))
        ∧ ∀ a, row_assigneeId r2 = Some a →
               is_Some (projectMembers s !! (row_projectId r2, a)))) →
  people_are_members s2.
Proof.
  intros Hinv Hpm Hrows k r2 Hk. rewrite Hpm.
  destruct (Hrows k r2 Hk) as [(r & Hr & Hp & Hc & Ha)|Hnew]; [|done].
  destruct (Hinv k r Hr) as [Hcre Hass]. rewrite Hp, Hc. split; [done|].
  destruct Ha as [Ha|Ha]; [|done]. by rewrite Ha.
Qed.

Lemma run_projectMembers {A} (p : Prog A) w :
  every_call (λ e, ¬ writes_directory e) p →
  projectMembers (store (run p w).2) = projectMembers (store w).
Proof.
  intros Hp. pose proof (run_directory p w Hp) as Hdir.
  unfold directory in Hdir. congruence.
Qed.

(** X9: if the creator and the assignee of every task are members of the
    task's project, they still are after any request to a task route. *)
Theorem task_routes_keep_people_members w projectId taskId header
    (create : option CreateTaskBody) (layout : option (list BoardUpdate))
    (patch : option TaskPatch) :
  people_are_members (store w) →
  people_are_members (store (run (TasksRoute.POST projectId header create) w).2)
  ∧ people_are_members (store (run (BoardRoute.GET projectId header) w).2)
  ∧ people_are_members (store (run (BoardRoute.PUT projectId header layout) w).2)
  ∧ people_are_members (store (run (TaskRoute.PATCH taskId header patch) w).2)
  ∧ people_are_members (store (run (TaskRoute.DELETE taskId header) w).2).
Proof.
  intros Hinv.
  destruct (task_routes_call_tasks_only projectId taskId header create layout patch)
    as (C1 & C2 & C3 & C4 & C5).
  split_and!.
  - apply (people_are_members_step (store w)); [done|by apply run_projectMembers|].
    destruct (run _ w) as [resp w2] eqn:Hrun. simpl.
    destruct resp as [task| |].
    + apply run_POST_row in Hrun
        as (b & m & r & _ & [_ Hm] & Hfresh & -> & _ & Hp & Hc & _ & _ & _ & Ha & _).
      intros k r2 Hk. destruct (decide (t_id task = k)) as [<-|Hne].
      * rewrite lookup_insert_eq in Hk. injection Hk as <-. right.
        rewrite Hp, Hc. done.
      * rewrite lookup_insert_ne in Hk by done. left. exists r2. auto.
    + apply run_POST_inv in Hrun. rewrite Hrun. intros k r2 Hk. left. exists r2. auto.
    + apply run_POST_inv in Hrun. rewrite Hrun. intros k r2 Hk. left. exists r2. auto.
  - by rewrite run_GET_world.
  - apply (people_are_members_step (store w)); [done|by apply run_projectMembers|].
    destruct (run _ w) as [resp w2] eqn:Hrun. simpl.
    apply run_PUT_inv in Hrun. destruct resp as [[]| |].
    + destruct Hrun as (batch & _ & _ & Hlisted & Hother).
      intros k r2 Hk. left.
      destruct (decide (k ∈ bu_id <$> batch)) as [Hin|Hnotin].
      * apply list_elem_of_fmap in Hin as (u & -> & Hu).
        destruct (Hlisted u Hu) as (r & Hr & Hr2). rewrite Hk in Hr2.
        injection Hr2 as ->. exists r. simpl. auto.
      * rewrite Hother in Hk by done. exists r2. auto.
    + rewrite Hrun. intros k r2 Hk. left. exists r2. auto.
    + rewrite Hrun. intros k r2 Hk. left. exists r2. auto.
  - apply (people_are_members_step (store w)); [done|by apply run_projectMembers|].
    destruct (run _ w) as [resp w2] eqn:Hrun. simpl.
    apply run_PATCH_inv in Hrun. destruct resp as [task| |].
    + destruct Hrun as (row & parsed & m & Hrow & _ & _ & Ha & _ & ->). simpl.
      intros k r2 Hk. left. destruct (decide (taskId = k)) as [<-|Hne].
      * rewrite lookup_insert_eq in Hk. injection Hk as <-. exists row. simpl.
        split_and!; try done.
        destruct (patch_assigneeId parsed) as [[a|]|] eqn:Hpa; simpl.
        -- right. intros a2 [= <-]. by apply Ha.
        -- right. done.
        -- by left.
      * rewrite lookup_insert_ne in Hk by done. exists r2. auto.
    + rewrite Hrun. intros k r2 Hk. left. exists r2. auto.
    + rewrite Hrun. intros k r2 Hk. left. exists r2. auto.
  - apply (people_are_members_step (store w)); [done|by apply run_projectMembers|].
    destruct (run _ w) as [resp w2] eqn:Hrun. simpl.
    apply run_DELETE_inv in Hrun as [->|(_ & row & m & _ & _ & ->)].
    + intros k r2 Hk. left. exists r2. auto.
    + simpl. intros k r2 [_ Hk]%lookup_delete_Some. left. exists r2. auto.
Qed.

Lemma task_routes_keep_people_members_witness :
  people_are_members
    (store (run (TasksRoute.POST "P" (Some "alice") (Some (Sample.titled "one" None)))
              (Sample.world_of Sample.empty_board)).2).
Proof.
  refine (proj1 (task_routes_keep_people_members
                   (Sample.world_of Sample.empty_board) "P" "" (Some "alice")
                   (Some (Sample.titled "one" None)) None None _)).
  intros k r Hk. simpl in Hk. by rewrite lookup_empty in Hk.
Defined.

(** ** Apply-layout: what it leaves alone *)

(** X10: a board update, whatever it answers, creates no task and deletes
    none, keeps the project, title, description, due date, assignee, creator
    and creation time of every task, and leaves every task of another
    project exactly as it was. *)
Theorem apply_layout_frame w projectId header (layout : option (list BoardUpdate)) k :
  (tasks (store (run (BoardRoute.PUT projectId header layout) w).2) !! k = None
   ↔ tasks (store w) !! k = None)
  ∧ ∀ r, tasks (store w) !! k = Some r →
      ∃ r2,
        tasks (store (run (BoardRoute.PUT projectId header layout) w).2) !! k = Some r2
        ∧ row_projectId r2 = row_projectId r
        ∧ row_title r2 = row_title r
        ∧ row_description r2 = row_description r
        ∧ row_dueDate r2 = row_dueDate r
        ∧ row_assigneeId r2 = row_assigneeId r
        ∧ row_creatorId r2 = row_creatorId r
        ∧ row_createdAt r2 = row_createdAt r
        ∧ (row_projectId r ≠ projectId → r2 = r).
Proof.
  destruct (run _ w) as [resp w2] eqn:Hrun. simpl.
  apply run_PUT_inv in Hrun.
  assert (store w2 = store w ∨
          ∃ batch, layout_valid (store w) projectId batch
            ∧ (∀ u, u ∈ batch →
                 ∃ r, tasks (store w) !! bu_id u = Some r
                      ∧ tasks (store w2) !! bu_id u
                        = Some (apply_patch (layout_patch (bu_status u) (bu_order u))
                                  (now w) r))
            ∧ (∀ k, k ∉ bu_id <$> batch →
                 tasks (store w2) !! k = tasks (store w) !! k)) as [->|Hcommit].
  { destruct resp as [[]| |]; [right|by left..].
    destruct Hrun as (batch & _ & ? & ? & ?). by exists batch. }
  { split; [done|]. intros r Hr. exists r. by split_and!. }
  destruct Hcommit as (batch & [_ Hall] & Hlisted & Hother).
  destruct (decide (k ∈ bu_id <$> batch)) as [Hin|Hnotin].
  - apply list_elem_of_fmap in Hin as (u & -> & Hu).
    destruct (Hlisted u Hu) as (r & Hr & Hr2).
    destruct (Hall u Hu) as (r0 & Hr0 & Hp). split.
    + rewrite Hr, Hr2. done.
    + intros r1 Hr1. rewrite Hr in Hr1. injection Hr1 as <-.
      eexists. split; [exact Hr2|]. simpl. split_and!; try done.
      intros Hne. congruence.
  - rewrite Hother by done. split; [done|]. intros r Hr. exists r. by split_and!.
Qed.

(** ** Delete-task composed *)

(** X11: DELETE is idempotent: once it has answered { ok: true }, repeating
    the same request answers { ok: true } again and changes nothing. *)
Theorem delete_twice w taskId header w2 :
  run (TaskRoute.DELETE taskId header) w = (Json (), w2) →
  run (TaskRoute.DELETE taskId header) w2 = (Json (), w2).
Proof.
  unfold TaskRoute.DELETE.
  destruct (getMemberIdOrThrow header) as [memberId|code] eqn:Hid; [|done].
  simpl. destruct (tasks (store w) !! taskId) as [row|] eqn:Hrow; simpl.
  - destruct (projectMembers (store w) !! (row_projectId row, memberId)); [|done].
    simpl. rewrite Hrow. intros [= <-]. simpl. by rewrite lookup_delete_eq.
  - intros [= <-]. by rewrite Hrow.
Qed.

Lemma delete_twice_witness :
  ∃ w2,
    run (TaskRoute.DELETE "A" (Some "alice")) (Sample.world_of Sample.two_todo)
    = (Json (), w2)
    ∧ run (TaskRoute.DELETE "A" (Some "alice")) w2 = (Json (), w2).
Proof.
  eexists. split; [vm_compute; reflexivity|].
  apply (delete_twice (Sample.world_of Sample.two_todo)).
  vm_compute. reflexivity.
Defined.

(** X12: a task that was just created can be deleted by its creator with
    the same identity header, and the task table is then what it was before
    the append. *)
Theorem append_then_delete w projectId header json task w1 :
  run (TasksRoute.POST projectId header json) w = (Json task, w1) →
  ∃ w2,
    run (TaskRoute.DELETE (t_id task) header) w1 = (Json (), w2)
    ∧ tasks (store w2) = tasks (store w).
Proof.
  intros Hrun.
  assert (projectMembers (store w1) = projectMembers (store w)) as Hpm.
  { replace w1 with (run (TasksRoute.POST projectId header json) w).2
      by (by rewrite Hrun).
    apply run_projectMembers,
      (task_routes_call_tasks_only projectId "" header json None None). }
  apply run_POST_row in Hrun
    as (b & m & r & _ & [Hid Hm] & Hfresh & Htasks & _ & Hp & _).
  assert (tasks (store w1) !! t_id task = Some r) as Hrow
    by (rewrite Htasks; apply lookup_insert_eq).
  rewrite (run_DELETE w1 (t_id task) header m r Hrow).
  - eexists. split; [reflexivity|]. simpl.
    rewrite Htasks, delete_insert_eq. by apply delete_id.
  - split; [done|]. by rewrite Hp, Hpm.
Qed.

Lemma append_then_delete_witness :
  ∃ task w1 w2,
    run (TasksRoute.POST "P" (Some "bob") (Some (Sample.titled "temp" (Some DONE))))
      (Sample.world_of Sample.two_todo) = (Json task, w1)
    ∧ run (TaskRoute.DELETE (t_id task) (Some "bob")) w1 = (Json (), w2)
    ∧ tasks (store w2) = tasks (store (Sample.world_of Sample.two_todo)).
Proof.
  destruct (append_then_delete (Sample.world_of Sample.two_todo) "P" (Some "bob")
              (Some (Sample.titled "temp" (Some DONE))) _ _ eq_refl)
    as (w2 & Hrun & Htasks).
  eexists _, _, w2. split; [reflexivity|]. split; [exact Hrun|exact Htasks].
Defined.

(** ** The board fetch: project and members *)

Lemma elem_of_project_member_rows s p role joined member :
  (role, joined, member)
    ∈ omap (λ kr : (string * string) * ProjectMemberRow,
              if decide (kr.1.1 = p)
              then (λ m, (pm_role kr.2, pm_joinedAt kr.2,
                          {| m_id := kr.1.2; m_displayName := member_displayName m |}))
                     <$> members s !! kr.1.2
              else None)
        (map_to_list (projectMembers s))
  ↔ ∃ mr, projectMembers s !! (p, m_id member)
            = Some {| pm_role := role; pm_joinedAt := joined |}
          ∧ members s !! m_id member = Some mr
          ∧ m_displayName member = member_displayName mr.
Proof.
  rewrite list_elem_of_omap. split.
  - intros ([[p0 m] pm] & Hin%elem_of_map_to_list & Hf). simpl in Hf.
    destruct (decide (p0 = p)) as [->|]; [|done].
    destruct (members s !! m) as [mr|] eqn:Hmr; [|done].
    injection Hf as <- <- <-. exists mr. simpl. by destruct pm.
  - intros (mr & Hpm & Hmr & Hname).
    exists ((p, m_id member), {| pm_role := role; pm_joinedAt := joined |}).
    split; [by apply elem_of_map_to_list|]. simpl.
    rewrite decide_True by done. rewrite Hmr. simpl.
    destruct member as [mid mname]. simpl in *. by rewrite Hname.
Qed.

Lemma pm_le_total a b : pm_le a b = true ∨ pm_le b a = true.
Proof. unfold pm_le. z_cases; auto. lia. Qed.

Lemma pm_le_trans a b c : pm_le a b = true → pm_le b c = true → pm_le a c = true.
Proof. unfold pm_le. z_cases; auto; try discriminate. lia. Qed.

(** X13: the board answered to a member names the caller as "me", carries
    the id, name, invite code and update time of the stored project, and
    lists, by joinedAt ascending, exactly the memberships of the project
    whose member exists, each with the member's display name and role. *)
Theorem board_project_and_members w projectId header memberId pr :
  member_of w projectId header memberId →
  projects (store w) !! projectId = Some pr →
  ∃ board (l : list (ProjectRole * Z * Member)),
    run (BoardRoute.GET projectId header) w = (Json board, w)
    ∧ board_me board = memberId
    ∧ board_project board
      = {| bp_id := projectId; bp_name := project_name pr;
           bp_inviteCode := project_inviteCode pr;
           bp_updatedAt := project_updatedAt pr |}
    ∧ board_members board = (λ x, (x.1.1, x.2)) <$> l
    ∧ StronglySorted (λ a b, a.1.2 ≤ b.1.2) l
    ∧ ∀ role joined member,
        (role, joined, member) ∈ l ↔
        ∃ mr, projectMembers (store w) !! (projectId, m_id member)
                = Some {| pm_role := role; pm_joinedAt := joined |}
              ∧ members (store w) !! m_id member = Some mr
              ∧ m_displayName member = member_displayName mr.
Proof.
  intros [Hid [pm Hpm]] Hpr. unfold BoardRoute.GET.
  rewrite Hid, run_assertMemberInProject, Hpm. simpl. rewrite Hpr. simpl.
  eexists _, _. split; [reflexivity|]. simpl.
  split; [done|]. split; [done|]. split; [reflexivity|]. split.
  - eapply StronglySorted_impl;
      [|apply stable_sort_StronglySorted; [apply pm_le_total|apply pm_le_trans]].
    intros a b _ _ Hab. unfold le_rel, pm_le in Hab. lia.
  - intros role joined member. rewrite elem_of_stable_sort.
    apply elem_of_project_member_rows.
Qed.

Lemma board_project_and_members_witness :
  ∃ board,
    run (BoardRoute.GET "P" (Some "bob")) (Sample.world_of Sample.two_todo)
    = (Json board, Sample.world_of Sample.two_todo)
    ∧ board_members board
      = [(OWNER, {| m_id := "alice"; m_displayName := "Alice" |});
         (MEMBER, {| m_id := "bob"; m_displayName := "Bob" |})].
Proof.
  destruct (board_project_and_members (Sample.world_of Sample.two_todo) "P"
              (Some "bob") "bob" (Sample.project "Plan" "AAAAAAAA"))
    as (board & l & Hrun & _).
  - split; [reflexivity|]. vm_compute. eauto.
  - reflexivity.
  - exists board. split; [exact Hrun|].
    vm_compute in Hrun. injection Hrun as <-. reflexivity.
Defined.

(** ** Project creation: what is stored *)

Lemma create_with_retry_store n name m w r w2 :
  run (ProjectsRoute.create_with_retry n name m) w = (r, w2) →
  match r with
  | Some project =>
      ∃ t, p_name project = name
           ∧ projects (store w) !! p_id project = None
           ∧ store w2
             = {| tasks := tasks (store w);
                  projectMembers :=
                    <[(p_id project, m) := {| pm_role := OWNER; pm_joinedAt := t |}]>
                      (projectMembers (store w));
                  projects :=
                    <[p_id project := {| project_name := name;
                                         project_inviteCode := p_inviteCode project;
                                         project_createdAt := t;
                                         project_updatedAt := t |}]>
                      (projects (store w));
                  members := members (store w) |}
  | None => store w2 = store w
  end.
Proof.
  revert w. induction n as [|n IH]; intros w.
  - simpl. by intros [= <- <-].
  - rewrite create_with_retry_S, run_bind, run_generateInviteCode. simpl.
    destruct (decide _) as [Htaken|Hfree]; simpl.
    + intros Hrun. apply IH in Hrun. by destruct r.
    + intros [= <- <-]. simpl. eexists. split; [done|]. split; [|done].
      destruct (projects (store w) !! next_id (draw_bytes 8 w)) eqn:Hid; [|done].
      destruct Hfree. left. eauto.
Qed.

Lemma CreateProjectSchema_Some json parsed :
  CreateProjectSchema json = Some parsed →
  ∃ b, json = Some b
       ∧ cp_projectName parsed = trim (cp_projectName b)
       ∧ cp_displayName parsed = trim (cp_displayName b)
       ∧ (1 ≤ String.length (cp_projectName parsed) ≤ 80)%nat
       ∧ (1 ≤ String.length (cp_displayName parsed) ≤ 40)%nat.
Proof.
  unfold CreateProjectSchema. destruct json as [b|]; [|done].
  destruct (_ && _) eqn:Hchecks; [|done]. intros [= <-]. exists b. simpl.
  rewrite andb_true_iff in Hchecks. destruct Hchecks as [Hp Hd].
  apply bool_decide_eq_true in Hp. apply bool_decide_eq_true in Hd.
  split_and!; (done || lia).
Qed.

Lemma run_projects_POST_inv w json resp w2 :
  run (ProjectsRoute.POST json) w = (resp, w2) →
  match resp with
  | Json (project, member) =>
      ∃ b t t2,
        json = Some b
        ∧ m_id member = next_id w
        ∧ m_displayName member = trim (cp_displayName b)
        ∧ p_name project = trim (cp_projectName b)
        ∧ members (store w) !! m_id member = None
        ∧ projects (store w) !! p_id project = None
        ∧ store w2
          = {| tasks := tasks (store w);
               projectMembers :=
                 <[(p_id project, m_id member)
                   := {| pm_role := OWNER; pm_joinedAt := t2 |}]>
                   (projectMembers (store w));
               projects :=
                 <[p_id project := {| project_name := p_name project;
                                      project_inviteCode := p_inviteCode project;
                                      project_createdAt := t2;
                                      project_updatedAt := t2 |}]>
                   (projects (store w));
               members :=
                 <[m_id member := {| member_displayName := m_displayName member;
                                     member_createdAt := t;
                                     member_updatedAt := t |}]> (members (store w)) |}
  | JsonError INVALID_BODY _ => w2 = w ∧ CreateProjectSchema json = None
  | JsonError _ _ =>
      ∃ b t,
        json = Some b
        ∧ members (store w) !! next_id w = None
        ∧ store w2
          = {| tasks := tasks (store w);
               projectMembers := projectMembers (store w);
               projects := projects (store w);
               members :=
                 <[next_id w := {| member_displayName := trim (cp_displayName b);
                                   member_createdAt := t;
                                   member_updatedAt := t |}]> (members (store w)) |}
  | Uncaught => store w2 = store w ∧ is_Some (members (store w) !! next_id w)
  end.
Proof.
  unfold ProjectsRoute.POST.
  destruct (CreateProjectSchema json) as [parsed|] eqn:Hparse;
    [|by intros [= <- <-]].
  destruct (CreateProjectSchema_Some _ _ Hparse) as (b & -> & Hpn & Hdn & _).
  cbn [run exec].
  destruct (members (store w) !! next_id w) as [mr|] eqn:Hfresh.
  { intros [= <- <-]. split; [done|eauto]. }
  cbn [m_id]. rewrite run_bind.
  destruct (run (ProjectsRoute.create_with_retry _ _ _) _) as [r w3] eqn:Hrun.
  apply create_with_retry_store in Hrun. cbn [fst snd run].
  destruct r as [project|]; intros [= <- <-].
  - destruct Hrun as (t2 & Hname & Hid & ->). simpl in *.
    exists b, (now w), t2. rewrite Hname, <- Hpn, <- Hdn. by split_and!.
  - exists b, (now w). rewrite Hrun, <- Hdn. by split_and!.
Qed.

(** X14: whenever project creation answers with a project and a member, the
    project and the member are new rows, stored with the name, the invite
    code and the display name that the answer carries; the member is stored
    as the OWNER of the project, nothing else of the store changes, and any
    header resolving to the member's id is from then on accepted as a member
    of the project. *)
Theorem project_creation_makes_owner w json project member w2 :
  run (ProjectsRoute.POST json) w = (Json (project, member), w2) →
  ∃ joined,
    members (store w) !! m_id member = None
    ∧ projects (store w) !! p_id project = None
    ∧ tasks (store w2) = tasks (store w)
    ∧ projectMembers (store w2)
      = <[(p_id project, m_id member) := {| pm_role := OWNER; pm_joinedAt := joined |}]>
          (projectMembers (store w))
    ∧ (∃ row, projects (store w2) = <[p_id project := row]> (projects (store w))
              ∧ project_name row = p_name project
              ∧ project_inviteCode row = p_inviteCode project)
    ∧ (∃ row, members (store w2) = <[m_id member := row]> (members (store w))
              ∧ member_displayName row = m_displayName member)
    ∧ ∀ header, getMemberIdOrThrow header = Returned (m_id member) →
                member_of w2 (p_id project) header (m_id member).
Proof.
  intros Hrun. apply run_projects_POST_inv in Hrun
    as (b & t & t2 & Hb & Hid & Hdn & Hpn & Hm & Hp & Hstore).
  exists t2. rewrite Hstore. simpl. split_and!; try done.
  - eexists. split; [reflexivity|done].
  - eexists. split; [reflexivity|done].
  - intros header Hh. split; [done|]. rewrite Hstore. simpl.
    rewrite lookup_insert_eq. eauto.
Qed.

Lemma project_creation_makes_owner_witness :
  ∃ project member w2,
    run (ProjectsRoute.POST
           (Some {| cp_projectName := "Plan B"; cp_displayName := "Dave" |}))
      (Sample.world_of Sample.empty_board) = (Json (project, member), w2)
    ∧ pm_role <$> projectMembers (store w2) !! (p_id project, m_id member)
      = Some OWNER.
Proof.
  destruct (project_creation_makes_owner (Sample.world_of Sample.empty_board)
              (Some {| cp_projectName := "Plan B"; cp_displayName := "Dave" |})
              _ _ _ eq_refl) as (joined & _).
  eexists _, _, _. split; [reflexivity|]. reflexivity.
Defined.



(** ** Joining a project *)

Lemma project_by_inviteCode_Some s code project :
  JoinRoute.project_by_inviteCode s code = Some project →
  p_inviteCode project = code
  ∧ ∃ row, projects s !! p_id project = Some row
           ∧ project_inviteCode row = code
           ∧ project_name row = p_name project.
Proof.
  unfold JoinRoute.project_by_inviteCode.
  destruct (head _) as [[k row]|] eqn:Hhead; [|done].
  intros [= <-]. simpl.
  apply head_Some_elem_of, list_elem_of_filter in Hhead as [Hcode Hin].
  apply elem_of_map_to_list in Hin. simpl in Hcode. eauto.
Qed.

Lemma project_by_inviteCode_None s code :
  JoinRoute.project_by_inviteCode s code = None ↔ code ∉ invite_codes s.
Proof.
  unfold JoinRoute.project_by_inviteCode, invite_codes.
  rewrite fmap_None, head_None. split.
  - intros Hnil (kr & -> & Hin)%list_elem_of_fmap.
    by eapply (filter_nil_not_elem_of _ _ kr) in Hnil.
  - intros Hnot.
    destruct (filter _ _) as [|kr l] eqn:Hf; [done|]. destruct Hnot.
    assert (kr ∈ kr :: l) as Hin by (by left).
    rewrite <- Hf in Hin. apply list_elem_of_filter in Hin as [<- Hin].
    apply list_elem_of_fmap. by exists kr.
Qed.

(** The lookup by invite code finds the project when no other has the code. *)
Lemma project_by_inviteCode_unique s code k row :
  projects s !! k = Some row →
  project_inviteCode row = code →
  (∀ k2 row2, projects s !! k2 = Some row2 → project_inviteCode row2 = code → k2 = k) →
  JoinRoute.project_by_inviteCode s code
  = Some {| p_id := k; p_name := project_name row; p_inviteCode := code |}.
Proof.
  intros Hk Hcode Huniq.
  destruct (JoinRoute.project_by_inviteCode s code) as [project|] eqn:Hfind.
  - apply project_by_inviteCode_Some in Hfind as (Hc & row2 & Hrow2 & Hcode2 & Hname).
    assert (p_id project = k) as Hid by (by eapply Huniq).
    rewrite Hid, Hk in Hrow2. injection Hrow2 as <-.
    destruct project; simpl in *. by subst.
  - apply project_by_inviteCode_None in Hfind. destruct Hfind.
    apply list_elem_of_fmap. exists (k, row). split; [done|].
    by apply elem_of_map_to_list.
Qed.

Lemma JoinProjectSchema_Some ops json parsed :
  JoinProjectSchema ops json = Some parsed →
  ∃ b, json = Some b
       ∧ jp_inviteCode parsed = str_toUpperCase ops (str_trim ops (jp_inviteCode b))
       ∧ jp_displayName parsed = str_trim ops (jp_displayName b)
       ∧ (4 ≤ str_length ops (str_trim ops (jp_inviteCode b)) ≤ 32)%nat
       ∧ (1 ≤ str_length ops (jp_displayName parsed) ≤ 40)%nat.
Proof.
  unfold JoinProjectSchema. destruct json as [b|]; [|done].
  destruct (_ && _) eqn:Hchecks; [|done]. intros [= <-]. exists b. simpl.
  rewrite andb_true_iff in Hchecks. destruct Hchecks as [Hc Hd].
  apply bool_decide_eq_true in Hc. apply bool_decide_eq_true in Hd.
  split_and!; (done || lia).
Qed.

Lemma run_join_inv ops w json resp w2 :
  JoinRoute.POST ops json w = (resp, w2) →
  match resp with
  | Json (project, member) =>
      ∃ b row joined,
        json = Some b
        ∧ projects (store w) !! p_id project = Some row
        ∧ p_inviteCode project
          = str_toUpperCase ops (str_trim ops (jp_inviteCode b))
        ∧ project_inviteCode row = p_inviteCode project
        ∧ project_name row = p_name project
        ∧ m_id member = next_id w
        ∧ m_displayName member = str_trim ops (jp_displayName b)
        ∧ members (store w) !! m_id member = None
        ∧ store w2
          = {| tasks := tasks (store w);
               projectMembers :=
                 <[(p_id project, m_id member)
                   := {| pm_role := MEMBER; pm_joinedAt := joined |}]>
                   (projectMembers (store w));
               projects := projects (store w);
               members :=
                 <[m_id member := {| member_displayName := m_displayName member;
                                     member_createdAt := joined;
                                     member_updatedAt := joined |}]>
                   (members (store w)) |}
  | JsonError error status =>
      w2 = w
      ∧ ((error = INVALID_BODY ∧ status = 400 ∧ JoinProjectSchema ops json = None)
         ∨ (error = PROJECT_NOT_FOUND ∧ status = 404
            ∧ ∃ parsed, JoinProjectSchema ops json = Some parsed
                        ∧ jp_inviteCode parsed ∉ invite_codes (store w)))
  | Uncaught => store w2 = store w
  end.
Proof.
  unfold JoinRoute.POST.
  destruct (JoinProjectSchema ops json) as [parsed|] eqn:Hparse.
  2: { intros [= <- <-]. split; [done|]. by left. }
  destruct (JoinProjectSchema_Some _ _ _ Hparse) as (b & -> & Hcode & Hname & _).
  destruct (JoinRoute.project_by_inviteCode _ _) as [project|] eqn:Hfind.
  2: { intros [= <- <-]. split; [done|]. right. split_and!; try done.
       exists parsed. split; [done|]. by apply project_by_inviteCode_None. }
  apply project_by_inviteCode_Some in Hfind as (Hc & row & Hrow & Hrc & Hrn).
  unfold JoinRoute.member_create_joined.
  destruct (members (store w) !! next_id w) eqn:Hfresh.
  - by intros [= <- <-].
  - intros [= <- <-]. exists b, row, (now w). simpl.
    rewrite <- Hname, <- Hcode. split_and!; try done. congruence.
Qed.

(** X16: whatever the string built-ins are, whenever a join answers with a
    project and a member, the project is a stored project whose invite code
    is the code of the body, trimmed and then upper-cased by the built-ins,
    and the member carries the trimmed display name; one member row and one
    membership of role MEMBER in that project are added under a free id;
    projects, tasks and every earlier member and membership are untouched;
    the new member is from then on accepted as a member of the project and of
    no other. *)
Theorem join_adds_one_member ops w json project member w2 :
  JoinRoute.POST ops json w = (Json (project, member), w2) →
  ∃ b row joined,
    json = Some b
    ∧ projects (store w) !! p_id project = Some row
    ∧ project_inviteCode row = str_toUpperCase ops (str_trim ops (jp_inviteCode b))
    ∧ p_inviteCode project = project_inviteCode row
    ∧ p_name project = project_name row
    ∧ m_displayName member = str_trim ops (jp_displayName b)
    ∧ members (store w) !! m_id member = None
    ∧ projects (store w2) = projects (store w)
    ∧ tasks (store w2) = tasks (store w)
    ∧ projectMembers (store w2)
      = <[(p_id project, m_id member) := {| pm_role := MEMBER; pm_joinedAt := joined |}]>
          (projectMembers (store w))
    ∧ (∃ mr, members (store w2) = <[m_id member := mr]> (members (store w))
             ∧ member_displayName mr = m_displayName member)
    ∧ ∀ header,
        getMemberIdOrThrow header = Returned (m_id member) →
        member_of w2 (p_id project) header (m_id member)
        ∧ ∀ p, p ≠ p_id project →
               projectMembers (store w) !! (p, m_id member) = None →
               ¬ member_of w2 p header (m_id member).
Proof.
  intros Hrun. apply run_join_inv in Hrun
    as (b & row & joined & -> & Hrow & Hcode & Hrc & Hrn & Hid & Hname & Hfresh & Hstore).
  exists b, row, joined. rewrite Hstore. simpl. split_and!; try done; try congruence.
  - eexists. split; [reflexivity|done].
  - intros header Hh. split.
    + split; [done|]. rewrite Hstore. simpl. rewrite lookup_insert_eq. eauto.
    + intros p Hp Hnone [_ [pm Hpm]]. rewrite Hstore in Hpm. simpl in Hpm.
      rewrite lookup_insert_ne in Hpm by congruence. congruence.
Qed.

Lemma join_adds_one_member_witness :
  ∃ project member w2,
    JoinRoute.POST ascii_strings
      (Some {| jp_inviteCode := "  abcdefgh "; jp_displayName := "Eve" |})
      (Sample.world_of Sample.two_todo) = (Json (project, member), w2)
    ∧ p_id project = "Q"
    ∧ pm_role <$> projectMembers (store w2) !! ("Q", m_id member) = Some MEMBER.
Proof.
  destruct (join_adds_one_member ascii_strings (Sample.world_of Sample.two_todo)
              (Some {| jp_inviteCode := "  abcdefgh "; jp_displayName := "Eve" |})
              _ _ _ eq_refl) as (b & row & joined & _).
  eexists _, _, _. split; [reflexivity|]. split; reflexivity.
Defined.

(** X17: whatever the string built-ins are, a join that does not answer
    with a project and a member has written nothing; a body the schema
    rejects is answered INVALID_BODY (400) and a parsed code that no project
    has PROJECT_NOT_FOUND (404), the world unchanged. *)
Theorem join_rejections_write_nothing ops w json :
  match (JoinRoute.POST ops json w).1 with
  | Json _ => True
  | _ => store (JoinRoute.POST ops json w).2 = store w
  end
  ∧ (JoinProjectSchema ops json = None →
     JoinRoute.POST ops json w = (JsonError INVALID_BODY 400, w))
  ∧ (∀ parsed, JoinProjectSchema ops json = Some parsed →
               jp_inviteCode parsed ∉ invite_codes (store w) →
               JoinRoute.POST ops json w = (JsonError PROJECT_NOT_FOUND 404, w)).
Proof.
  split_and!.
  - pose proof (run_join_inv ops w json) as H.
    destruct (JoinRoute.POST ops json w) as [resp w2]. specialize (H _ _ eq_refl).
    destruct resp as [[]| |]; [done| |done]. by destruct H as [-> _].
  - intros Hnone. unfold JoinRoute.POST. by rewrite Hnone.
  - intros parsed Hparse Hnot. unfold JoinRoute.POST. rewrite Hparse.
    apply project_by_inviteCode_None in Hnot. by rewrite Hnot.
Qed.

(** ** Creating a project, then joining it *)

Lemma in_alphabet_plain c : in_alphabet c → upper c = c ∧ is_space c = false.
Proof.
  assert (Forall (λ c, upper c = c ∧ is_space c = false)
            (String.list_ascii_of_string alphabet)) as Hall.
  { apply (bool_decide_unpack _). vm_compute. exact I. }
  rewrite Forall_forall in Hall. apply Hall.
Qed.

Lemma trim_start_no_space l :
  (∀ c l2, l = c :: l2 → is_space c = false) → trim_start l = l.
Proof.
  destruct l as [|c l]; [done|]. intros H. simpl. by rewrite (H c l).
Qed.

Lemma trim_no_space s :
  Forall (λ c, is_space c = false) (String.list_ascii_of_string s) → trim s = s.
Proof.
  intros Hall. unfold trim.
  rewrite (trim_start_no_space (String.list_ascii_of_string s)).
  - rewrite trim_start_no_space.
    + by rewrite rev_involutive, String.string_of_list_ascii_of_string.
    + intros c l2 Hrev. rewrite Forall_forall in Hall. apply Hall.
      apply list_elem_of_In, in_rev. rewrite Hrev. by left.
  - intros c l2 Hl. rewrite Hl in Hall. by apply Forall_inv in Hall.
Qed.

Lemma toUpperCase_upper s :
  Forall (λ c, upper c = c) (String.list_ascii_of_string s) → toUpperCase s = s.
Proof.
  intros Hall. unfold toUpperCase.
  rewrite <- (String.string_of_list_ascii_of_string s) at 2. f_equal.
  induction Hall as [|c l Hc Hl IH]; [done|]. rewrite fmap_cons. by rewrite Hc, IH.
Qed.

(** On ASCII text the built-ins leave an invite code as it is. *)
Lemma ascii_strings_plain : plain_on_invite_codes ascii_strings.
Proof.
  intros code [Hlen Hall]. simpl.
  assert (trim code = code) as Htrim.
  { apply trim_no_space. eapply Forall_impl; [exact Hall|].
    intros c Hc. by apply in_alphabet_plain. }
  split_and!; [done| |done].
  apply toUpperCase_upper. eapply Forall_impl; [exact Hall|].
  intros c Hc. by apply in_alphabet_plain.
Qed.

Lemma run_projects_POST_code w json project member w2 :
  run (ProjectsRoute.POST json) w = (Json (project, member), w2) →
  invite_code_shape (p_inviteCode project)
  ∧ p_inviteCode project ∉ invite_codes (store w).
Proof.
  intros Hrun.
  pose proof (run_projects_POST_inv _ _ _ _ Hrun) as (b & t & t2 & -> & Hid & _ & _
                                                      & Hfresh & _).
  destruct (CreateProjectSchema (Some b)) as [parsed|] eqn:Hparse.
  2: { unfold ProjectsRoute.POST in Hrun. by rewrite Hparse in Hrun. }
  rewrite Hid in Hfresh.
  destruct (run_projects_POST _ _ _ Hparse Hfresh) as (wm & Hwm & Hcand & Hrun2 & _).
  rewrite Hrun in Hrun2.
  destruct (run (ProjectsRoute.create_with_retry _ _ _) wm) as [r w3] eqn:Hloop.
  apply create_with_retry_spec in Hloop as [_ Hres]. simpl in Hrun2.
  destruct r as [project0|]; [|done]. injection Hrun2 as -> _ _.
  destruct Hres as ((k & _ & Hcode) & Hnotin & _).
  split.
  - rewrite Hcode. apply candidate_code_shape.
  - by rewrite Hwm in Hnotin.
Qed.

(** X18: with string built-ins that leave an invite code as it is, the
    invite code of a project that was just created opens that very project.
    The code exactly as returned passes the checks of the join schema on the
    code; and a join with any spelling that the built-ins trim to 4 to 32
    code units and upper-case to the code, with a display name of 1 to 40
    code units after trimming and under a free member id, answers with the
    same project and adds a second member, of role MEMBER, beside the
    OWNER. *)
Theorem created_project_can_be_joined ops w json project owner w1 :
  plain_on_invite_codes ops →
  run (ProjectsRoute.POST json) w = (Json (project, owner), w1) →
  (str_toUpperCase ops (str_trim ops (p_inviteCode project)) = p_inviteCode project
   ∧ (4 ≤ str_length ops (str_trim ops (p_inviteCode project)) ≤ 32)%nat)
  ∧ ∀ typed displayName,
      str_toUpperCase ops (str_trim ops typed) = p_inviteCode project →
      (4 ≤ str_length ops (str_trim ops typed) ≤ 32)%nat →
      (1 ≤ str_length ops (str_trim ops displayName) ≤ 40)%nat →
      members (store w1) !! next_id w1 = None →
      ∃ member w2,
        JoinRoute.POST ops
          (Some {| jp_inviteCode := typed; jp_displayName := displayName |}) w1
        = (Json (project, member), w2)
        ∧ m_id member ≠ m_id owner
        ∧ pm_role <$> projectMembers (store w2) !! (p_id project, m_id member)
          = Some MEMBER
        ∧ pm_role <$> projectMembers (store w2) !! (p_id project, m_id owner)
          = Some OWNER.
Proof.
  intros Hplain Hrun.
  destruct (run_projects_POST_code _ _ _ _ _ Hrun) as [Hshape Hnew].
  split.
  { destruct (Hplain _ Hshape) as (Ht & Hu & Hl). rewrite Ht, Hu, Hl. split; [done|lia]. }
  apply run_projects_POST_inv in Hrun
    as (b & t & t2 & _ & _ & _ & _ & Hmfresh & Hpfresh & Hstore).
  intros typed displayName Htyped Hlen Hname Hfresh.
  assert (JoinProjectSchema ops (Some {| jp_inviteCode := typed;
                                         jp_displayName := displayName |})
          = Some {| jp_inviteCode := p_inviteCode project;
                    jp_displayName := str_trim ops displayName |}) as Hparse.
  { unfold JoinProjectSchema. simpl. rewrite Htyped.
    by rewrite !bool_decide_eq_true_2 by done. }
  assert (JoinRoute.project_by_inviteCode (store w1) (p_inviteCode project)
          = Some project) as Hfind.
  { rewrite (project_by_inviteCode_unique (store w1) (p_inviteCode project)
               (p_id project)
               {| project_name := p_name project;
                  project_inviteCode := p_inviteCode project;
                  project_createdAt := t2; project_updatedAt := t2 |}).
    - by destruct project.
    - rewrite Hstore. simpl. apply lookup_insert_eq.
    - done.
    - intros k2 row2 Hk2 Hcode2. rewrite Hstore in Hk2. simpl in Hk2.
      destruct (decide (p_id project = k2)) as [|Hne]; [done|].
      rewrite lookup_insert_ne in Hk2 by done. destruct Hnew.
      apply list_elem_of_fmap. exists (k2, row2). split; [done|].
      by apply elem_of_map_to_list. }
  unfold JoinRoute.POST. rewrite Hparse. simpl. rewrite Hfind.
  unfold JoinRoute.member_create_joined. rewrite Hfresh.
  assert (next_id w1 ≠ m_id owner) as Hne.
  { intros Heq. rewrite Heq, Hstore in Hfresh. simpl in Hfresh.
    by rewrite lookup_insert_eq in Hfresh. }
  eexists _, _. split; [reflexivity|]. simpl. split; [done|].
  rewrite lookup_insert_eq. split; [done|].
  rewrite lookup_insert_ne by congruence.
  rewrite Hstore. simpl. by rewrite lookup_insert_eq.
Qed.

Lemma created_project_can_be_joined_witness :
  ∃ project owner w1 member w2,
    run (ProjectsRoute.POST
           (Some {| cp_projectName := "Plan B"; cp_displayName := "Dave" |}))
      (Sample.world_of Sample.empty_board) = (Json (project, owner), w1)
    ∧ JoinRoute.POST ascii_strings
        (Some {| jp_inviteCode := " aflrw38d"; jp_displayName := "Eve" |}) w1
      = (Json (project, member), w2).
Proof.
  destruct (created_project_can_be_joined ascii_strings
              (Sample.world_of Sample.empty_board)
              (Some {| cp_projectName := "Plan B"; cp_displayName := "Dave" |})
              _ _ _ ascii_strings_plain eq_refl) as [_ Hjoin].
  eexists _, _, _.
  destruct (Hjoin " aflrw38d" "Eve") as (member & w2 & Hrun & _).
  - reflexivity.
  - vm_compute. lia.
  - vm_compute. lia.
  - reflexivity.
  - exists member, w2. split; [reflexivity|exact Hrun].
Defined.

(** * The board client's column helpers *)

(** ** groupByStatus *)

Lemma by_order_total a b : by_order a b = true ∨ by_order b a = true.
Proof. unfold by_order. z_cases; auto. lia. Qed.

Lemma by_order_trans a b c :
  by_order a b = true → by_order b c = true → by_order a c = true.
Proof. unfold by_order. z_cases; auto; try discriminate. lia. Qed.

(** The sort is stable: the tasks of one order value stay in input order. *)
Lemma insert_by_order_filter (o : Z) x l :
  filter (λ t, t_order t = o) (insert_by by_order x l)
  = filter (λ t, t_order t = o) (x :: l).
Proof.
  induction l as [|y l IH]; simpl; [done|].
  destruct (by_order x y) eqn:Hxy; [done|].
  rewrite filter_cons, IH, !filter_cons.
  unfold by_order in Hxy. apply Z.leb_gt in Hxy.
  destruct (decide (t_order y = o)), (decide (t_order x = o)); try done. lia.
Qed.

Lemma stable_sort_by_order_filter (o : Z) l :
  filter (λ t, t_order t = o) (stable_sort by_order l)
  = filter (λ t, t_order t = o) l.
Proof.
  induction l as [|x l IH]; simpl; [done|].
  by rewrite insert_by_order_filter, !filter_cons, IH.
Qed.

Lemma all_tasks_groupByStatus (tasks : list Task) :
  all_tasks (groupByStatus tasks) ≡ₚ tasks.
Proof.
  unfold all_tasks. rewrite !groupByStatus_spec, !stable_sort_Permutation.
  induction tasks as [|t tasks IH]; [done|].
  rewrite !filter_cons.
  destruct (t_status t); simpl; rewrite ?decide_True, ?decide_False by done.
  - by constructor.
  - rewrite <- Permutation_middle. by constructor.
  - rewrite app_assoc, <- Permutation_middle, <- app_assoc. by constructor.
Qed.

(** X19: groupByStatus loses and duplicates nothing: each column is a
    rearrangement of the input tasks of its status, and the three columns
    together of the whole input; each column is sorted by order ascending;
    tasks of the same status and order keep the order they had in the input;
    a status whose input tasks are already sorted gets them unchanged. *)
Theorem groupByStatus_columns (tasks : list Task) :
  all_tasks (groupByStatus tasks) ≡ₚ tasks
  ∧ ∀ s,
      groupByStatus tasks s ≡ₚ filter (λ t, t_status t = s) tasks
      ∧ StronglySorted (λ a b, t_order a ≤ t_order b) (groupByStatus tasks s)
      ∧ (∀ o, filter (λ t, t_order t = o) (groupByStatus tasks s)
              = filter (λ t, t_order t = o) (filter (λ t, t_status t = s) tasks))
      ∧ (Sorted (λ a b, t_order a ≤ t_order b) (filter (λ t, t_status t = s) tasks) →
         groupByStatus tasks s = filter (λ t, t_status t = s) tasks).
Proof.
  split; [apply all_tasks_groupByStatus|].
  intros s. rewrite groupByStatus_spec. split_and!.
  + apply stable_sort_Permutation.
  + eapply StronglySorted_impl;
      [|apply stable_sort_StronglySorted; [apply by_order_total|apply by_order_trans]].
    intros a b _ _ Hab. unfold le_rel, by_order in Hab. lia.
  + intros o. apply stable_sort_by_order_filter.
  + intros Hsorted. apply stable_sort_sorted.
    induction Hsorted as [|x l Hl IH Hhd]; constructor; [done|].
    destruct Hhd; constructor. unfold le_rel, by_order. lia.
Qed.

(** ** normalizeOrders and flattenUpdates *)

Lemma normalizeOrders_spec columns s :
  normalizeOrders columns s = imap (with_position s) (columns s).
Proof.
  unfold normalizeOrders, STATUSES, set_column. simpl.
  destruct s; repeat case_decide; done.
Qed.

Lemma flattenUpdates_spec columns :
  flattenUpdates columns
  = imap (λ i t, {| bu_id := t_id t; bu_status := TODO; bu_order := Z.of_nat i |})
      (columns TODO)
    ++ imap (λ i t, {| bu_id := t_id t; bu_status := DOING; bu_order := Z.of_nat i |})
         (columns DOING)
    ++ imap (λ i t, {| bu_id := t_id t; bu_status := DONE; bu_order := Z.of_nat i |})
         (columns DONE).
Proof. unfold flattenUpdates, STATUSES. simpl. by rewrite <- app_assoc. Qed.

Lemma imap_key {A B C} (f : nat → A → B) (g : B → C) (h : A → C) (l : list A) :
  (∀ i x, g (f i x) = h x) → g <$> imap f l = h <$> l.
Proof.
  intros Hgf. rewrite fmap_imap, <- imap_const. apply imap_ext.
  intros i x _. apply Hgf.
Qed.

Lemma imap_imap_key {A B C} (f : nat → A → B) (g : nat → B → C) (h : nat → A → C)
    (l : list A) :
  (∀ i x, g i (f i x) = h i x) → imap g (imap f l) = imap h l.
Proof.
  intros Hgf. revert f g h Hgf. induction l as [|x l IH]; intros f g h Hgf; [done|].
  simpl. rewrite Hgf. f_equal. apply IH. intros i y. apply Hgf.
Qed.

(** X20: normalizeOrders keeps every column's tasks in place and rewrites
    only status and order: the task at index i of column s gets status s and
    order i; normalising twice is normalising once. *)
Theorem normalizeOrders_positions (columns : Columns) (s : TaskStatus) :
  length (normalizeOrders columns s) = length (columns s)
  ∧ (∀ i t, columns s !! i = Some t →
       ∃ t2, normalizeOrders columns s !! i = Some t2
             ∧ t_status t2 = s ∧ t_order t2 = Z.of_nat i
             ∧ t_id t2 = t_id t ∧ t_title t2 = t_title t
             ∧ t_description t2 = t_description t ∧ t_dueDate t2 = t_dueDate t
             ∧ t_assigneeId t2 = t_assigneeId t ∧ t_creatorId t2 = t_creatorId t
             ∧ t_createdAt t2 = t_createdAt t ∧ t_updatedAt t2 = t_updatedAt t)
  ∧ normalizeOrders (normalizeOrders columns) s = normalizeOrders columns s.
Proof.
  rewrite !normalizeOrders_spec. split_and!.
  - apply length_imap.
  - intros i t Hi. exists (with_position s i t).
    rewrite list_lookup_imap, Hi. by split_and!.
  - by apply imap_imap_key.
Qed.

(** X21: flattenUpdates lists every task of the board once, column after
    column, with its column as status and its index as order; it does not
    depend on the status and order fields of the tasks, so it gives the same
    batch before and after normalizeOrders. *)
Theorem flattenUpdates_batch (columns : Columns) :
  bu_id <$> flattenUpdates columns = t_id <$> all_tasks columns
  ∧ length (flattenUpdates columns) = length (all_tasks columns)
  ∧ flattenUpdates (normalizeOrders columns) = flattenUpdates columns
  ∧ ∀ u, u ∈ flattenUpdates columns ↔
         ∃ i t, columns (bu_status u) !! i = Some t
                ∧ bu_id u = t_id t ∧ bu_order u = Z.of_nat i.
Proof.
  split_and!.
  - rewrite flattenUpdates_spec. unfold all_tasks. rewrite !fmap_app.
    by rewrite !(imap_key _ bu_id t_id).
  - rewrite flattenUpdates_spec. unfold all_tasks.
    by rewrite !length_app, !length_imap.
  - rewrite !flattenUpdates_spec, !normalizeOrders_spec.
    f_equal; [|f_equal]; by apply imap_imap_key.
  - intros u. split; [apply elem_of_flattenUpdates|].
    intros (i & t & Hi & Hid & Hord). rewrite flattenUpdates_spec, !elem_of_app.
    destruct u as [id st o]. simpl in *. subst id o.
    destruct st; [left|right; left|right; right].
    + by apply (elem_of_lookup_imap_2
                  (λ i t, {| bu_id := t_id t; bu_status := TODO;
                             bu_order := Z.of_nat i |})).
    + by apply (elem_of_lookup_imap_2
                  (λ i t, {| bu_id := t_id t; bu_status := DOING;
                             bu_order := Z.of_nat i |})).
    + by apply (elem_of_lookup_imap_2
                  (λ i t, {| bu_id := t_id t; bu_status := DONE;
                             bu_order := Z.of_nat i |})).
Qed.

(** * From the client's columns to the store and back *)

Lemma NoDup_project_task_ids s p : NoDup (t_id <$> project_tasks s p).
Proof.
  unfold project_tasks. rewrite <- list_fmap_compose.
  apply (sublist_NoDup _ ((map_to_list (tasks s)).*1)).
  - apply NoDup_fst_map_to_list.
  - apply fmap_sublist, sublist_filter.
Qed.

Lemma NoDup_group_and_sort_ids w p s : NoDup (t_id <$> group_and_sort w p s).
Proof.
  rewrite group_and_sort_spec.
  eapply sublist_NoDup; [|apply fmap_sublist, sublist_filter].
  rewrite stable_sort_Permutation. apply NoDup_project_task_ids.
Qed.

Lemma elem_of_all_tasks (columns : Columns) t :
  t ∈ all_tasks columns ↔ ∃ s, t ∈ columns s.
Proof.
  unfold all_tasks. rewrite !elem_of_app. split.
  - intros [H|[H|H]]; eauto.
  - intros [[] H]; auto.
Qed.

(** A board as fetched is a board of its project. *)
Lemma group_and_sort_board_of w p : board_of (store w) p (group_and_sort w p).
Proof.
  split_and!.
  - unfold group_and_sort. rewrite all_tasks_groupByStatus. simpl.
    rewrite stable_sort_Permutation. apply NoDup_project_task_ids.
  - intros t [s (k & r & Hk & Hp & _ & ->)%elem_of_group_and_sort]%elem_of_all_tasks.
    simpl. eauto.
  - intros k r Hk Hp. apply list_elem_of_fmap. exists (select_task k r).
    split; [done|]. apply elem_of_all_tasks. exists (row_status r).
    apply elem_of_group_and_sort. by exists k, r.
Qed.

Lemma StronglySorted_fmap_impl {A B} (R1 : relation A) (R2 : relation B)
    (f : A → B) (l : list A) :
  (∀ a b, R1 a b → R2 (f a) (f b)) →
  StronglySorted R1 l → StronglySorted R2 (f <$> l).
Proof.
  intros Hf. induction 1 as [|x l Hl IH Hx]; [constructor|].
  rewrite fmap_cons. constructor; [done|].
  rewrite Forall_fmap. eapply Forall_impl; [exact Hx|]. intros y. apply Hf.
Qed.

Lemma imap_sorted {A} (h : nat → A → string * Z) (l : list A) :
  (∀ i j x y, (i ≤ j)%nat → (h i x).2 ≤ (h j y).2) →
  StronglySorted (λ a b : string * Z, a.2 ≤ b.2) (imap h l).
Proof.
  revert h. induction l as [|x l IH]; intros h Hh; [constructor|].
  simpl. constructor.
  - apply IH. intros i j y z Hij. apply Hh. lia.
  - apply Forall_forall. intros y (i & z & -> & _)%elem_of_lookup_imap_1.
    apply Hh. lia.
Qed.

Lemma elem_of_imap_positions (l : list Task) k o :
  (k, o) ∈ imap (λ i t, (t_id t, Z.of_nat i)) l ↔
  ∃ i t, l !! i = Some t ∧ k = t_id t ∧ o = Z.of_nat i.
Proof.
  split.
  - intros (i & t & [= -> ->] & Hi)%elem_of_lookup_imap_1. eauto.
  - intros (i & t & Hi & -> & ->).
    by apply (elem_of_lookup_imap_2 (λ i t, (t_id t, Z.of_nat i))).
Qed.

(** The body schema accepts the batch of a board of at most 2000 tasks. *)
Lemma flattenUpdates_schema (columns : Columns) :
  (length (all_tasks columns) ≤ 2000)%nat →
  (∀ t, t ∈ all_tasks columns → t_id t ≠ "") →
  BoardUpdateSchema (Some (flattenUpdates columns)) = Some (flattenUpdates columns).
Proof.
  intros Hlen Hids. unfold BoardUpdateSchema.
  assert (length (flattenUpdates columns) = length (all_tasks columns)) as Hl.
  { rewrite flattenUpdates_spec. unfold all_tasks.
    by rewrite !length_app, !length_imap. }
  rewrite (bool_decide_eq_true_2 (length (flattenUpdates columns) ≤ 2000)%nat)
    by lia.
  rewrite andb_true_r.
  assert (forallb (λ u, non_empty (bu_id u) && order_in_range (bu_order u))
            (flattenUpdates columns) = true) as ->; [|done].
  apply forallb_forall. intros u Hu%list_elem_of_In.
  apply elem_of_flattenUpdates in Hu as (i & t & Hi & Hid & Hord).
  assert (t ∈ all_tasks columns) as Ht.
  { apply elem_of_all_tasks. exists (bu_status u). by eapply list_elem_of_lookup_2. }
  assert (i < length (all_tasks columns))%nat as Hi2.
  { apply lookup_lt_Some in Hi. unfold all_tasks. rewrite !length_app.
    destruct (bu_status u); lia. }
  apply andb_true_iff. split.
  - apply bool_decide_eq_true. rewrite Hid.
    specialize (Hids t Ht). destruct (t_id t); [done|simpl; lia].
  - apply bool_decide_eq_true. lia.
Qed.

Lemma elem_of_flattenUpdates_2 (columns : Columns) s i t :
  columns s !! i = Some t →
  {| bu_id := t_id t; bu_status := s; bu_order := Z.of_nat i |}
  ∈ flattenUpdates columns.
Proof.
  intros Hi. rewrite flattenUpdates_spec, !elem_of_app.
  destruct s; [left|right; left|right; right];
    by apply (elem_of_lookup_imap_2
                (λ i t, {| bu_id := t_id t; bu_status := _; bu_order := Z.of_nat i |})).
Qed.

Lemma flattenUpdates_ids (columns : Columns) :
  bu_id <$> flattenUpdates columns = t_id <$> all_tasks columns.
Proof.
  rewrite flattenUpdates_spec. unfold all_tasks. rewrite !fmap_app.
  by rewrite !(imap_key _ bu_id t_id).
Qed.

Lemma NoDup_column_ids (columns : Columns) s :
  NoDup (t_id <$> all_tasks columns) → NoDup (t_id <$> columns s).
Proof.
  unfold all_tasks. rewrite !fmap_app.
  intros (H1 & _ & (H2 & _ & H3)%NoDup_app)%NoDup_app. by destruct s.
Qed.

(** The columns after a member's valid update with the client's batch: the
    pairs (id, order) of a fetched column are those of the client's column. *)
Lemma persisted_entries (columns : Columns) p t0 (st : Store)
    (ts2 : gmap string TaskRow) s k o :
  board_of st p columns →
  (∀ k, k ∉ bu_id <$> flattenUpdates columns → ts2 !! k = tasks st !! k) →
  (∀ u, u ∈ flattenUpdates columns →
        ∃ r, tasks st !! bu_id u = Some r
             ∧ ts2 !! bu_id u
               = Some (apply_patch (layout_patch (bu_status u) (bu_order u)) t0 r)) →
  (∃ r, ts2 !! k = Some r ∧ row_projectId r = p ∧ row_status r = s
        ∧ row_order r = o)
  ↔ ∃ i t, columns s !! i = Some t ∧ k = t_id t ∧ o = Z.of_nat i.
Proof.
  intros (Hnd & Hexist & Hcover) Hother Hlisted. simpl in *. split.
  - intros (r & Hr & Hp & Hs & Ho).
    destruct (decide (k ∈ bu_id <$> flattenUpdates columns)) as [Hin|Hout].
    + apply list_elem_of_fmap in Hin as (u & -> & Hu).
      destruct (Hlisted u Hu) as (r0 & _ & Hr2).
      rewrite Hr in Hr2. injection Hr2 as ->. simpl in *.
      apply elem_of_flattenUpdates in Hu as (i & t & Hi & Hid & Hord).
      exists i, t. rewrite Hs in Hi. split_and!; congruence.
    + exfalso. apply Hout. rewrite flattenUpdates_ids.
      apply (Hcover k r); [|done]. by rewrite <- Hother.
  - intros (i & t & Hi & -> & ->).
    pose proof (elem_of_flattenUpdates_2 _ _ _ _ Hi) as Hu.
    destruct (Hlisted _ Hu) as (r & Hr & Hr2). simpl in *.
    eexists. split; [exact Hr2|]. simpl. split_and!; try done.
    destruct (Hexist t) as (r' & Hr' & Hp).
    { apply elem_of_all_tasks. exists s. by eapply list_elem_of_lookup_2. }
    congruence.
Qed.

(** The columns fetched after a layout update that listed the client's
    columns. *)
Lemma columns_after_layout (columns : Columns) w w2 projectId t0 :
  board_of (store w) projectId columns →
  (∀ k, k ∉ bu_id <$> flattenUpdates columns →
        tasks (store w2) !! k = tasks (store w) !! k) →
  (∀ u, u ∈ flattenUpdates columns →
        ∃ r, tasks (store w) !! bu_id u = Some r
             ∧ tasks (store w2) !! bu_id u
               = Some (apply_patch (layout_patch (bu_status u) (bu_order u)) t0 r)) →
  ∀ s, (λ t, (t_id t, t_order t)) <$> group_and_sort w2 projectId s
       = imap (λ i t, (t_id t, Z.of_nat i)) (columns s).
Proof.
  intros Hboard Hother Hlisted s.
  pose proof Hboard as (Hnd & Hexist & Hcover).
  assert (∀ k o, (k, o) ∈ (λ t, (t_id t, t_order t)) <$> group_and_sort w2 projectId s
                 ↔ (k, o) ∈ imap (λ i t, (t_id t, Z.of_nat i)) (columns s))
    as Hsame.
  { intros k o. rewrite elem_of_imap_positions.
    rewrite <- (persisted_entries columns projectId t0 (store w) (tasks (store w2)) s k o
                  Hboard Hother Hlisted).
    rewrite list_elem_of_fmap. split.
    - intros (t & Heq & (k' & r & Hk & Hp & Hs & ->)%elem_of_group_and_sort).
      simpl in Heq. injection Heq as -> ->. by exists r.
    - intros (r & Hr & Hp & Hs & <-). exists (select_task k r). split; [done|].
      apply elem_of_group_and_sort. by exists k, r. }
  apply (StronglySorted_unique_strong (λ a b : string * Z, a.2 ≤ b.2)).
  - intros [k1 o1] [k2 o2] H1%Hsame H2. simpl. intros H12 H21.
    apply elem_of_imap_positions in H1 as (i & t1 & Hi & -> & ->).
    apply elem_of_imap_positions in H2 as (j & t2 & Hj & -> & ->).
    assert (i = j) as -> by lia. congruence.
  - apply (StronglySorted_fmap_impl column_le); [|apply group_and_sort_sorted].
    intros a b [Hlt|[Heq _]]; simpl; lia.
  - apply imap_sorted. intros i j x y Hij. simpl. lia.
  - apply NoDup_Permutation.
    + apply (NoDup_fmap_1 fst). rewrite <- list_fmap_compose.
      apply NoDup_group_and_sort_ids.
    + apply (NoDup_fmap_1 fst). rewrite (imap_key _ fst t_id) by done.
      by apply NoDup_column_ids.
    + intros [k o]. apply Hsame.
Qed.

(** A member's save of columns that hold exactly the tasks of the project. *)
Lemma run_PUT_flattenUpdates w projectId header memberId (columns : Columns) :
  member_of w projectId header memberId →
  board_of (store w) projectId columns →
  (length (all_tasks columns) ≤ 2000)%nat →
  tasks (store w) !! "" = None →
  ∃ w2,
    run (BoardRoute.PUT projectId header (Some (flattenUpdates columns))) w
    = (Json (), w2)
    ∧ ∀ s, (λ t, (t_id t, t_order t)) <$> group_and_sort w2 projectId s
           = imap (λ i t, (t_id t, Z.of_nat i)) (columns s).
Proof.
  intros Hmem Hboard Hlen Hempty.
  pose proof Hboard as (Hnd & Hexist & Hcover).
  assert (BoardUpdateSchema (Some (flattenUpdates columns))
          = Some (flattenUpdates columns)) as Hbody.
  { apply flattenUpdates_schema; [done|]. intros t Ht Heq.
    destruct (Hexist t Ht) as (r & Hr & _). congruence. }
  assert (layout_valid (store w) projectId (flattenUpdates columns)) as Hvalid.
  { split; [by rewrite flattenUpdates_ids|].
    intros u (i & t & Hi & Hid & _)%elem_of_flattenUpdates.
    rewrite Hid. apply Hexist, elem_of_all_tasks. exists (bu_status u).
    by eapply list_elem_of_lookup_2. }
  rewrite (run_PUT _ _ _ _ _ _ Hmem Hbody).
  rewrite (proj2 (layout_guard (store w) projectId (flattenUpdates columns)) Hvalid).
  destruct Hvalid as [Hnd2 Hall].
  destruct (update_all_spec (flattenUpdates columns) (now w) (tasks (store w)))
    as (ts & -> & Hother & Hlisted).
  { intros u Hu. destruct (Hall u Hu) as (r & Hr & _). eauto. }
  specialize (Hlisted Hnd2).
  eexists. split; [reflexivity|]. intros s.
  by apply (columns_after_layout columns w _ projectId (now w)).
Qed.

(** X22: persisting a layout. When a member submits, as the board client
    does, flattenUpdates of columns that hold exactly the tasks of the
    project (in whatever arrangement, at most 2000 of them, none with an
    empty id), the update is accepted, and the board as fetched afterwards
    shows in every column the client's tasks in the client's order, numbered
    0, 1, 2, ... *)
Theorem persist_layout w projectId header memberId (columns : Columns) :
  member_of w projectId header memberId →
  board_of (store w) projectId columns →
  (length (all_tasks columns) ≤ 2000)%nat →
  tasks (store w) !! "" = None →
  ∃ w2,
    run (BoardRoute.PUT projectId header (Some (flattenUpdates columns))) w
    = (Json (), w2)
    ∧ ∀ s, (λ t, (t_id t, t_order t)) <$> group_and_sort w2 projectId s
           = imap (λ i t, (t_id t, Z.of_nat i)) (columns s).
Proof. apply run_PUT_flattenUpdates. Qed.

Lemma persist_layout_witness :
  ∃ w2,
    run (BoardRoute.PUT "P" (Some "alice")
           (Some [Sample.entry "A" TODO 0; Sample.entry "B" DOING 0]))
      (Sample.world_of Sample.two_todo) = (Json (), w2)
    ∧ (λ t, (t_id t, t_order t)) <$> group_and_sort w2 "P" DOING = [("B", 0)].
Proof.
  pose (columns := λ s, match s with
                        | TODO => [select_task "A" (Sample.task "P" "first" TODO 0 10)]
                        | DOING => [select_task "B" (Sample.task "P" "second" TODO 1 20)]
                        | DONE => []
                        end).
  destruct (persist_layout (Sample.world_of Sample.two_todo) "P" (Some "alice")
              "alice" columns) as (w2 & Hrun & Hcolumns).
  - split; [reflexivity|]. vm_compute. eauto.
  - split_and!.
    + apply (bool_decide_unpack _). vm_compute. exact I.
    + intros t Ht. apply elem_of_cons in Ht as [->|Ht];
        [|apply list_elem_of_singleton in Ht as ->];
        eexists; split; vm_compute; reflexivity.
    + refine (bool_decide_unpack
                (map_Forall (λ k r, row_projectId r = "P" → k ∈ ["A"; "B"])
                   (tasks (store (Sample.world_of Sample.two_todo)))) _).
      vm_compute. exact I.
  - vm_compute. lia.
  - reflexivity.
  - exists w2. split; [exact Hrun|]. apply (Hcolumns DOING).
Defined.

(** * The board page: dragging *)

Lemma all_tasks_two_columns (a b : TaskStatus) :
  a ≠ b →
  ∃ o, o ≠ a ∧ o ≠ b ∧ ∀ columns : Columns,
    all_tasks columns ≡ₚ columns a ++ columns b ++ columns o.
Proof.
  intros Hab. unfold all_tasks.
  destruct a, b; try done;
    [exists DONE|exists DOING|exists DONE|exists TODO|exists DOING|exists TODO];
    (split; [done|]); (split; [done|]); intros columns; solve_Permutation.
Qed.

Lemma all_tasks_Permutation (c1 c2 : Columns) :
  (∀ s, c1 s ≡ₚ c2 s) → all_tasks c1 ≡ₚ all_tasks c2.
Proof. intros H. unfold all_tasks. by rewrite !H. Qed.

Lemma set_column_eq (columns : Columns) s l : set_column columns s l s = l.
Proof. unfold set_column. by rewrite decide_True. Qed.

Lemma set_column_ne (columns : Columns) s l s' :
  s' ≠ s → set_column columns s l s' = columns s'.
Proof. intros. unfold set_column. by rewrite decide_False. Qed.

Lemma filter_all {A} (P : A → Prop) `{!∀ x, Decision (P x)} (l : list A) :
  Forall P l → filter P l = l.
Proof.
  induction 1 as [|x l Hx Hl IH]; [done|]. by rewrite filter_cons_True, IH.
Qed.

(** Taking out the one task with a given id. *)
Lemma filter_out_id (l : list Task) x :
  NoDup (t_id <$> l) → x ∈ l →
  t_id <$> l ≡ₚ t_id x :: (t_id <$> filter (λ t, t_id t ≠ t_id x) l).
Proof.
  induction l as [|y l IH]; intros Hnd Hx; [by apply elem_of_nil in Hx|].
  rewrite fmap_cons in Hnd. apply NoDup_cons in Hnd as [Hy Hnd].
  rewrite filter_cons. apply elem_of_cons in Hx as [->|Hx].
  - rewrite decide_False by (by intros H; apply H).
    rewrite fmap_cons, filter_all; [done|].
    apply Forall_forall. intros z Hz Heq. apply Hy. rewrite <- Heq.
    by apply list_elem_of_fmap_2.
  - rewrite decide_True.
    + rewrite !fmap_cons, (IH Hnd Hx). apply Permutation_swap.
    + intros Heq. apply Hy. rewrite Heq. by apply list_elem_of_fmap_2.
Qed.

(** A drag-over leaves the columns, or moves a task within its column, or
    moves the one task with the active id to another column. *)
Lemma onDragOver_cases arrayMove activeId over prev :
  BoardClient.onDragOver arrayMove activeId over prev = prev
  ∨ (∃ a i j,
       (i < length (prev a))%nat ∧ (j < length (prev a))%nat
       ∧ BoardClient.onDragOver arrayMove activeId over prev
         = set_column prev a (arrayMove (prev a) i j))
  ∨ (∃ a b moving n,
       a ≠ b ∧ moving ∈ prev a ∧ t_id moving = activeId
       ∧ BoardClient.onDragOver arrayMove activeId over prev
         = set_column
             (set_column prev a (filter (λ t, t_id t ≠ activeId) (prev a)))
             b (take n (prev b) ++ [BoardClient.with_status moving b]
                ++ drop n (prev b))).
Proof.
  unfold BoardClient.onDragOver.
  destruct over as [overId|]; [|by left].
  destruct (BoardClient.findContainer activeId prev) as [a|]; [|by left].
  destruct (BoardClient.findContainer overId prev) as [b|]; [|by left].
  destruct (decide (a = b)) as [<-|Hab].
  - destruct (list_find _ (prev a)) as [[i x]|] eqn:Hi; [|by left].
    destruct (list_find (λ t, t_id t = overId) (prev a)) as [[j y]|] eqn:Hj;
      [|by left].
    destruct (decide (i = j)); [by left|]. right. left.
    apply list_find_Some in Hi as (Hi & _). apply list_find_Some in Hj as (Hj & _).
    exists a, i, j. split_and!; [by eapply lookup_lt_Some..|done].
  - destruct (list_find _ (prev a)) as [[i moving]|] eqn:Hi; [|by left].
    apply list_find_Some in Hi as (Hi & Hid & _). right. right.
    eexists a, b, moving, _. split_and!; [done| |done|reflexivity].
    by eapply list_elem_of_lookup_2.
Qed.

(** What a drag-over keeps. *)
Lemma onDragOver_ids arrayMove activeId over (prev : Columns) :
  rearranges arrayMove →
  NoDup (t_id <$> all_tasks prev) →
  let next := BoardClient.onDragOver arrayMove activeId over prev in
  t_id <$> all_tasks next ≡ₚ t_id <$> all_tasks prev
  ∧ NoDup (t_id <$> all_tasks next)
  ∧ (in_own_column prev → in_own_column next).
Proof.
  intros Hmove Hnd next.
  assert (t_id <$> all_tasks next ≡ₚ t_id <$> all_tasks prev
          ∧ (in_own_column prev → in_own_column next)) as [Hperm Hown];
    [|split_and!; [done|by rewrite Hperm|done]].
  subst next.
  destruct (onDragOver_cases arrayMove activeId over prev)
    as [->|[(a & i & j & Hi & Hj & ->)|(a & b & moving & n & Hab & Hin & Hid & ->)]].
  - done.
  - assert (∀ s, set_column prev a (arrayMove (prev a) i j) s ≡ₚ prev s) as Hs.
    { intros s. destruct (decide (s = a)) as [->|Hne].
      - rewrite set_column_eq. by apply Hmove.
      - by rewrite set_column_ne. }
    split.
    + by rewrite (all_tasks_Permutation _ _ Hs).
    + intros Hprev s t Ht. rewrite Hs in Ht. by apply Hprev.
  - split.
    + destruct (all_tasks_two_columns a b Hab) as (o & Hoa & Hob & Hsplit).
      rewrite !Hsplit, !fmap_app.
      rewrite set_column_eq, (set_column_ne _ b _ a) by done.
      rewrite set_column_eq, !set_column_ne by done.
      rewrite fmap_app, fmap_app, fmap_cons, fmap_nil. simpl.
      rewrite (filter_out_id (prev a) moving), Hid;
        [|by apply NoDup_column_ids|done].
      rewrite <- (take_drop n (prev b)) at 3. rewrite fmap_app.
      solve_Permutation.
    + intros Hprev s t Ht. destruct (decide (s = b)) as [->|Hsb].
      * rewrite set_column_eq in Ht.
        rewrite !elem_of_app, list_elem_of_singleton in Ht.
        destruct Ht as [Ht|[->|Ht]]; [|done|]; apply Hprev;
          rewrite <- (take_drop n (prev b)), elem_of_app; auto.
      * rewrite set_column_ne in Ht by done.
        destruct (decide (s = a)) as [->|Hsa].
        -- rewrite set_column_eq in Ht.
           apply list_elem_of_filter in Ht as [_ Ht]. by apply Hprev.
        -- rewrite set_column_ne in Ht by done. by apply Hprev.
Qed.

(** X23: a drag-over loses and duplicates no task. On a board whose ids are
    all different, and with an arrayMove that rearranges its list, the ids
    on the board after onDragOver are those before, each once; and if every
    task was in the column of its status, every task still is. *)
Theorem onDragOver_keeps_tasks arrayMove activeId over (prev : Columns) :
  rearranges arrayMove →
  NoDup (t_id <$> all_tasks prev) →
  let next := BoardClient.onDragOver arrayMove activeId over prev in
  t_id <$> all_tasks next ≡ₚ t_id <$> all_tasks prev
  ∧ NoDup (t_id <$> all_tasks next)
  ∧ (in_own_column prev → in_own_column next).
Proof. apply onDragOver_ids. Qed.

Lemma move_item_rearranges : rearranges move_item.
Proof.
  intros l i j Hi _. unfold move_item.
  destruct (lookup_lt_is_Some_2 l i Hi) as [x Hx]. rewrite Hx.
  rewrite <- Permutation_middle, take_drop. symmetry. by apply delete_Permutation.
Qed.

Lemma onDragOver_keeps_tasks_witness :
  let prev := group_and_sort (Sample.world_of Sample.two_todo) "P" in
  let next := BoardClient.onDragOver move_item "B" (Some "DOING") prev in
  t_id <$> next TODO = ["A"] ∧ t_id <$> next DOING = ["B"]
  ∧ t_id <$> all_tasks next ≡ₚ t_id <$> all_tasks prev.
Proof.
  intros prev next. split; [reflexivity|]. split; [reflexivity|].
  apply (onDragOver_keeps_tasks move_item "B" (Some "DOING") prev).
  - apply move_item_rearranges.
  - apply (bool_decide_unpack _). vm_compute. exact I.
Defined.

(** * The board page: drag and drop, saved *)

Lemma board_of_Permutation s p (c1 c2 : Columns) :
  t_id <$> all_tasks c1 ≡ₚ t_id <$> all_tasks c2 →
  board_of s p c1 → board_of s p c2.
Proof.
  intros Hperm (Hnd & Hexist & Hcover). split_and!.
  - by rewrite <- Hperm.
  - intros t Ht. apply (list_elem_of_fmap_2 t_id) in Ht. rewrite <- Hperm in Ht.
    apply list_elem_of_fmap in Ht as (t1 & -> & Ht1). by apply Hexist.
  - intros k r Hk Hp. rewrite <- Hperm. by eapply Hcover.
Qed.

Lemma drag_ids arrayMove events (columns : Columns) :
  rearranges arrayMove →
  NoDup (t_id <$> all_tasks columns) →
  t_id <$> all_tasks (drag arrayMove events columns) ≡ₚ t_id <$> all_tasks columns.
Proof.
  intros Hmove. unfold drag. revert columns.
  induction events as [|[activeId over] events IH]; intros columns Hnd; [done|].
  simpl.
  destruct (onDragOver_ids arrayMove activeId over columns Hmove Hnd)
    as (Hperm & Hnd2 & _).
  by rewrite IH.
Qed.

Lemma flattenUpdates_normalizeOrders (columns : Columns) :
  flattenUpdates (normalizeOrders columns) = flattenUpdates columns.
Proof.
  rewrite !flattenUpdates_spec, !normalizeOrders_spec.
  f_equal; [|f_equal]; by apply imap_imap_key.
Qed.

(** X24: drag and drop. A member fetches the board of a project of at most
    2000 tasks, none with an empty id, drags a card over any sequence of
    droppables and drops it over one, with an arrayMove that rearranges its
    list: the save is accepted, the client shows the renumbered columns, and
    a new fetch shows in every column the same tasks in the same places, with
    the same status and order. *)
Theorem drag_and_drop_is_saved arrayMove w projectId stored memberId
    (events : list (string * option string)) (overId : string) :
  rearranges arrayMove →
  member_of w projectId (BoardClient.request_header stored) memberId →
  (length (project_tasks (store w) projectId) ≤ 2000)%nat →
  tasks (store w) !! "" = None →
  let dragged := drag arrayMove events (group_and_sort w projectId) in
  ∃ w2,
    BoardClient.onDragEnd projectId stored (Some overId) dragged w
    = (normalizeOrders dragged, w2)
    ∧ ∀ s, (λ t, (t_id t, t_status t, t_order t)) <$> group_and_sort w2 projectId s
           = (λ t, (t_id t, t_status t, t_order t)) <$> normalizeOrders dragged s.
Proof.
  intros Hmove Hmem Hlen Hempty dragged.
  pose proof (group_and_sort_board_of w projectId) as Hboard.
  assert (t_id <$> all_tasks dragged
          ≡ₚ t_id <$> all_tasks (group_and_sort w projectId)) as Hperm.
  { apply drag_ids; [done|]. by destruct Hboard. }
  apply (board_of_Permutation _ _ _ dragged) in Hboard; [|done].
  destruct (run_PUT_flattenUpdates w projectId (BoardClient.request_header stored)
              memberId dragged Hmem Hboard) as (w2 & Hrun & Hcolumns); [|done|].
  { apply Permutation_length in Hperm. rewrite !length_fmap in Hperm.
    rewrite Hperm. unfold group_and_sort. rewrite all_tasks_groupByStatus.
    simpl. by rewrite stable_sort_Permutation. }
  exists w2. split.
  - unfold BoardClient.onDragEnd, BoardClient.persistBoardLayout.
    by rewrite flattenUpdates_normalizeOrders, Hrun.
  - intros s. specialize (Hcolumns s).
    rewrite normalizeOrders_spec, fmap_imap.
    transitivity ((λ x : string * Z, (x.1, s, x.2))
                    <$> ((λ t, (t_id t, t_order t)) <$> group_and_sort w2 projectId s)).
    + rewrite <- list_fmap_compose. apply list_fmap_ext.
      intros i t Ht. simpl.
      apply list_elem_of_lookup_2, elem_of_group_and_sort in Ht
        as (k & r & _ & _ & Hs & ->). simpl. by rewrite Hs.
    + rewrite Hcolumns, fmap_imap. by apply imap_ext.
Qed.

Lemma drag_and_drop_is_saved_witness :
  ∃ w2,
    BoardClient.onDragEnd "P" (Some "alice") (Some "DOING")
      (drag move_item [("B", Some "DOING")]
         (group_and_sort (Sample.world_of Sample.two_todo) "P"))
      (Sample.world_of Sample.two_todo)
    = (normalizeOrders
         (drag move_item [("B", Some "DOING")]
            (group_and_sort (Sample.world_of Sample.two_todo) "P")), w2)
    ∧ (λ t, (t_id t, t_status t, t_order t)) <$> group_and_sort w2 "P" DOING
      = [("B", DOING, 0)].
Proof.
  destruct (drag_and_drop_is_saved move_item (Sample.world_of Sample.two_todo)
              "P" (Some "alice") "alice" [("B", Some "DOING")] "DOING")
    as (w2 & Hrun & Hcolumns).
  - apply move_item_rearranges.
  - split; [reflexivity|]. vm_compute. eauto.
  - vm_compute. lia.
  - reflexivity.
  - exists w2. split; [exact Hrun|]. apply (Hcolumns DOING).
Defined.

(** * The board page: a session *)

(** ** The ids and orders of a fetched column *)

Lemma elem_of_column_pairs w p s k o :
  (k, o) ∈ (λ t, (t_id t, t_order t)) <$> group_and_sort w p s ↔
  ∃ r, tasks (store w) !! k = Some r ∧ row_projectId r = p
       ∧ row_status r = s ∧ row_order r = o.
Proof.
  rewrite list_elem_of_fmap. split.
  - intros (t & Heq & (k' & r & Hk & Hp & Hs & ->)%elem_of_group_and_sort).
    simpl in Heq. injection Heq as -> ->. by exists r.
  - intros (r & Hr & Hp & Hs & <-). exists (select_task k r). split; [done|].
    apply elem_of_group_and_sort. by exists k, r.
Qed.

Lemma NoDup_column_pairs w p s :
  NoDup ((λ t, (t_id t, t_order t)) <$> group_and_sort w p s).
Proof.
  apply (NoDup_fmap_1 fst). rewrite <- list_fmap_compose.
  apply NoDup_group_and_sort_ids.
Qed.

Lemma column_pairs_sorted w p s :
  StronglySorted (λ a b : string * Z, a.2 ≤ b.2)
    ((λ t, (t_id t, t_order t)) <$> group_and_sort w p s).
Proof.
  apply (StronglySorted_fmap_impl column_le); [|apply group_and_sort_sorted].
  intros a b [Hlt|[Heq _]]; simpl; lia.
Qed.

(** Where no two tasks of a column have the same order, the column is
    determined by its rows. *)
Lemma column_pairs_determined w p s (l : list (string * Z)) :
  orders_distinct (store w) p s →
  NoDup l →
  StronglySorted (λ a b : string * Z, a.2 ≤ b.2) l →
  (∀ k o, (k, o) ∈ l ↔
          ∃ r, tasks (store w) !! k = Some r ∧ row_projectId r = p
               ∧ row_status r = s ∧ row_order r = o) →
  (λ t, (t_id t, t_order t)) <$> group_and_sort w p s = l.
Proof.
  intros Hdistinct Hnd Hsorted Hl.
  apply (StronglySorted_unique_strong (λ a b : string * Z, a.2 ≤ b.2)).
  - intros [k1 o1] [k2 o2] (r1 & Hr1 & Hp1 & Hs1 & Ho1)%elem_of_column_pairs
      (r2 & Hr2 & Hp2 & Hs2 & Ho2)%Hl. simpl. intros H12 H21.
    assert (o1 = o2) as -> by lia. f_equal.
    eapply Hdistinct; eauto. congruence.
  - apply column_pairs_sorted.
  - done.
  - apply NoDup_Permutation; [apply NoDup_column_pairs|done|].
    intros [k o]. by rewrite elem_of_column_pairs, Hl.
Qed.

Lemma in_sync_ids (columns : Columns) w p (l : TaskStatus → list (string * Z)) :
  (∀ s, (λ t, (t_id t, t_order t)) <$> group_and_sort w p s = l s) →
  (∀ s, t_id <$> columns s = (l s).*1) →
  in_sync columns w p.
Proof.
  intros Hl Hc s. rewrite Hc, <- Hl, <- list_fmap_compose. done.
Qed.

Lemma column_pairs_ids w p s :
  ((λ t, (t_id t, t_order t)) <$> group_and_sort w p s).*1
  = t_id <$> group_and_sort w p s.
Proof. by rewrite <- list_fmap_compose. Qed.

(** Two stores whose rows have the same project, status and order show the
    same columns, up to the other fields. *)
Lemma same_layout_columns w w2 p :
  (∀ k, (λ r, (row_projectId r, row_status r, row_order r)) <$> tasks (store w2) !! k
        = (λ r, (row_projectId r, row_status r, row_order r)) <$> tasks (store w) !! k) →
  (∀ s, orders_distinct (store w) p s) →
  (∀ s, orders_distinct (store w2) p s)
  ∧ ∀ s, t_id <$> group_and_sort w2 p s = t_id <$> group_and_sort w p s.
Proof.
  intros Hsame Hdistinct.
  assert (∀ k r2, tasks (store w2) !! k = Some r2 →
            ∃ r, tasks (store w) !! k = Some r
                 ∧ row_projectId r = row_projectId r2
                 ∧ row_status r = row_status r2 ∧ row_order r = row_order r2)
    as H21.
  { intros k r2 Hr2. specialize (Hsame k). rewrite Hr2 in Hsame.
    destruct (tasks (store w) !! k) as [r|]; [|done].
    exists r. simpl in Hsame. split; [done|]. split_and!; congruence. }
  assert (∀ k r, tasks (store w) !! k = Some r →
            ∃ r2, tasks (store w2) !! k = Some r2
                 ∧ row_projectId r = row_projectId r2
                 ∧ row_status r = row_status r2 ∧ row_order r = row_order r2)
    as H12.
  { intros k r Hr. specialize (Hsame k). rewrite Hr in Hsame.
    destruct (tasks (store w2) !! k) as [r2|]; [|done].
    exists r2. simpl in Hsame. split; [done|]. split_and!; congruence. }
  split.
  - intros s k1 r1 k2 r2 Hr1 Hr2 Hp1 Hp2 Hs1 Hs2 Ho.
    destruct (H21 _ _ Hr1) as (r1' & Hr1' & ? & ? & ?).
    destruct (H21 _ _ Hr2) as (r2' & Hr2' & ? & ? & ?).
    eapply (Hdistinct s k1 r1' k2 r2'); congruence.
  - intros s. rewrite <- !column_pairs_ids. f_equal. symmetry.
    apply column_pairs_determined;
      [done|apply NoDup_column_pairs|apply column_pairs_sorted|].
    intros k o. rewrite elem_of_column_pairs. split.
    + intros (r2 & Hr2 & Hp & Hs & Ho).
      destruct (H21 _ _ Hr2) as (r & Hr & ? & ? & ?).
      exists r. split_and!; congruence.
    + intros (r & Hr & Hp & Hs & Ho).
      destruct (H12 _ _ Hr) as (r2 & Hr2 & ? & ? & ?).
      exists r2. split_and!; congruence.
Qed.

(** ** The actions, one by one *)

Lemma group_and_sort_store w w2 p s :
  store w2 = store w → group_and_sort w2 p s = group_and_sort w p s.
Proof. intros H. by rewrite !group_and_sort_spec, H. Qed.

Lemma in_sync_store (columns : Columns) w w2 p :
  store w2 = store w → in_sync columns w p → in_sync columns w2 p.
Proof. intros H Hsync s. by rewrite (group_and_sort_store w w2). Qed.

Lemma board_ready_store w w2 p stored :
  store w2 = store w → board_ready w p stored → board_ready w2 p stored.
Proof.
  intros H ([m [Hid Hpm]] & Hproject & Hdistinct).
  unfold board_ready, member_of. rewrite H. eauto.
Qed.

Lemma board_ready_directory w w2 p stored :
  directory (store w2) = directory (store w) →
  (∀ s, orders_distinct (store w2) p s) →
  board_ready w p stored → board_ready w2 p stored.
Proof.
  unfold directory. intros [= Hpm Hprojects _] Hdistinct
    ([m [Hid Hmem]] & Hproject & _).
  unfold board_ready, member_of. rewrite Hpm, Hprojects. eauto.
Qed.

Lemma run_GET_tasks w p header res w2 :
  run (BoardRoute.GET p header) w = (Json res, w2) →
  w2 = w ∧ groupByStatus (board_tasks res) = group_and_sort w p.
Proof.
  unfold BoardRoute.GET. destruct (getMemberIdOrThrow header); [|done].
  simpl. destruct (projectMembers (store w) !! (p, a)); [|done].
  simpl. destruct (projects (store w) !! p); [|done].
  simpl. by intros [= <- <-].
Qed.

Lemma run_GET_ready w p stored :
  board_ready w p stored →
  ∃ m res, BoardClient.request_header stored = Some m
           ∧ run (BoardRoute.GET p (BoardClient.request_header stored)) w
             = (Json res, w).
Proof.
  intros ([m [Hid [pm Hpm]]] & [pr Hpr] & _).
  destruct (BoardClient.request_header stored) as [h|] eqn:Hh; [|done].
  unfold BoardRoute.GET. rewrite Hid. simpl. rewrite Hpm. simpl. rewrite Hpr.
  simpl. eauto.
Qed.

Lemma refresh_sync w p stored (columns : Columns) :
  board_ready w p stored →
  BoardClient.refresh p stored columns w = (group_and_sort w p, w).
Proof.
  intros Hready. destruct (run_GET_ready w p stored Hready) as (m & res & Hm & Hrun).
  unfold BoardClient.refresh. rewrite Hm in *. rewrite Hrun.
  by destruct (run_GET_tasks _ _ _ _ _ Hrun) as [_ ->].
Qed.

Lemma normalizeOrders_ids (columns : Columns) s :
  t_id <$> normalizeOrders columns s = t_id <$> columns s.
Proof. rewrite normalizeOrders_spec. by apply imap_key. Qed.

Lemma addTask_sync w p stored title status (columns : Columns) :
  board_ready w p stored → in_sync columns w p →
  board_ready (BoardClient.addTask p stored title status columns w).2 p stored
  ∧ in_sync (BoardClient.addTask p stored title status columns w).1
      (BoardClient.addTask p stored title status columns w).2 p.
Proof.
  intros Hready Hsync. unfold BoardClient.addTask.
  set (json := Some _).
  destruct (task_routes_call_tasks_only p "" (BoardClient.request_header stored)
              json None None) as (Hcalls & _).
  apply (run_directory _ w) in Hcalls.
  pose proof (run_POST_inv w p (BoardClient.request_header stored) json) as Hinv.
  destruct (run _ w) as [resp w2]. specialize (Hinv _ _ eq_refl). simpl in Hcalls.
  destruct resp as [task| |];
    [|split; [by apply (board_ready_store w)|by apply (in_sync_store _ w)]..].
  destruct Hinv as (memberId & data & _ & Hdata & _ & Hrun).
  apply CreateTaskSchema_Some in Hdata as (b & [= <-] & _ & _ & Hstatus & _).
  simpl in Hstatus. rewrite Hstatus in Hrun. simpl in Hrun.
  apply run_append_inv in Hrun as (r & -> & Hfresh & Htasks & Hp & Hs & Ho).
  pose proof Hready as (_ & _ & Hdistinct).
  assert (∀ k r0, tasks (store w) !! k = Some r0 → row_projectId r0 = p →
            row_status r0 = status → row_order r0 < row_order r) as Habove.
  { intros k r0 Hk Hp0 Hs0. rewrite Ho. by eapply append_order_above. }
  assert (∀ s, orders_distinct (store w2) p s) as Hdistinct2.
  { intros s k1 r1 k2 r2. rewrite Htasks. intros Hr1 Hr2 Hp1 Hp2 Hs1 Hs2 Ho12.
    destruct (decide (k1 = next_id w)) as [->|Hk1];
      destruct (decide (k2 = next_id w)) as [->|Hk2]; [done|..].
    - rewrite lookup_insert_eq in Hr1. rewrite lookup_insert_ne in Hr2 by done.
      injection Hr1 as <-. specialize (Habove _ _ Hr2 Hp2 ltac:(congruence)). lia.
    - rewrite lookup_insert_eq in Hr2. rewrite lookup_insert_ne in Hr1 by done.
      injection Hr2 as <-. specialize (Habove _ _ Hr1 Hp1 ltac:(congruence)). lia.
    - rewrite lookup_insert_ne in Hr1, Hr2 by done. by eapply Hdistinct. }
  split; [by apply (board_ready_directory w)|].
  simpl.
  apply (in_sync_ids _ _ _
           (λ s, ((λ t, (t_id t, t_order t)) <$> group_and_sort w p s)
                 ++ if decide (s = status) then [(next_id w, row_order r)] else [])).
  - intros s. apply column_pairs_determined; [done| | |].
    + apply NoDup_app. split; [apply NoDup_column_pairs|]. split.
      * intros [k o] (r0 & Hr0 & _)%elem_of_column_pairs Hin.
        destruct (decide (s = status)); [|by apply elem_of_nil in Hin].
        apply list_elem_of_singleton in Hin as [= -> ->]. congruence.
      * destruct (decide (s = status)); [apply NoDup_singleton|constructor].
    + apply StronglySorted_app_2; [|apply column_pairs_sorted|].
      * intros [k1 o1] [k2 o2] (r0 & Hr0 & Hp0 & Hs0 & Ho0)%elem_of_column_pairs Hin.
        destruct (decide (s = status)) as [->|]; [|by apply elem_of_nil in Hin].
        apply list_elem_of_singleton in Hin as [= -> ->]. simpl.
        specialize (Habove _ _ Hr0 Hp0 Hs0). lia.
      * destruct (decide (s = status)); repeat constructor.
    + intros k o. rewrite elem_of_app, elem_of_column_pairs, Htasks. split.
      * intros [(r0 & Hr0 & Hrest)|Hin].
        -- exists r0. split; [|done]. rewrite lookup_insert_ne; [done|].
           intros <-. congruence.
        -- destruct (decide (s = status)) as [->|]; [|by apply elem_of_nil in Hin].
           apply list_elem_of_singleton in Hin as [= -> ->].
           exists r. by rewrite lookup_insert_eq.
      * intros (r0 & Hr0 & Hp0 & Hs0 & Ho0).
        destruct (decide (k = next_id w)) as [->|Hk].
        -- rewrite lookup_insert_eq in Hr0. injection Hr0 as <-. right.
           rewrite decide_True by congruence.
           apply list_elem_of_singleton. congruence.
        -- rewrite lookup_insert_ne in Hr0 by done. left. by exists r0.
  - intros s. rewrite normalizeOrders_ids, fmap_app, column_pairs_ids, <- Hsync.
    unfold set_column. destruct (decide (s = status)) as [->|].
    + by rewrite fmap_app.
    + by rewrite app_nil_r.
Qed.

Lemma fold_columns_spec (f : TaskStatus → list Task) s :
  fold_left (λ next s, set_column next s (f s)) STATUSES no_columns s = f s.
Proof.
  unfold STATUSES, set_column. simpl. destruct s; repeat case_decide; done.
Qed.

Lemma saveTaskEdits_sync w p stored editing title description assigneeId dueDate
    (columns : Columns) :
  board_ready w p stored → in_sync columns w p →
  board_ready
    (BoardClient.saveTaskEdits stored editing title description assigneeId
       dueDate columns w).2 p stored
  ∧ in_sync
      (BoardClient.saveTaskEdits stored editing title description assigneeId
         dueDate columns w).1
      (BoardClient.saveTaskEdits stored editing title description assigneeId
         dueDate columns w).2 p.
Proof.
  intros Hready Hsync. unfold BoardClient.saveTaskEdits.
  destruct editing as [editing|]; [|done].
  set (json := Some _).
  pose proof (run_PATCH_inv w (t_id editing) (BoardClient.request_header stored)
                json) as Hinv.
  destruct (run _ w) as [resp w2]. specialize (Hinv _ _ eq_refl).
  destruct resp as [task| |];
    [|split; [by apply (board_ready_store w)|by apply (in_sync_store _ w)]..].
  destruct Hinv as (row & parsed & memberId & Hrow & _ & Hparse & _ & -> & ->).
  assert (patch_status parsed = None ∧ patch_order parsed = None) as [Hst Hord].
  { unfold PatchTaskSchema, json in Hparse. simpl in Hparse.
    destruct (_ && _); [|done]. by injection Hparse as <-. }
  pose proof Hready as (_ & _ & Hdistinct).
  destruct (same_layout_columns w
              (set_store (tick w)
                 (set_tasks (store w)
                    (<[t_id editing := apply_patch parsed (now w) row]>
                       (tasks (store w))))) p) as [Hdistinct2 Hids]; [|done|].
  { intros k. simpl. destruct (decide (k = t_id editing)) as [->|Hk].
    - rewrite lookup_insert_eq, Hrow. simpl. by rewrite Hst, Hord.
    - by rewrite lookup_insert_ne. }
  split; [by apply (board_ready_directory w)|].
  intros s. cbn [fst snd]. rewrite Hids, <- Hsync.
  match goal with
  | |- context [fold_left (λ next s0, set_column next s0 (@?f s0)) _ _ _] =>
      rewrite (fold_columns_spec f)
  end.
  rewrite <- list_fmap_compose.
  apply list_fmap_ext. intros i t _. simpl. by case_decide.
Qed.

Lemma filter_fmap_comm {A B} (f : A → B) (P : B → Prop) `{!∀ y, Decision (P y)}
    (l : list A) :
  filter P (f <$> l) = f <$> filter (λ x, P (f x)) l.
Proof.
  induction l as [|x l IH]; [done|].
  rewrite fmap_cons, !filter_cons, IH. by destruct (decide (P (f x))).
Qed.

Lemma deleteTask_sync w p stored editing (columns : Columns) :
  board_ready w p stored → in_sync columns w p →
  board_ready (BoardClient.deleteTask stored editing columns w).2 p stored
  ∧ in_sync (BoardClient.deleteTask stored editing columns w).1
      (BoardClient.deleteTask stored editing columns w).2 p.
Proof.
  intros Hready Hsync. unfold BoardClient.deleteTask.
  destruct editing as [editing|]; [|done].
  pose proof (run_DELETE_inv w (t_id editing) (BoardClient.request_header stored))
    as Hinv.
  pose proof (run_DELETE w (t_id editing) (BoardClient.request_header stored))
    as Hfwd.
  destruct (task_routes_call_tasks_only p (t_id editing)
              (BoardClient.request_header stored) None None None)
    as (_ & _ & _ & _ & Hcalls).
  apply (run_directory _ w) in Hcalls.
  destruct (run _ w) as [resp w2]. specialize (Hinv _ _ eq_refl). simpl in Hcalls.
  destruct resp as [[]| |];
    [|destruct Hinv as [Hstore|[[=] _]];
      (split; [by apply (board_ready_store w)|by apply (in_sync_store _ w)])..].
  pose proof Hready as ([m Hmem] & _ & Hdistinct).
  assert (∀ k r, tasks (store w2) !! k = Some r ∧ row_projectId r = p ↔
                 tasks (store w) !! k = Some r ∧ row_projectId r = p
                 ∧ k ≠ t_id editing) as Hrows.
  { intros k r. destruct Hinv as [Hstore|(_ & row & m2 & Hrow & _ & ->)].
    - rewrite Hstore. split; [|tauto]. intros [Hr Hp]. split_and!; [done..|].
      intros ->. rewrite <- Hp in Hmem. specialize (Hfwd m r Hr Hmem).
      injection Hfwd as Hw2. rewrite Hw2 in Hstore.
      apply (f_equal (λ s, tasks s !! t_id editing)) in Hstore.
      simpl in Hstore. rewrite lookup_delete_eq, Hr in Hstore. done.
    - simpl. destruct (decide (k = t_id editing)) as [->|Hk].
      + rewrite lookup_delete_eq. split; [by intros [? _]|tauto].
      + rewrite lookup_delete_ne by done. tauto. }
  assert (∀ s, orders_distinct (store w2) p s) as Hdistinct2.
  { intros s k1 r1 k2 r2 Hr1 Hr2 Hp1 Hp2 Hs1 Hs2 Ho.
    destruct (proj1 (Hrows k1 r1)) as (Hr1' & _); [done|].
    destruct (proj1 (Hrows k2 r2)) as (Hr2' & _); [done|].
    by eapply (Hdistinct s k1 r1 k2 r2). }
  split; [by apply (board_ready_directory w)|].
  cbn [fst snd].
  apply (in_sync_ids _ _ _
           (λ s, filter (λ x : string * Z, x.1 ≠ t_id editing)
                   ((λ t, (t_id t, t_order t)) <$> group_and_sort w p s))).
  - intros s. apply column_pairs_determined; [done| | |].
    + apply NoDup_filter, NoDup_column_pairs.
    + apply StronglySorted_filter, column_pairs_sorted.
    + intros k o. rewrite list_elem_of_filter, elem_of_column_pairs. simpl. split.
      * intros (Hk & r & Hr & Hp & Hrest). exists r. split; [|done].
        by apply (Hrows k r).
      * intros (r & Hr & Hp & Hrest).
        destruct (proj1 (Hrows k r)) as (Hr' & _ & Hk); [done|].
        split; [done|]. by exists r.
  - intros s. rewrite normalizeOrders_ids.
    match goal with
    | |- context [fold_left (λ next s0, set_column next s0 (@?f s0)) _ _ _] =>
        rewrite (fold_columns_spec f)
    end.
    rewrite (filter_fmap_comm _ (λ x : string * Z, x.1 ≠ t_id editing)).
    rewrite <- list_fmap_compose.
    transitivity (filter (λ k, k ≠ t_id editing) (t_id <$> columns s));
      [by rewrite filter_fmap_comm|].
    by rewrite Hsync, filter_fmap_comm.
Qed.

Lemma in_sync_board_of (columns : Columns) w p :
  in_sync columns w p → board_of (store w) p columns.
Proof.
  intros Hsync. apply (board_of_Permutation _ _ (group_and_sort w p));
    [|apply group_and_sort_board_of].
  unfold all_tasks. by rewrite !fmap_app, !Hsync.
Qed.

Lemma dragAndDrop_sync arrayMove w p stored events overId (columns : Columns) :
  rearranges arrayMove →
  board_ready w p stored → in_sync columns w p →
  board_ready
    (BoardClient.onDragEnd p stored (Some overId) (drag arrayMove events columns) w).2
    p stored
  ∧ in_sync
      (BoardClient.onDragEnd p stored (Some overId)
         (drag arrayMove events columns) w).1
      (BoardClient.onDragEnd p stored (Some overId)
         (drag arrayMove events columns) w).2 p.
Proof.
  intros Hmove Hready Hsync.
  unfold BoardClient.onDragEnd, BoardClient.persistBoardLayout.
  rewrite flattenUpdates_normalizeOrders.
  set (dragged := drag arrayMove events columns).
  assert (board_of (store w) p dragged) as Hboard.
  { apply in_sync_board_of in Hsync.
    apply (board_of_Permutation _ _ columns); [|done].
    symmetry. apply drag_ids; [done|]. by destruct Hsync. }
  pose proof (run_PUT_inv w p (BoardClient.request_header stored)
                (Some (flattenUpdates dragged))) as Hinv.
  destruct (task_routes_call_tasks_only p "" (BoardClient.request_header stored)
              None (Some (flattenUpdates dragged)) None) as (_ & _ & Hcalls & _).
  apply (run_directory _ w) in Hcalls.
  destruct (run _ w) as [resp w2]. specialize (Hinv _ _ eq_refl). simpl in Hcalls.
  destruct resp as [[]| |];
    [|apply (board_ready_store w w2 p stored Hinv) in Hready;
      rewrite (refresh_sync w2 p stored _ Hready); by split..].
  destruct Hinv as (batch & [= <-] & _ & Hlisted & Hother).
  pose proof (columns_after_layout dragged w w2 p (now w) Hboard Hother Hlisted)
    as Hcolumns.
  cbn [fst snd]. split.
  - apply (board_ready_directory w); [done| |done].
    intros s k1 r1 k2 r2 Hr1 Hr2 Hp1 Hp2 Hs1 Hs2 Ho.
    assert ((k1, row_order r1) ∈ imap (λ i t, (t_id t, Z.of_nat i)) (dragged s))
      as (i & t1 & Hi & -> & Hoi)%elem_of_imap_positions.
    { rewrite <- Hcolumns. apply elem_of_column_pairs. by exists r1. }
    assert ((k2, row_order r2) ∈ imap (λ i t, (t_id t, Z.of_nat i)) (dragged s))
      as (j & t2 & Hj & -> & Hoj)%elem_of_imap_positions.
    { rewrite <- Hcolumns. apply elem_of_column_pairs. by exists r2. }
    assert (i = j) as -> by lia. congruence.
  - intros s. rewrite normalizeOrders_ids, <- column_pairs_ids, Hcolumns.
    symmetry. by apply imap_key.
Qed.

(** ** The session *)

Lemma act_keeps_sync arrayMove p stored a (columns : Columns) w :
  rearranges arrayMove →
  board_ready w p stored → in_sync columns w p →
  board_ready (act arrayMove p stored a (columns, w)).2 p stored
  ∧ in_sync (act arrayMove p stored a (columns, w)).1
      (act arrayMove p stored a (columns, w)).2 p.
Proof.
  intros Hmove Hready Hsync. destruct a; cbn [act fst snd].
  - rewrite (refresh_sync w p stored columns Hready). by split.
  - by apply addTask_sync.
  - by apply saveTaskEdits_sync.
  - by apply deleteTask_sync.
  - by apply dragAndDrop_sync.
Qed.

Lemma session_keeps_sync arrayMove p stored actions (columns : Columns) w :
  rearranges arrayMove →
  board_ready w p stored → in_sync columns w p →
  board_ready (fold_left (λ st a, act arrayMove p stored a st) actions (columns, w)).2
    p stored
  ∧ in_sync
      (fold_left (λ st a, act arrayMove p stored a st) actions (columns, w)).1
      (fold_left (λ st a, act arrayMove p stored a st) actions (columns, w)).2 p.
Proof.
  intros Hmove. revert columns w.
  induction actions as [|a actions IH]; intros columns w Hready Hsync; [done|].
  simpl. destruct (act_keeps_sync arrayMove p stored a columns w) as [Hready2 Hsync2];
    [done..|].
  destruct (act arrayMove p stored a (columns, w)) as [columns2 w2]. by apply IH.
Qed.

(** X25: a session of the board page stays in sync. A member opens the
    board of an existing project in which no two tasks of a column have the
    same order; the page then refreshes, adds, edits and deletes tasks and
    drags cards and drops them over a droppable, one action completing
    before the next and nobody else writing, with an arrayMove that
    rearranges its list. After any such sequence, whatever the server
    answered to each request, every column of the page shows the tasks a new
    fetch would show, in the same places; and the store still has no two
    tasks of a column with the same order. *)
Theorem session_stays_in_sync arrayMove w projectId stored (actions : list Action) :
  rearranges arrayMove →
  board_ready w projectId stored →
  in_sync
    (fold_left (λ st a, act arrayMove projectId stored a st) actions
       (group_and_sort w projectId, w)).1
    (fold_left (λ st a, act arrayMove projectId stored a st) actions
       (group_and_sort w projectId, w)).2 projectId
  ∧ board_ready
      (fold_left (λ st a, act arrayMove projectId stored a st) actions
         (group_and_sort w projectId, w)).2 projectId stored.
Proof.
  intros Hmove Hready.
  destruct (session_keeps_sync arrayMove projectId stored actions
              (group_and_sort w projectId) w) as [Hready2 Hsync2]; [done..|].
  by split.
Qed.

Lemma session_stays_in_sync_witness :
  let session :=
    fold_left (λ st a, act move_item "P" (Some "alice") a st)
      [AddTask "third" TODO;
       DragAndDrop [("B", Some "DOING"); ("a", Some "A")] "A";
       DeleteTask (Some (select_task "B" (Sample.task "P" "second" TODO 1 20)))]
      (group_and_sort (Sample.world_of Sample.two_todo) "P",
       Sample.world_of Sample.two_todo) in
  in_sync session.1 session.2 "P"
  ∧ t_id <$> session.1 TODO = ["a"; "A"].
Proof.
  split; [|by vm_compute].
  apply (session_stays_in_sync move_item (Sample.world_of Sample.two_todo) "P"
           (Some "alice")).
  - apply move_item_rearranges.
  - split_and!.
    + exists "alice". split; [reflexivity|]. vm_compute. eauto.
    + vm_compute. eauto.
    + intros s k1 r1 k2 r2 H1 H2. revert k2 r2 H2. revert k1 r1 H1.
      destruct s;
        refine (bool_decide_unpack
                  (map_Forall
                     (λ k1 r1,
                        map_Forall
                          (λ k2 r2,
                             row_projectId r1 = "P" → row_projectId r2 = "P" →
                             row_status r1 = _ → row_status r2 = _ →
                             row_order r1 = row_order r2 → k1 = k2)
                          (tasks (store (Sample.world_of Sample.two_todo))))
                     (tasks (store (Sample.world_of Sample.two_todo)))) _);
        vm_compute; exact I.
Defined.
